(** * Wollok-TS: the static validator and the native bridge of [game] / [Sound]

    A shallow embedding of [src/validator.ts] and [src/wre/game.ts].

    - [Js] holds what both files share with the host language: the three
      exception classes the sources raise, and its numbers.
    - [Validator] embeds the rule set and the driver of [validator.ts] over a
      closed AST; a rule that dereferences [undefined] raises, as it does in
      JavaScript.
    - [Game] embeds the natives of [game.ts] as store-passing functions over
      an [Evaluation]; a raised exception carries the store as it was when
      the exception left the native, because the mutations made before a
      [throw] persist. *)

From Stdlib Require Import String Ascii List Bool Arith ZArith Lia.
From Stdlib Require SpecFloat.
From stdpp Require Import gmap strings list fin_maps.

Set Warnings "-register-all".

Local Open Scope string_scope.
Local Open Scope nat_scope.

(* ================================================================== *)
(** ** Host-language exceptions *)
(* ================================================================== *)

Module Js.

(** [new TypeError(m)], [new RangeError(m)], [new Error(m)]. A property
    read on [undefined] raises a [TypeError] as well. *)
Inductive Exception : Type :=
| TypeError (message : string)
| RangeError (message : string)
| Error (message : string).

(** A number is an IEEE 754 binary64 float. [plus], [times] and
    [lessThan] are the operators [+], [*] and [<] on numbers ([a > b] is
    [lessThan b a]); [numberOf z] is the number an integer literal
    denotes. *)
Definition number : Type := SpecFloat.spec_float.

Definition numberOf (z : Z) : number :=
  SpecFloat.binary_normalize 53 1024 z 0 false.

Definition plus : number -> number -> number := SpecFloat.SFadd 53 1024.

Definition times : number -> number -> number := SpecFloat.SFmul 53 1024.

Definition lessThan : number -> number -> bool := SpecFloat.SFltb.

End Js.

(* ================================================================== *)
(** ** The validator *)
(* ================================================================== *)

Module Validator.

Definition Id := string.
Definition Name := string.
Definition Code := string.

(** A computation of the validator: it returns or it throws. *)
Inductive Outcome (A : Type) : Type :=
| Returns (a : A)
| Throws (e : Js.Exception).
Arguments Returns {A} a.
Arguments Throws {A} e.

Definition bind {A B} (c : Outcome A) (k : A -> Outcome B) : Outcome B :=
  match c with
  | Returns a => k a
  | Throws e => Throws e
  end.

Notation "'let*' x ':=' c 'in' k" := (bind c (fun x => k))
  (at level 10, x name, c at level 100, k at level 200).

(** *** AST *)

(** Modelled from the spec: the node variants of [model.ts] (which is not
    part of the sources) with the attributes section 3 of the
    specification lists. Leaves and bodies are records; the variants
    that own other nodes are the constructors of [Node]. *)

(** [Parameter] of the model; the name is reserved in Rocq. *)
Record Param : Type :=
  { parameterId : Id; parameterName : Name; isVarArg : bool }.

Record Reference : Type :=
  { referenceId : Id; referenceName : Name }.

Record Body (N : Type) : Type :=
  { bodyId : Id; sentences : list N }.
Arguments bodyId {N} b.
Arguments sentences {N} b.

Record Catch (N : Type) : Type :=
  { catchId : Id;
    parameter : Param;
    parameterType : option Reference;
    catchBody : Body N }.
Arguments catchId {N} c.
Arguments parameter {N} c.
Arguments parameterType {N} c.
Arguments catchBody {N} c.

(** The value of a [Literal] is a primitive or an anonymous object, a
    [Singleton] node whose parent is the literal. *)
Inductive LiteralValue (N : Type) : Type :=
| Primitive (repr : string)
| ObjectLiteral (singleton : N).
Arguments Primitive {N} repr.
Arguments ObjectLiteral {N} singleton.

Inductive Node : Type :=
| EnvironmentNode (id : Id) (members : list Node)
| PackageNode (id : Id) (name : Name) (members : list Node)
| ImportNode (id : Id) (reference : Reference)
| ClassNode (id : Id) (name : Name) (superclass : option Reference)
    (mixins : list Reference) (members : list Node)
| SingletonNode (id : Id) (name : option Name) (members : list Node)
| MixinNode (id : Id) (name : Name) (members : list Node)
| FieldNode (id : Id) (name : Name) (value : option Node)
| MethodNode (id : Id) (name : Name) (parameters : list Param)
    (body : option (Body Node)) (isOverride isNative : bool)
| ConstructorNode (id : Id) (parameters : list Param)
    (body : Body Node) (baseCall : option (list Node))
| ParameterNode (p : Param)
| BodyNode (b : Body Node)
| VariableNode (id : Id) (name : Name) (value : option Node)
| ReturnNode (id : Id) (value : option Node)
| AssignmentNode (id : Id) (reference : Reference) (value : Node)
| ReferenceNode (r : Reference)
| SelfNode (id : Id)
| SuperNode (id : Id) (args : list Node)
| NewNode (id : Id) (className : Reference) (args : list Node)
| LiteralNode (id : Id) (value : LiteralValue Node)
| SendNode (id : Id) (receiver : Node) (message : Name) (args : list Node)
| IfNode (id : Id) (condition : Node) (thenBody elseBody : Body Node)
| ThrowNode (id : Id) (arg : Node)
| TryNode (id : Id) (body : Body Node) (catches : list (Catch Node))
    (always : Body Node)
| CatchNode (c : Catch Node)
| ProgramNode (id : Id) (name : Name) (body : Body Node)
| TestNode (id : Id) (name : Name) (body : Body Node)
| DescribeNode (id : Id) (name : Name) (members : list Node).

Inductive NodeKind : Type :=
| KParameter | KImport | KBody | KCatch | KPackage | KProgram | KTest
| KClass | KSingleton | KMixin | KConstructor | KField | KMethod
| KVariable | KReturn | KAssignment | KReference | KSelf | KNew
| KLiteral | KSend | KSuper | KIf | KThrow | KTry | KEnvironment
| KDescribe.

Definition kind (n : Node) : NodeKind :=
  match n with
  | EnvironmentNode _ _ => KEnvironment
  | PackageNode _ _ _ => KPackage
  | ImportNode _ _ => KImport
  | ClassNode _ _ _ _ _ => KClass
  | SingletonNode _ _ _ => KSingleton
  | MixinNode _ _ _ => KMixin
  | FieldNode _ _ _ => KField
  | MethodNode _ _ _ _ _ _ => KMethod
  | ConstructorNode _ _ _ _ => KConstructor
  | ParameterNode _ => KParameter
  | BodyNode _ => KBody
  | VariableNode _ _ _ => KVariable
  | ReturnNode _ _ => KReturn
  | AssignmentNode _ _ _ => KAssignment
  | ReferenceNode _ => KReference
  | SelfNode _ => KSelf
  | SuperNode _ _ => KSuper
  | NewNode _ _ _ => KNew
  | LiteralNode _ _ => KLiteral
  | SendNode _ _ _ _ => KSend
  | IfNode _ _ _ _ => KIf
  | ThrowNode _ _ => KThrow
  | TryNode _ _ _ _ => KTry
  | CatchNode _ => KCatch
  | ProgramNode _ _ _ => KProgram
  | TestNode _ _ _ => KTest
  | DescribeNode _ _ _ => KDescribe
  end.

(** [m.kind === 'Method'], [m.kind === 'Constructor'],
    [parentOf(node).kind === 'Package']. *)
Definition isMethod (n : Node) : bool :=
  match n with MethodNode _ _ _ _ _ _ => true | _ => false end.

Definition isConstructor (n : Node) : bool :=
  match n with ConstructorNode _ _ _ _ => true | _ => false end.

Definition isPackage (n : Node) : bool :=
  match n with PackageNode _ _ _ => true | _ => false end.

(** Property reads on a node of a union type. A property the variant
    does not have reads as [undefined]: [None] for [name] and
    [members]; [parameters] is only read on arity-bearing members. *)

Definition nodeId (n : Node) : Id :=
  match n with
  | EnvironmentNode i _ | PackageNode i _ _ | ImportNode i _
  | ClassNode i _ _ _ _ | SingletonNode i _ _ | MixinNode i _ _
  | FieldNode i _ _ | MethodNode i _ _ _ _ _ | ConstructorNode i _ _ _
  | VariableNode i _ _ | ReturnNode i _ | AssignmentNode i _ _
  | SelfNode i | SuperNode i _ | NewNode i _ _ | LiteralNode i _
  | SendNode i _ _ _ | IfNode i _ _ _ | ThrowNode i _ | TryNode i _ _ _
  | ProgramNode i _ _ | TestNode i _ _ | DescribeNode i _ _ => i
  | ParameterNode p => parameterId p
  | BodyNode b => bodyId b
  | ReferenceNode r => referenceId r
  | CatchNode c => catchId c
  end.

Definition name (n : Node) : option Name :=
  match n with
  | PackageNode _ s _ | ClassNode _ s _ _ _ | MixinNode _ s _
  | FieldNode _ s _ | MethodNode _ s _ _ _ _ | VariableNode _ s _
  | ProgramNode _ s _ | TestNode _ s _ | DescribeNode _ s _ => Some s
  | ParameterNode p => Some (parameterName p)
  | ReferenceNode r => Some (referenceName r)
  | SingletonNode _ o _ => o
  | _ => None
  end.

Definition members (n : Node) : option (list Node) :=
  match n with
  | EnvironmentNode _ ms | PackageNode _ _ ms | ClassNode _ _ _ _ ms
  | SingletonNode _ _ ms | MixinNode _ _ ms | DescribeNode _ _ ms =>
      Some ms
  | _ => None
  end.

Definition parameters (n : Node) : list Param :=
  match n with
  | MethodNode _ _ ps _ _ _ | ConstructorNode _ ps _ _ => ps
  | _ => []
  end.

(** *** Tree utilities *)

Definition optionToList {A} (o : option A) : list A :=
  match o with Some c => [c] | None => [] end.

(** Modelled from the spec: the children of a node, in source order
    ([utils.ts] is not part of the sources). *)
Definition children (n : Node) : list Node :=
  match n with
  | EnvironmentNode _ ms => ms
  | PackageNode _ _ ms => ms
  | ImportNode _ r => [ReferenceNode r]
  | ClassNode _ _ sup mixins ms =>
      map ReferenceNode (optionToList sup) ++ map ReferenceNode mixins ++ ms
  | SingletonNode _ _ ms => ms
  | MixinNode _ _ ms => ms
  | FieldNode _ _ v => optionToList v
  | MethodNode _ _ ps b _ _ =>
      map ParameterNode ps ++ map BodyNode (optionToList b)
  | ConstructorNode _ ps b bc =>
      map ParameterNode ps ++ [BodyNode b] ++
      match bc with Some l => l | None => [] end
  | ParameterNode _ => []
  | BodyNode b => sentences b
  | VariableNode _ _ v => optionToList v
  | ReturnNode _ v => optionToList v
  | AssignmentNode _ r v => [ReferenceNode r; v]
  | ReferenceNode _ => []
  | SelfNode _ => []
  | SuperNode _ l => l
  | NewNode _ c l => ReferenceNode c :: l
  | LiteralNode _ v =>
      match v with ObjectLiteral s => [s] | Primitive _ => [] end
  | SendNode _ r _ l => r :: l
  | IfNode _ c t e => [c; BodyNode t; BodyNode e]
  | ThrowNode _ a => [a]
  | TryNode _ b cs a => BodyNode b :: map CatchNode cs ++ [BodyNode a]
  | CatchNode c =>
      ParameterNode (parameter c) ::
      map ReferenceNode (optionToList (parameterType c)) ++
      [BodyNode (catchBody c)]
  | ProgramNode _ _ b => [BodyNode b]
  | TestNode _ _ b => [BodyNode b]
  | DescribeNode _ _ ms => ms
  end.

(** The nodes of a subtree, depth first, parents before children. *)
Fixpoint preorder (n : Node) : list Node :=
  let all (l : list Node) := flat_map preorder l in
  let opt (o : option Node) :=
    match o with Some c => preorder c | None => [] end in
  let ofBody (b : Body Node) := BodyNode b :: all (sentences b) in
  let ofCatch (c : Catch Node) :=
    CatchNode c :: ParameterNode (parameter c) ::
    map ReferenceNode (optionToList (parameterType c)) ++
    ofBody (catchBody c) in
  n ::
  match n with
  | EnvironmentNode _ ms => all ms
  | PackageNode _ _ ms => all ms
  | ImportNode _ r => [ReferenceNode r]
  | ClassNode _ _ sup mixins ms =>
      map ReferenceNode (optionToList sup) ++ map ReferenceNode mixins ++
      all ms
  | SingletonNode _ _ ms => all ms
  | MixinNode _ _ ms => all ms
  | FieldNode _ _ v => opt v
  | MethodNode _ _ ps b _ _ =>
      map ParameterNode ps ++
      match b with Some b' => ofBody b' | None => [] end
  | ConstructorNode _ ps b bc =>
      map ParameterNode ps ++ ofBody b ++
      match bc with Some l => all l | None => [] end
  | ParameterNode _ => []
  | BodyNode b => all (sentences b)
  | VariableNode _ _ v => opt v
  | ReturnNode _ v => opt v
  | AssignmentNode _ r v => ReferenceNode r :: preorder v
  | ReferenceNode _ => []
  | SelfNode _ => []
  | SuperNode _ l => all l
  | NewNode _ c l => ReferenceNode c :: all l
  | LiteralNode _ v =>
      match v with ObjectLiteral s => preorder s | Primitive _ => [] end
  | SendNode _ r _ l => preorder r ++ all l
  | IfNode _ c t e => preorder c ++ ofBody t ++ ofBody e
  | ThrowNode _ a => preorder a
  | TryNode _ b cs a => ofBody b ++ flat_map ofCatch cs ++ ofBody a
  | CatchNode c =>
      ParameterNode (parameter c) ::
      map ReferenceNode (optionToList (parameterType c)) ++
      ofBody (catchBody c)
  | ProgramNode _ _ b => ofBody b
  | TestNode _ _ b => ofBody b
  | DescribeNode _ _ ms => all ms
  end.

Fixpoint foldM {T A} (step : T -> A -> Outcome T) (acc : T) (l : list A)
  : Outcome T :=
  match l with
  | [] => Returns acc
  | x :: r => let* acc' := step acc x in foldM step acc' r
  end.

(** Modelled from the spec: [reduce(step, seed, root)] is a depth-first,
    pre-order fold over the subtree at [root] that visits each node
    once, children in source order; an exception of [step] leaves it. *)
Definition reduce {T} (step : T -> Node -> Outcome T) (seed : T)
  (root : Node) : Outcome T :=
  foldM step seed (preorder root).

(** Modelled from the spec: [parentOf(node)] is the node of the
    environment that has [node] (by [Id]) among its children; it fails
    on a node that is not part of the environment. *)
Definition parentOf (environment : Node) (node : Node) : Outcome Node :=
  match
    find (fun p => existsb (fun c => String.eqb (nodeId c) (nodeId node))
                     (children p))
      (preorder environment)
  with
  | Some p => Returns p
  | None => Throws (Js.Error "node is not part of the environment")
  end.

(** *** Problems *)

Inductive Level : Type := Warning | Error.

Record Problem : Type :=
  { code : Code; level : Level; node : Node }.

Definition Rule : Type := Node -> Code -> Outcome (option Problem).

Definition problem (level : Level) (condition : Node -> Outcome bool)
  : Rule :=
  fun node code =>
    let* holds := condition node in
    Returns (if negb holds
             then Some {| code := code; level := level; node := node |}
             else None).

Definition warning : (Node -> Outcome bool) -> Rule := problem Warning.

Definition error : (Node -> Outcome bool) -> Rule := problem Error.

(** Reading a property of [undefined]. *)
Definition undefinedRead {A} (property : string) : Outcome A :=
  Throws (Js.TypeError
            ("Cannot read property '" ++ property ++ "' of undefined")).

(** A rule is only dispatched to nodes of its own kind; the type of the
    source excludes the other variants. *)
Definition wrongKind {A} : Outcome A :=
  Throws (Js.TypeError "rule applied to a node of another kind").

(** *** Helpers of the host language *)

(** [Array.prototype.some] and [every] stop at the first decisive
    element; an exception of the callback leaves them. *)
Fixpoint some {A} (f : A -> Outcome bool) (l : list A) : Outcome bool :=
  match l with
  | [] => Returns false
  | x :: r => let* b := f x in if b then Returns true else some f r
  end.

Fixpoint every {A} (f : A -> Outcome bool) (l : list A) : Outcome bool :=
  match l with
  | [] => Returns true
  | x :: r => let* b := f x in if b then every f r else Returns false
  end.

Fixpoint mapM {A B} (f : A -> Outcome B) (l : list A) : Outcome (list B) :=
  match l with
  | [] => Returns []
  | x :: r => let* y := f x in let* ys := mapM f r in Returns (y :: ys)
  end.

(** [findIndex]: the index of the first match, [-1] when there is
    none. *)
Fixpoint findIndexFrom {A} (p : A -> bool) (l : list A) (i : Z) : Z :=
  match l with
  | [] => (-1)%Z
  | x :: r => if p x then i else findIndexFrom p r (i + 1)%Z
  end.

Definition findIndex {A} (p : A -> bool) (l : list A) : Z :=
  findIndexFrom p l 0%Z.

(** [a === b] on values that are a string or [undefined]. *)
Definition strictEq (a b : option Name) : bool :=
  match a, b with
  | Some x, Some y => String.eqb x y
  | None, None => true
  | _, _ => false
  end.

Definition isUpperAZ (c : ascii) : bool :=
  (65 <=? nat_of_ascii c) && (nat_of_ascii c <=? 90).

Definition isLowerAZ (c : ascii) : bool :=
  (97 <=? nat_of_ascii c) && (nat_of_ascii c <=? 122).

(** [/^[X]$/.test(s[0])]: the first character exists and is in the
    class; [s[0]] of the empty string is [undefined], which the test
    reads as a nine-letter word. *)
Definition testFirst (class : ascii -> bool) (s : string) : bool :=
  match s with
  | String c _ => class c
  | EmptyString => false
  end.

Fixpoint includesChar (c : ascii) (s : string) : bool :=
  match s with
  | EmptyString => false
  | String d r => Ascii.eqb c d || includesChar c r
  end.

(** [reject(isNil)]. *)
Fixpoint rejectNil {A} (l : list (option A)) : list A :=
  match l with
  | [] => []
  | Some x :: r => x :: rejectNil r
  | None :: r => rejectNil r
  end.

(** *** Validations *)

Definition sameNode (a b : Node) : bool :=
  String.eqb (nodeId a) (nodeId b).

(** [member2.parameters[member2.parameters.length - 1].isVarArg] is read
    first: with no parameter the element is [undefined] and the read
    raises. [member1 !== member2] compares the two objects; a node is
    identified by its [Id]. *)
Definition canBeCalledWithArgs (member1 member2 : Node) : Outcome bool :=
  match last (parameters member2) with
  | None => undefinedRead "isVarArg"
  | Some lastParameter =>
      Returns
        (((isVarArg lastParameter
           && (length (parameters member2) <=? length (parameters member1)))
          || (length (parameters member2) =? length (parameters member1)))
         && negb (sameNode member1 member2))
  end.

Definition matchingConstructors (l : list Node) (member : Node)
  : Outcome bool :=
  some (fun m =>
          if isConstructor m then canBeCalledWithArgs m member
          else Returns false) l.

Definition matchingSignatures (l : list Node) (member : Node)
  : Outcome bool :=
  some (fun m =>
          if isMethod m && strictEq (name m) (name member)
          then canBeCalledWithArgs m member
          else Returns false) l.

Definition bodyIsNotEmpty (node : Node) : Outcome bool :=
  match node with
  | ProgramNode _ _ body | TestNode _ _ body =>
      Returns (negb (length (sentences body) =? 0))
  | _ => wrongKind
  end.

Definition keywords : list string :=
  ["."; ","; "("; ")"; ";"; "_"; "{"; "}";
   "import"; "package"; "program"; "test"; "mixed with"; "class";
   "inherits"; "object"; "mixin";
   "var"; "const"; "="; "override"; "method"; "native"; "constructor";
   "self"; "super"; "new"; "if"; "else"; "return"; "throw"; "try";
   "then always"; "catch"; ":"; "+";
   "null"; "false"; "true"; "=>"].

Definition isSuper (n : Node) : bool :=
  match n with SuperNode _ _ => true | _ => false end.

Section Validations.

Variable environment : Node.

Definition nameIsPascalCase : Rule :=
  warning (fun node =>
    match name node with
    | Some s => Returns (testFirst isUpperAZ s)
    | None => undefinedRead "0"
    end).

Definition nameIsCamelCase : Rule :=
  warning (fun node =>
    match name node with
    | Some s => Returns (testFirst isLowerAZ s)
    | None => Returns false
    end).

Definition onlyLastParameterIsVarArg : Rule :=
  error (fun node =>
    Returns (findIndex isVarArg (parameters node) + 1
             =? Z.of_nat (length (parameters node)))%Z).

Definition nameIsNotKeyword : Rule :=
  error (fun node =>
    match name node with
    | Some s => Returns (negb (existsb (String.eqb s) keywords))
    | None => Returns true
    end).

Definition hasCatchOrAlways : Rule :=
  error (fun t =>
    match t with
    | TryNode _ body catches always =>
        Returns (negb (length catches =? 0)
                 || (negb (length (sentences always) =? 0)
                     && negb (length (sentences body) =? 0)))
    | _ => wrongKind
    end).

Definition singletonIsNotUnnamed : Rule :=
  error (fun node =>
    let* parent := parentOf environment node in
    Returns (isPackage parent
             && match name node with Some _ => true | None => false end)).

Definition importHasNotLocalReference : Rule :=
  error (fun node =>
    match node with
    | ImportNode _ reference =>
        let* parent := parentOf environment node in
        match members parent with
        | Some ms =>
            Returns (forallb
                       (fun m => negb (strictEq (name m)
                                         (Some (referenceName reference))))
                       ms)
        | None => undefinedRead "every"
        end
    | _ => wrongKind
    end).

Definition nonAsignationOfFullyQualifiedReferences : Rule :=
  error (fun node =>
    match node with
    | AssignmentNode _ reference _ =>
        Returns (negb (includesChar "."%char (referenceName reference)))
    | _ => wrongKind
    end).

Definition fieldNameDifferentFromTheMethods : Rule :=
  error (fun node =>
    let* parent := parentOf environment node in
    match members parent with
    | Some ms =>
        Returns (forallb (fun m => negb (strictEq (name m) (name node)))
                   (List.filter isMethod ms))
    | None => undefinedRead "filter"
    end).

Definition methodsHaveDistinctSignatures : Rule :=
  error (fun node =>
    match members node with
    | Some ms =>
        every (fun member =>
                 if isMethod member
                 then let* clash := matchingSignatures ms member in
                      Returns (negb clash)
                 else Returns false) ms
    | None => undefinedRead "every"
    end).

Definition constructorsHaveDistinctArity : Rule :=
  error (fun node =>
    let* parent := parentOf environment node in
    match members parent with
    | Some ms =>
        every (fun member =>
                 if isConstructor member
                 then let* parent' := parentOf environment node in
                      match members parent' with
                      | Some ms' =>
                          let* clash := matchingConstructors ms' member in
                          Returns (negb clash)
                      | None => undefinedRead "some"
                      end
                 else Returns false) ms
    | None => undefinedRead "every"
    end).

Definition methodNotOnlyCallToSuper : Rule :=
  warning (fun node =>
    match node with
    | MethodNode _ _ _ (Some body) _ _ =>
        Returns (negb ((length (sentences body) =? 1)
                       && match sentences body with
                          | s :: _ => isSuper s
                          | [] => false
                          end))
    | MethodNode _ _ _ None _ _ => undefinedRead "sentences"
    | _ => wrongKind
    end).

Definition testIsNotEmpty : Rule := warning bodyIsNotEmpty.

Definition programIsNotEmpty : Rule := warning bodyIsNotEmpty.

(** *** Problems by kind *)

(** The table of the driver; the order of the entries is the order of
    the keys of each object literal. *)
Definition problemsByKind (k : NodeKind) : list (Code * Rule) :=
  match k with
  | KParameter => [("nameIsCamelCase", nameIsCamelCase)]
  | KImport =>
      [("importHasNotLocalReference", importHasNotLocalReference)]
  | KBody => []
  | KCatch => []
  | KPackage => []
  | KProgram => [("programIsNotEmpty", programIsNotEmpty)]
  | KTest => [("testIsNotEmpty", testIsNotEmpty)]
  | KClass =>
      [("nameIsPascalCase", nameIsPascalCase);
       ("methodsHaveDistinctSignatures", methodsHaveDistinctSignatures)]
  | KSingleton =>
      [("nameIsCamelCase", nameIsCamelCase);
       ("singletonIsNotUnnamed", singletonIsNotUnnamed)]
  | KMixin => [("nameIsPascalCase", nameIsPascalCase)]
  | KConstructor =>
      [("constructorsHaveDistinctArity", constructorsHaveDistinctArity)]
  | KField =>
      [("fieldNameDifferentFromTheMethods",
        fieldNameDifferentFromTheMethods)]
  | KMethod =>
      [("onlyLastParameterIsVarArg", onlyLastParameterIsVarArg);
       ("nameIsNotKeyword", nameIsNotKeyword);
       ("methodNotOnlyCallToSuper", methodNotOnlyCallToSuper)]
  | KVariable =>
      [("nameIsCamelCase", nameIsCamelCase);
       ("nameIsNotKeyword", nameIsNotKeyword)]
  | KReturn => []
  | KAssignment =>
      [("nonAsignationOfFullyQualifiedReferences",
        nonAsignationOfFullyQualifiedReferences)]
  | KReference => [("nameIsNotKeyword", nameIsNotKeyword)]
  | KSelf => []
  | KNew => []
  | KLiteral => []
  | KSend => []
  | KSuper => []
  | KIf => []
  | KThrow => []
  | KTry => [("hasCatchOrAlways", hasCatchOrAlways)]
  | KEnvironment => []
  | KDescribe => []
  end.

(** The problems of one node: every check of its kind, in order, the
    [null] answers dropped. *)
Definition nodeProblems (node : Node) : Outcome (list Problem) :=
  let checks := problemsByKind (kind node) in
  let* results := mapM (fun check => snd check node (fst check)) checks in
  Returns (rejectNil results).

Definition validate (target : Node) : Outcome (list Problem) :=
  reduce (fun found node =>
            let* problems := nodeProblems node in
            Returns (found ++ problems)%list)
    [] target.

End Validations.

End Validator.

(* ================================================================== *)
(** ** The native bridge of [game] and [Sound] *)
(* ================================================================== *)

Module Game.

Definition Id := string.

(** *** Runtime objects and the evaluation state *)

(** Modelled from the spec: the runtime object model of [interpreter.ts]
    (which is not part of the sources). An object is referred to by its
    [Id]; the table of the evaluation holds the object itself, so that
    every holder of the reference sees a mutation. The inner value of
    a Number is a number of the host language. *)
Inductive InnerValue : Type :=
| NoValue
| NumberValue (n : Js.number)
| StringValue (s : string)
| ListValue (ids : list Id).

Record RuntimeObject : Type :=
  { id : Id;
    moduleFQN : string;
    fields : gmap string Id;
    innerValue : InnerValue }.

Record Frame : Type := { operandStack : list Id }.

(** The head of [frameStack] is the current frame; the head of an
    operand stack is its top. *)
Record Evaluation : Type :=
  { instances : gmap Id RuntimeObject;
    frameStack : list Frame }.

(** Modelled from the spec: the four well-known sentinel Ids. *)
Definition TRUE_ID : Id := "true".
Definition FALSE_ID : Id := "false".
Definition NULL_ID : Id := "null".
Definition VOID_ID : Id := "void".

(** *** Computations *)

(** A step of a native returns a value or raises; both leave a store
    behind. *)
Inductive Completion (A : Type) : Type :=
| Ok (a : A) (evaluation : Evaluation)
| Raise (e : Js.Exception) (evaluation : Evaluation).
Arguments Ok {A} a evaluation.
Arguments Raise {A} e evaluation.

Definition M (A : Type) : Type := Evaluation -> Completion A.

Definition ret {A} (a : A) : M A := fun evaluation => Ok a evaluation.

Definition throw {A} (e : Js.Exception) : M A :=
  fun evaluation => Raise e evaluation.

Definition bind {A B} (c : M A) (k : A -> M B) : M B :=
  fun evaluation =>
    match c evaluation with
    | Ok a evaluation' => k a evaluation'
    | Raise e evaluation' => Raise e evaluation'
    end.

Notation "'let*' x ':=' c 'in' k" := (bind c (fun x => k))
  (at level 10, x name, c at level 100, k at level 200).

Notation "c1 ;; c2" := (bind c1 (fun _ => c2))
  (at level 100, c2 at level 200, only parsing, right associativity).

Fixpoint filterM {A} (f : A -> M bool) (l : list A) : M (list A) :=
  match l with
  | [] => ret []
  | x :: r =>
      let* keep := f x in
      let* rest := filterM f r in
      ret (if keep then x :: rest else rest)
  end.

(** *** The interface of the interpreter *)

(** Modelled from the spec: [evaluation.instance(id)] looks the object up
    in the table of the evaluation; an unknown Id is an error. *)
Definition instance (id : Id) : M Id :=
  fun evaluation =>
    match instances evaluation !! id with
    | Some _ => Ok id evaluation
    | None => Raise (Js.RangeError "Access to undefined instance") evaluation
    end.

(** The store after [f] has been applied to the object [object]; the
    frames are untouched. *)
Definition updateObject (object : Id) (f : RuntimeObject -> RuntimeObject)
  (evaluation : Evaluation) : Evaluation :=
  {| instances := alter f object (instances evaluation);
     frameStack := frameStack evaluation |}.

Definition withField (key : string) (value : Id) (o : RuntimeObject)
  : RuntimeObject :=
  {| id := id o; moduleFQN := moduleFQN o;
     fields := <[key := value]> (fields o);
     innerValue := innerValue o |}.

Definition withInnerValue (value : InnerValue) (o : RuntimeObject)
  : RuntimeObject :=
  {| id := id o; moduleFQN := moduleFQN o; fields := fields o;
     innerValue := value |}.

Definition register (o : RuntimeObject) (evaluation : Evaluation)
  : Evaluation :=
  {| instances := <[id o := o]> (instances evaluation);
     frameStack := frameStack evaluation |}.

Definition freshId (evaluation : Evaluation) : Id :=
  fresh (dom (instances evaluation)).

(** Modelled from the spec: [createInstance(fqn, innerValue?)] allocates
    an object with a fresh Id and registers it. *)
Definition createInstance (fqn : string) (value : InnerValue) : M Id :=
  fun evaluation =>
    let id := freshId evaluation in
    Ok id
      (register {| id := id; moduleFQN := fqn; fields := ∅;
                   innerValue := value |} evaluation).

(** Modelled from the spec: [object.get(attr)] is the referent of the
    attribute, [undefined] when the attribute is absent. *)
Definition getField (evaluation : Evaluation) (object : Id) (key : string)
  : option Id :=
  match instances evaluation !! object with
  | Some o => fields o !! key
  | None => None
  end.

Definition RuntimeObject_get (object : Id) (key : string) : M (option Id) :=
  fun evaluation => Ok (getField evaluation object key) evaluation.

(** Modelled from the spec: [object.set(attr, id)]. *)
Definition RuntimeObject_set (object : Id) (key : string) (value : Id)
  : M unit :=
  fun evaluation => Ok tt (updateObject object (withField key value) evaluation).

Definition innerValueOf (evaluation : Evaluation) (object : Id)
  : InnerValue :=
  match instances evaluation !! object with
  | Some o => innerValue o
  | None => NoValue
  end.

Definition moduleFQNOf (evaluation : Evaluation) (object : Id) : string :=
  match instances evaluation !! object with
  | Some o => moduleFQN o
  | None => ""
  end.

(** [object.innerValue = value]. *)
Definition setInnerValue (object : Id) (value : InnerValue) : M unit :=
  fun evaluation =>
    Ok tt (updateObject object (withInnerValue value) evaluation).

(** Modelled from the spec: the typed assertions fail with a
    kind-mismatch TypeError when the inner value has another
    discriminant; they yield the inner value they vouch for. *)
Definition assertIsCollection (object : Id) : M (list Id) :=
  fun evaluation =>
    match innerValueOf evaluation object with
    | ListValue ids => Ok ids evaluation
    | _ => Raise (Js.TypeError "Malformed Runtime Object: expected a collection")
             evaluation
    end.

Definition assertIsNumber (object : Id) : M Js.number :=
  fun evaluation =>
    match innerValueOf evaluation object with
    | NumberValue n => Ok n evaluation
    | _ => Raise (Js.TypeError "Malformed Runtime Object: expected a number")
             evaluation
    end.

(** [object.innerValue.filter(...)]: the elements at the time of the
    call; what is not an array has no [filter]. *)
Definition elementsOf (object : Id) : M (list Id) :=
  fun evaluation =>
    match innerValueOf evaluation object with
    | ListValue ids => Ok ids evaluation
    | _ => Raise (Js.TypeError "innerValue.filter is not a function")
             evaluation
    end.

Definition withFrames (frames : list Frame) (evaluation : Evaluation)
  : Evaluation :=
  {| instances := instances evaluation; frameStack := frames |}.

(** [evaluation.currentFrame()!.pushOperand(id)]; without a frame the
    receiver is [undefined]. *)
Definition pushOperand (id : Id) : M unit :=
  fun evaluation =>
    match frameStack evaluation with
    | frame :: frames =>
        Ok tt (withFrames
                 ({| operandStack := id :: operandStack frame |} :: frames)
                 evaluation)
    | [] => Raise (Js.TypeError "Cannot read property 'pushOperand' of undefined")
              evaluation
    end.

(** [currentFrame.operandStack.pop()], [undefined] on an empty stack.
    The frame is the one that was current before the message was sent;
    the interpreter returns to it. *)
Definition popOperand : M (option Id) :=
  fun evaluation =>
    match frameStack evaluation with
    | frame :: frames =>
        match operandStack frame with
        | top :: below =>
            Ok (Some top)
              (withFrames ({| operandStack := below |} :: frames) evaluation)
        | [] => Ok None evaluation
        end
    | [] => Raise (Js.TypeError "Cannot read property 'operandStack' of undefined")
              evaluation
    end.

(** [evaluation.instance(id!)] on the result of a pop. *)
Definition instanceOfPopped (popped : option Id) : M Id :=
  match popped with
  | Some id => instance id
  | None => throw (Js.RangeError "Access to undefined instance")
  end.

(** The depth of the operand stack of the current frame. *)
Definition operandDepth (evaluation : Evaluation) : nat :=
  match frameStack evaluation with
  | frame :: _ => length (operandStack frame)
  | [] => 0
  end.

Definition optionIdEq (a b : option Id) : bool :=
  match a, b with
  | Some x, Some y => String.eqb x y
  | None, None => true
  | _, _ => false
  end.

Definition includes (l : list Id) (x : Id) : bool :=
  existsb (String.eqb x) l.

Section Natives.

(** [interpret(environment, natives).sendMessage]: the interpreter
    itself is not part of the sources. *)
Variable sendMessage : string -> Id -> list Id -> M unit.

(** [evaluation.environment.getNodeByFQN(fqn).id] *)
Variable nodeIdByFQN : string -> Id.

(** [environment.getNodeByFQN(moduleFQN).lookupMethod(message, arity)],
    as the truth value the natives test. *)
Variable moduleLookupMethod : string -> string -> nat -> bool.

Definition newList (elements : list Id) : M Id :=
  createInstance "wollok.lang.List" (ListValue elements).

Definition returnValue (id : Id) : M unit := pushOperand id.

Definition returnVoid : M unit := returnValue VOID_ID.

Definition get (self : Id) (key : string) : M unit :=
  let* value := RuntimeObject_get self key in
  returnValue (match value with Some v => v | None => NULL_ID end).

Definition set (self : Id) (key : string) (value : Id) : M unit :=
  RuntimeObject_set self key value ;;
  returnVoid.

Definition property (self : Id) (key : string) (value : option Id)
  : M unit :=
  match value with
  | Some v => set self key v
  | None => get self key
  end.

Definition redirectTo (receiver : Evaluation -> Id) (voidMessage : bool)
  (message : string) (params : list Id) : M unit :=
  (fun evaluation =>
     sendMessage message (receiver evaluation) params evaluation) ;;
  if voidMessage then returnVoid else ret tt.

Definition checkNotNull (obj : Id) (name : string) : M unit :=
  if String.eqb obj NULL_ID then throw (Js.TypeError name) else ret tt.

Definition mirror (_ : Evaluation) : Id :=
  nodeIdByFQN "wollok.gameMirror.gameMirror".

Definition io (_ : Evaluation) : Id := nodeIdByFQN "wollok.io.io".

Definition wGame : M Id := instance (nodeIdByFQN "wollok.game.game").

Definition getPosition (id : Id) : M Id :=
  let* visual := instance id in
  let* position := RuntimeObject_get visual "position" in
  match position with
  | Some p => ret p
  | None =>
      sendMessage "position" id [] ;;
      let* popped := popOperand in
      instanceOfPopped popped
  end.

Definition samePosition (position : Id) (id : Id) : M bool :=
  let* visualPosition := getPosition id in
  let* px := RuntimeObject_get position "x" in
  let* vx := RuntimeObject_get visualPosition "x" in
  let* py := RuntimeObject_get position "y" in
  let* vy := RuntimeObject_get visualPosition "y" in
  ret (optionIdEq px vx && optionIdEq py vy).

Definition addToInnerCollection (wObject element : Id)
  (fieldName : string) : M unit :=
  let* present := RuntimeObject_get wObject fieldName in
  match present with
  | Some _ => ret tt
  | None =>
      let* created := newList [] in
      RuntimeObject_set wObject fieldName created
  end ;;
  let* fieldList := RuntimeObject_get wObject fieldName in
  match fieldList with
  | None =>
      throw (Js.TypeError
               "Cannot read property 'assertIsCollection' of undefined")
  | Some fieldList =>
      let* elements := assertIsCollection fieldList in
      if includes elements element
      then fun evaluation =>
             Raise (Js.TypeError (moduleFQNOf evaluation element))
               evaluation
      else setInnerValue fieldList (ListValue (elements ++ [element]))
  end.

Definition addVisual (gameObject visual : Id) : M unit :=
  addToInnerCollection gameObject visual "visuals".

Definition addSound (gameObject sound : Id) : M unit :=
  addToInnerCollection gameObject sound "sounds".

Definition removeFromInnerCollection (wObject elementToRemove : Id)
  (fieldName : string) : M unit :=
  let* fieldList := RuntimeObject_get wObject fieldName in
  match fieldList with
  | Some currentElements =>
      let* elements := assertIsCollection currentElements in
      setInnerValue currentElements
        (ListValue
           (List.filter (fun id => negb (String.eqb id elementToRemove))
              elements))
  | None => ret tt
  end.

Definition removeVisual (gameObject visual : Id) : M unit :=
  removeFromInnerCollection gameObject visual "visuals".

Definition removeSound (gameObject sound : Id) : M unit :=
  removeFromInnerCollection gameObject sound "sounds".

Definition newWString (newString : string) : M Id :=
  createInstance "wollok.lang.String" (StringValue newString).

Definition toWBoolean (booleanToConvert : bool) : Id :=
  if booleanToConvert then TRUE_ID else FALSE_ID.

Definition lookupMethod (self : Id) (message : string) : M bool :=
  fun evaluation =>
    Ok (moduleLookupMethod (moduleFQNOf evaluation self) message 0)
      evaluation.

(** [object?.innerValue === s] *)
Definition innerValueIs (object : option Id) (s : string) : M bool :=
  fun evaluation =>
    Ok match object with
       | Some o =>
           match innerValueOf evaluation o with
           | StringValue s' => String.eqb s' s
           | _ => false
           end
       | None => false
       end
      evaluation.

(** **** The natives of [game] *)

Definition game_addVisual (self visual : Id) : M unit :=
  checkNotNull visual "visual" ;;
  let message := "position" in
  let* method := lookupMethod visual message in
  (if negb method then throw (Js.TypeError message) else ret tt) ;;
  addVisual self visual ;;
  returnVoid.

Definition game_addVisualIn (self visual position : Id) : M unit :=
  checkNotNull visual "visual" ;;
  checkNotNull position "position" ;;
  RuntimeObject_set visual "position" position ;;
  addVisual self visual ;;
  returnVoid.

Definition game_addVisualCharacter (_self visual : Id) : M unit :=
  redirectTo mirror true "addVisualCharacter" [visual].

Definition game_addVisualCharacterIn (_self visual position : Id)
  : M unit :=
  redirectTo mirror true "addVisualCharacterIn" [visual; position].

Definition game_removeVisual (self visual : Id) : M unit :=
  removeVisual self visual ;;
  returnVoid.

Definition game_whenKeyPressedDo (_self event action : Id) : M unit :=
  redirectTo io true "addEventHandler" [event; action].

Definition game_whenCollideDo (_self visual action : Id) : M unit :=
  redirectTo mirror true "whenCollideDo" [visual; action].

Definition game_onCollideDo (_self visual action : Id) : M unit :=
  redirectTo mirror true "onCollideDo" [visual; action].

Definition game_onTick (_self milliseconds name action : Id) : M unit :=
  redirectTo mirror true "onTick" [milliseconds; name; action].

Definition game_schedule (_self milliseconds action : Id) : M unit :=
  redirectTo mirror true "schedule" [milliseconds; action].

Definition game_removeTickEvent (_self event : Id) : M unit :=
  redirectTo io true "removeTimeHandler" [event].

Definition game_allVisuals (self : Id) : M unit :=
  let* visuals := RuntimeObject_get self "visuals" in
  match visuals with
  | None => let* empty := newList [] in returnValue empty
  | Some currentVisuals =>
      let* elements := assertIsCollection currentVisuals in
      let* result := newList elements in
      returnValue result
  end.

Definition game_hasVisual (self visual : Id) : M unit :=
  let* visuals := RuntimeObject_get self "visuals" in
  match visuals with
  | None => returnValue FALSE_ID
  | Some currentVisuals =>
      let* elements := assertIsCollection currentVisuals in
      returnValue (toWBoolean (includes elements visual))
  end.

Definition game_getObjectsIn (self position : Id) : M unit :=
  let* visuals := RuntimeObject_get self "visuals" in
  match visuals with
  | None => let* empty := newList [] in returnValue empty
  | Some currentVisuals =>
      let* elements := assertIsCollection currentVisuals in
      let* colocated := filterM (samePosition position) elements in
      let* result := newList colocated in
      returnValue result
  end.

Definition game_say (_self visual message : Id) : M unit :=
  (fun evaluation =>
     sendMessage "currentTime" (io evaluation) [] evaluation) ;;
  let* popped := popOperand in
  let* wCurrentTime := instanceOfPopped popped in
  let* currentTime := assertIsNumber wCurrentTime in
  let* messageTimeId :=
    createInstance "wollok.lang.Number"
      (NumberValue
         (Js.plus currentTime (Js.times (Js.numberOf 2) (Js.numberOf 1000))))
  in
  let* messageTime := instance messageTimeId in
  set visual "message" message ;;
  set visual "messageTime" messageTime.

Definition game_clear (self : Id) : M unit :=
  (fun evaluation => sendMessage "clear" (io evaluation) [] evaluation) ;;
  let* empty := newList [] in
  RuntimeObject_set self "visuals" empty ;;
  returnVoid.

Definition game_colliders (self visual : Id) : M unit :=
  checkNotNull visual "visual" ;;
  let* visuals := RuntimeObject_get self "visuals" in
  match visuals with
  | None => let* empty := newList [] in returnValue empty
  | Some currentVisuals =>
      let* _ := assertIsCollection currentVisuals in
      let* position := getPosition visual in
      let* elements := elementsOf currentVisuals in
      let* colocated := filterM (samePosition position) elements in
      let* result :=
        newList (List.filter (fun id => negb (String.eqb id visual))
                   colocated) in
      returnValue result
  end.

Definition game_title (self : Id) (title : option Id) : M unit :=
  property self "title" title.

Definition game_width (self : Id) (width : option Id) : M unit :=
  property self "width" width.

Definition game_height (self : Id) (height : option Id) : M unit :=
  property self "height" height.

Definition game_ground (self ground : Id) : M unit :=
  set self "ground" ground.

Definition game_boardGround (self boardGround : Id) : M unit :=
  set self "boardGround" boardGround.

Definition game_doCellSize (self size : Id) : M unit :=
  set self "cellSize" size.

Definition game_stop (self : Id) : M unit :=
  RuntimeObject_set self "running" FALSE_ID ;;
  returnVoid.

Definition game_hideAttributes (_self visual : Id) : M unit :=
  RuntimeObject_set visual "showAttributes" FALSE_ID ;;
  returnVoid.

Definition game_showAttributes (_self visual : Id) : M unit :=
  RuntimeObject_set visual "showAttributes" TRUE_ID ;;
  returnVoid.

Definition game_errorReporter (self visual : Id) : M unit :=
  RuntimeObject_set self "errorReporter" visual ;;
  returnVoid.

Definition game_doStart (self _isRepl : Id) : M unit :=
  RuntimeObject_set self "running" TRUE_ID ;;
  returnVoid.

(** **** The natives of [Sound] *)

Definition Sound_play (self : Id) : M unit :=
  let* theGame := wGame in
  let* running := RuntimeObject_get theGame "running" in
  (if negb (optionIdEq running (Some TRUE_ID))
   then throw (Js.Error "You cannot play a sound if game has not started")
   else ret tt) ;;
  let* status := newWString "played" in
  RuntimeObject_set self "status" status ;;
  let* theGame := wGame in
  addSound theGame self ;;
  returnVoid.

Definition Sound_played (self : Id) : M unit :=
  let* status := RuntimeObject_get self "status" in
  let* isPlayed := innerValueIs status "played" in
  returnValue (toWBoolean isPlayed).

Definition Sound_stop (self : Id) : M unit :=
  let* status := RuntimeObject_get self "status" in
  let* isPlayed := innerValueIs status "played" in
  (if negb isPlayed
   then throw (Js.Error "You cannot stop a sound that is not played")
   else ret tt) ;;
  let* status := newWString "stopped" in
  RuntimeObject_set self "status" status ;;
  let* theGame := wGame in
  removeSound theGame self ;;
  returnVoid.

Definition Sound_pause (self : Id) : M unit :=
  let* status := RuntimeObject_get self "status" in
  let* isPlayed := innerValueIs status "played" in
  (if negb isPlayed
   then throw (Js.Error "You cannot pause a sound that is not played")
   else ret tt) ;;
  let* status := newWString "paused" in
  RuntimeObject_set self "status" status ;;
  returnVoid.

Definition Sound_resume (self : Id) : M unit :=
  let* status := RuntimeObject_get self "status" in
  let* isPaused := innerValueIs status "paused" in
  (if negb isPaused
   then throw (Js.Error "You cannot resume a sound that is not paused")
   else ret tt) ;;
  let* status := newWString "played" in
  RuntimeObject_set self "status" status ;;
  returnVoid.

Definition Sound_paused (self : Id) : M unit :=
  let* status := RuntimeObject_get self "status" in
  let* isPaused := innerValueIs status "paused" in
  returnValue (toWBoolean isPaused).

Definition Sound_volume (self : Id) (newVolume : option Id) : M unit :=
  match newVolume with
  | Some volume =>
      let* value := assertIsNumber volume in
      if Js.lessThan value (Js.numberOf 0) || Js.lessThan (Js.numberOf 1) value
      then throw (Js.RangeError "newVolume")
      else ret tt
  | None => ret tt
  end ;;
  property self "volume" newVolume.

Definition Sound_shouldLoop (self : Id) (looping : option Id) : M unit :=
  property self "loop" looping.

(** **** The table of natives *)

(** A native applied to its receiver and to the arguments of the
    call; an optional argument may be left out. *)
Definition Native : Type := Id -> list Id -> option (M unit).

Definition unary (f : Id -> M unit) : Native :=
  fun self args => match args with [] => Some (f self) | _ => None end.

Definition binary (f : Id -> Id -> M unit) : Native :=
  fun self args =>
    match args with [a] => Some (f self a) | _ => None end.

Definition ternary (f : Id -> Id -> Id -> M unit) : Native :=
  fun self args =>
    match args with [a; b] => Some (f self a b) | _ => None end.

Definition quaternary (f : Id -> Id -> Id -> Id -> M unit) : Native :=
  fun self args =>
    match args with [a; b; c] => Some (f self a b c) | _ => None end.

Definition optional (f : Id -> option Id -> M unit) : Native :=
  fun self args =>
    match args with
    | [] => Some (f self None)
    | [a] => Some (f self (Some a))
    | _ => None
    end.

Definition gameNatives : list (string * Native) :=
  [("addVisual", binary game_addVisual);
   ("addVisualIn", ternary game_addVisualIn);
   ("addVisualCharacter", binary game_addVisualCharacter);
   ("addVisualCharacterIn", ternary game_addVisualCharacterIn);
   ("removeVisual", binary game_removeVisual);
   ("whenKeyPressedDo", ternary game_whenKeyPressedDo);
   ("whenCollideDo", ternary game_whenCollideDo);
   ("onCollideDo", ternary game_onCollideDo);
   ("onTick", quaternary game_onTick);
   ("schedule", ternary game_schedule);
   ("removeTickEvent", binary game_removeTickEvent);
   ("allVisuals", unary game_allVisuals);
   ("hasVisual", binary game_hasVisual);
   ("getObjectsIn", binary game_getObjectsIn);
   ("say", ternary game_say);
   ("clear", unary game_clear);
   ("colliders", binary game_colliders);
   ("title", optional game_title);
   ("width", optional game_width);
   ("height", optional game_height);
   ("ground", binary game_ground);
   ("boardGround", binary game_boardGround);
   ("doCellSize", binary game_doCellSize);
   ("stop", unary game_stop);
   ("hideAttributes", binary game_hideAttributes);
   ("showAttributes", binary game_showAttributes);
   ("errorReporter", binary game_errorReporter);
   ("doStart", binary game_doStart)].

Definition SoundNatives : list (string * Native) :=
  [("play", unary Sound_play);
   ("played", unary Sound_played);
   ("stop", unary Sound_stop);
   ("pause", unary Sound_pause);
   ("resume", unary Sound_resume);
   ("paused", unary Sound_paused);
   ("volume", optional Sound_volume);
   ("shouldLoop", optional Sound_shouldLoop)].

Definition game : list (string * list (string * Native)) :=
  [("game", gameNatives); ("Sound", SoundNatives)].

Fixpoint lookupKey {A} (key : string) (table : list (string * A))
  : option A :=
  match table with
  | [] => None
  | (k, v) :: rest => if String.eqb k key then Some v else lookupKey key rest
  end.

(** The step the interpreter runs for [module.method] on [self] and
    [args]. *)
Definition native (module method : string) (self : Id) (args : list Id)
  : option (M unit) :=
  match lookupKey module game with
  | Some methods =>
      match lookupKey method methods with
      | Some f => f self args
      | None => None
      end
  | None => None
  end.

End Natives.

End Game.

(* ================================================================== *)
(** ** Sample programs *)
(* ================================================================== *)

Module ValidatorExamples.

Import Validator.

Definition emptyBody (id : Id) : Body Node :=
  {| bodyId := id; sentences := [] |}.

Definition plainParameter (s : Name) : Param :=
  {| parameterId := "parameter " ++ s; parameterName := s;
     isVarArg := false |}.

(** [method m(<ps>) { }] *)
Definition methodM (id : Id) (ps : list Param) : Node :=
  MethodNode id "m" ps (Some (emptyBody ("body of " ++ id))) false false.

(** [package p { class C { <ms> } }] *)
Definition classC (ms : list Node) : Node :=
  ClassNode "C" "C" None [] ms.

Definition inPackage (n : Node) : Node :=
  EnvironmentNode "environment" [PackageNode "p" "p" [n]].

(** [class C { method m() { } }] *)
Definition zeroParameterClass : Node := classC [methodM "m" []].

(** [class C { constructor() { } }] *)
Definition zeroParameterConstructor : Node :=
  ConstructorNode "k" [] (emptyBody "body of k") None.

(** [class C { var f }] *)
Definition fieldOnlyClass : Node := classC [FieldNode "f" "f" None].

(** [class C { method m(a) { } method m(b) { } }] *)
Definition overloadedClass : Node :=
  classC [methodM "m1" [plainParameter "a"];
          methodM "m2" [plainParameter "b"]].

(** [class C { method m(a) { } }] *)
Definition oneParameterMethod : Node := methodM "m" [plainParameter "a"].

(** [program main { const x = object { } }] *)
Definition anonymousObject : Node := SingletonNode "o" None [].

Definition anonymousObjectProgram : Node :=
  ProgramNode "main" "main"
    {| bodyId := "body of main";
       sentences :=
         [VariableNode "x" "x"
            (Some (LiteralNode "literal" (ObjectLiteral anonymousObject)))]
    |}.

(** [test t { try { e } catch { } always { } }], with no catch clause and
    an empty always block. *)
Definition tryWithoutCatchOrAlways : Node :=
  TryNode "try"
    {| bodyId := "body of try";
       sentences := [ReferenceNode {| referenceId := "e";
                                      referenceName := "e" |}] |}
    []
    (emptyBody "always of try").

Definition tryTest : Node :=
  TestNode "t" "t"
    {| bodyId := "body of t"; sentences := [tryWithoutCatchOrAlways] |}.

(** [package p { test t { try { e } always { } }  class C { method m() { } } }] *)
Definition tryBesideZeroParameterClass : Node :=
  EnvironmentNode "environment"
    [PackageNode "p" "p" [tryTest; zeroParameterClass]].

Definition varArgParameter (s : Name) : Param :=
  {| parameterId := "parameter " ++ s; parameterName := s;
     isVarArg := true |}.

(** [method m(a, b, c) { }] and [method m(a, rest...) { }] *)
Definition threeParameterMethod : Node :=
  methodM "m3" [plainParameter "a"; plainParameter "b"; plainParameter "c"].

Definition varArgMethod : Node :=
  methodM "mv" [plainParameter "a"; varArgParameter "rest"].

(** [class C { constructor(a) { } var f method f(x) { } }] *)
Definition constructorA : Node :=
  ConstructorNode "k" [plainParameter "a"] (emptyBody "body of k") None.

Definition fieldF : Node := FieldNode "f" "f" None.

Definition methodF : Node :=
  MethodNode "mf" "f" [plainParameter "x"] (Some (emptyBody "body of mf"))
    false false.

Definition mixedClass : Node := classC [constructorA; fieldF; methodF].

(** [package p { import C  class C { } }] *)
Definition importC : Node :=
  ImportNode "i" {| referenceId := "reference of i"; referenceName := "C" |}.

Definition shadowingPackage : Node :=
  EnvironmentNode "environment"
    [PackageNode "p" "p" [importC; classC []]].

End ValidatorExamples.

(* ================================================================== *)
(** ** Vocabulary of the statements on the validator *)
(* ================================================================== *)

Module ValidatorSpec.

Import Validator.

Definition hasCatchOrAlwaysError (t : Node) : Problem :=
  {| code := "hasCatchOrAlways"; level := Error; node := t |}.

Definition undefinedIsVarArg : Js.Exception :=
  Js.TypeError "Cannot read property 'isVarArg' of undefined".

Definition methodsHaveDistinctSignaturesError (c : Node) : Problem :=
  {| code := "methodsHaveDistinctSignatures"; level := Error; node := c |}.

(** "Compatible arity" of two members that both have a last
    parameter. *)
Definition compatibleArity (member1 member2 : Node) : bool :=
  ((match last (parameters member2) with
    | Some p => isVarArg p
    | None => false
    end
    && (length (parameters member2) <=? length (parameters member1)))
   || (length (parameters member2) =? length (parameters member1)))
  && negb (sameNode member1 member2).

Definition clashes (ms : list Node) (member : Node) : bool :=
  existsb (fun m => isMethod m && strictEq (name m) (name member)
                    && compatibleArity m member) ms.

Definition countCode (c : Code) (ps : list Problem) : nat :=
  length (List.filter (fun p => String.eqb (code p) c) ps).

Definition singletonIsNotUnnamedError (s : Node) : Problem :=
  {| code := "singletonIsNotUnnamed"; level := Error; node := s |}.

Definition onlyLastParameterIsVarArgError (m : Node) : Problem :=
  {| code := "onlyLastParameterIsVarArg"; level := Error; node := m |}.

(** The level each code is declared with in [validations]. *)
Definition levelOf (c : Code) : Level :=
  if existsb (String.eqb c)
       ["nameIsPascalCase"; "nameIsCamelCase"; "methodNotOnlyCallToSuper";
        "testIsNotEmpty"; "programIsNotEmpty"]
  then Warning
  else Error.

(** Two members of [ms] clash: a method of the list can be called with
    the arguments of another one of the same name. *)
Definition methodsClash (ms : list Node) : Prop :=
  exists m1 m2,
    In m1 ms /\ In m2 ms /\ name m1 = name m2
    /\ compatibleArity m1 m2 = true.

Definition constructorsClash (ms : list Node) : Prop :=
  exists m1 m2,
    In m1 ms /\ In m2 ms /\ isConstructor m1 = true
    /\ isConstructor m2 = true /\ compatibleArity m1 m2 = true.

(** Only the last parameter is varArg. *)
Definition onlyLastIsVarArg (ps : list Param) : Prop :=
  exists front x,
    ps = (front ++ [x])%list /\ isVarArg x = true
    /\ forallb (fun y => negb (isVarArg y)) front = true.

End ValidatorSpec.

(* ================================================================== *)
(** ** Sample evaluations *)
(* ================================================================== *)

Module GameExamples.

Import Game.

Definition object (i : Id) (fqn : string) (attributes : list (string * Id))
  (value : InnerValue) : RuntimeObject :=
  {| id := i; moduleFQN := fqn; fields := list_to_map attributes;
     innerValue := value |}.

Definition store (objects : list RuntimeObject) : gmap Id RuntimeObject :=
  list_to_map (map (fun o => (id o, o)) objects).

(** Modelled from the spec: [sendMessage] drives the evaluation of one
    message to completion and leaves the result on the current operand
    stack. This interpreter answers [answer message receiver] and
    changes nothing else. *)
Definition answering (answer : string -> Id -> Id)
  : string -> Id -> list Id -> M unit :=
  fun message receiver _ => pushOperand (answer message receiver).

(** The singletons of the environment are registered under their
    fully-qualified names. *)
Definition nodeIdByFQN (fqn : string) : Id := fqn.

Definition theGame : Id := "wollok.game.game".

(** Only walkers answer [position] by a method. *)
Definition answer (message : string) (receiver : Id) : Id :=
  if String.eqb message "currentTime" then "now"
  else if String.eqb message "position" then "p3"
  else VOID_ID.

Definition sendMessage : string -> Id -> list Id -> M unit :=
  answering answer.

Definition moduleLookupMethod (fqn message : string) (arity : nat) : bool :=
  String.eqb message "position"
  && (arity =? 0)
  && (String.eqb fqn "example.Visual" || String.eqb fqn "example.Walker").


Definition sentinels : list RuntimeObject :=
  [object TRUE_ID "wollok.lang.Boolean" [] NoValue;
   object FALSE_ID "wollok.lang.Boolean" [] NoValue;
   object NULL_ID "wollok.lang.Object" [] NoValue;
   object VOID_ID "wollok.lang.Object" [] NoValue].

(** Three visuals: [v] and [w] hold a position field, on the same cell;
    the walker [u] answers its position, on another row. *)
Definition board : list RuntimeObject :=
  [object "n1" "wollok.lang.Number" [] (NumberValue (Js.numberOf 1));
   object "n2" "wollok.lang.Number" [] (NumberValue (Js.numberOf 2));
   object "n3" "wollok.lang.Number" [] (NumberValue (Js.numberOf 3));
   object "now" "wollok.lang.Number" [] (NumberValue (Js.numberOf 5));
   object "p1" "wollok.game.Position" [("x", "n1"); ("y", "n2")] NoValue;
   object "p2" "wollok.game.Position" [("x", "n1"); ("y", "n2")] NoValue;
   object "p3" "wollok.game.Position" [("x", "n1"); ("y", "n3")] NoValue;
   object "v" "example.Visual" [("position", "p1")] NoValue;
   object "w" "example.Visual" [("position", "p2")] NoValue;
   object "u" "example.Walker" [] NoValue;
   object "z" "example.Visual" [] NoValue;
   object "hello" "wollok.lang.String" [] (StringValue "hello");
   object "s" "wollok.game.Sound" [] NoValue].

Definition oneFrame : list Frame := [{| operandStack := [] |}].

(** A started game with the three visuals on the board. *)
Definition started : Evaluation :=
  {| instances :=
       store (object theGame "wollok.game.game"
                [("running", TRUE_ID); ("visuals", "visuals")] NoValue
              :: object "visuals" "wollok.lang.List" []
                   (ListValue ["v"; "w"; "u"])
              :: sentinels ++ board);
     frameStack := oneFrame |}.

(** A game whose visuals attribute holds a string. *)
Definition mistyped : Evaluation :=
  {| instances :=
       store (object theGame "wollok.game.game"
                [("running", TRUE_ID); ("visuals", "hello")] NoValue
              :: sentinels ++ board);
     frameStack := oneFrame |}.

(** A started game without visuals and without sounds. *)
Definition fresh : Evaluation :=
  {| instances :=
       store (object theGame "wollok.game.game" [("running", TRUE_ID)]
                NoValue
              :: sentinels ++ board);
     frameStack := oneFrame |}.

(** The store a completion leaves behind. *)
Definition after {A} (c : Completion A) : Evaluation :=
  match c with
  | Ok _ evaluation => evaluation
  | Raise _ evaluation => evaluation
  end.

End GameExamples.

(* ================================================================== *)
(** ** Vocabulary of the statements on the natives *)
(* ================================================================== *)

Module GameSpec.

Import Game.

(** The object behind the reference is registered. *)
Definition live (evaluation : Evaluation) (object : Id) : Prop :=
  is_Some (instances evaluation !! object).

(** The elements of the list the attribute [field] of [object] refers
    to; none when there is no such list. *)
Definition collection (evaluation : Evaluation) (object : Id)
  (field : string) : list Id :=
  match getField evaluation object field with
  | Some l =>
      match innerValueOf evaluation l with
      | ListValue ids => ids
      | _ => []
      end
  | None => []
  end.

(** The attribute is present and what it refers to is not a collection. *)
Definition notACollection (evaluation : Evaluation) (object : Id)
  (field : string) : Prop :=
  exists l, getField evaluation object field = Some l
            /\ forall ids, innerValueOf evaluation l <> ListValue ids.

(** [id] has been pushed onto the operand stack of the current frame. *)
Definition pushed (id : Id) (before after : Evaluation) : Prop :=
  exists frame frames,
    frameStack before = frame :: frames
    /\ frameStack after
       = {| operandStack := id :: operandStack frame |} :: frames.

(** Two positions are the same cell: their [x] attributes refer to the
    same object, and so do their [y] attributes. *)
Definition colocated (evaluation : Evaluation) (p q : Id) : bool :=
  optionIdEq (getField evaluation p "x") (getField evaluation q "x")
  && optionIdEq (getField evaluation p "y") (getField evaluation q "y").


(** At [evaluation], the position method of each of the visuals [asked]
    is a getter: sending [position] to one of them that has no position
    field leaves a registered object on the operand stack and changes
    nothing else. Nothing is asked of any other object. *)
Definition answersPosition (sendMessage : string -> Id -> list Id -> M unit)
  (answer : Id -> Id) (evaluation : Evaluation) (asked : list Id) : Prop :=
  forall visual,
    In visual asked ->
    live evaluation visual ->
    getField evaluation visual "position" = None ->
    sendMessage "position" visual [] evaluation
    = pushOperand (answer visual) evaluation
    /\ live evaluation (answer visual).

(** The state machine of section 4.7 of the specification. *)
Inductive SoundState : Type := Idle | Played | Paused | Stopped.

Inductive SoundEvent : Type :=
| PlayEvent | StopEvent | PauseEvent | ResumeEvent.

(** The transition table of the specification, in its words; an event
    that is not in the table fails. *)
Definition transition (state : SoundState) (event : SoundEvent)
  : option SoundState :=
  match state, event with
  | Idle, PlayEvent | Stopped, PlayEvent => Some Played
  | Played, StopEvent => Some Stopped
  | Played, PauseEvent => Some Paused
  | Paused, ResumeEvent => Some Played
  | _, _ => None
  end.

(** The state the status attribute of a sound stands for. *)
Definition soundState (evaluation : Evaluation) (sound : Id)
  : option SoundState :=
  match getField evaluation sound "status" with
  | None => Some Idle
  | Some status =>
      match innerValueOf evaluation status with
      | StringValue s =>
          if String.eqb s "played" then Some Played
          else if String.eqb s "paused" then Some Paused
          else if String.eqb s "stopped" then Some Stopped
          else None
      | _ => None
      end
  end.

(** The contract of [sendMessage] in section 4.6 of the specification:
    when the message completes, its result is on the operand stack of
    the frame that was current, one entry deeper than before. *)
Definition leavesResult (sendMessage : string -> Id -> list Id -> M unit)
  : Prop :=
  forall message receiver args evaluation evaluation',
    sendMessage message receiver args evaluation = Ok tt evaluation' ->
    operandDepth evaluation' = S (operandDepth evaluation).

(** Whenever [c] returns, the operand stack of the current frame is [d]
    entries deeper than it was. *)
Definition shifts {A} (c : M A) (d : Z) : Prop :=
  forall evaluation a evaluation',
    c evaluation = Ok a evaluation' ->
    Z.of_nat (operandDepth evaluation')
    = (Z.of_nat (operandDepth evaluation) + d)%Z.

(** The natives of [game] that push VOID_ID without popping the result
    of the message they have sent, or push it twice. *)
Definition pushesTwice (module method : string) : bool :=
  String.eqb module "game"
  && includes
       ["addVisualCharacter"; "addVisualCharacterIn"; "whenKeyPressedDo";
        "whenCollideDo"; "onCollideDo"; "onTick"; "schedule";
        "removeTickEvent"; "say"; "clear"]
       method.

Definition malformedCollection : Js.Exception :=
  Js.TypeError "Malformed Runtime Object: expected a collection".

(** The store after the list of an absent attribute has been created and
    has received its first element. *)
Definition withNewCollection (wObject element : Id) (fieldName : string)
  (evaluation : Evaluation) : Evaluation :=
  let l := freshId evaluation in
  updateObject l (withInnerValue (ListValue [element]))
    (updateObject wObject (withField fieldName l)
       (register {| id := l; moduleFQN := "wollok.lang.List"; fields := ∅;
                    innerValue := ListValue [] |} evaluation)).

(** The store after a native has written a new status to the sound: a
    new string is registered and the status attribute refers to it. *)
Definition withStatus (sound : Id) (status : string)
  (evaluation : Evaluation) : Evaluation :=
  updateObject sound (withField "status" (freshId evaluation))
    (register {| id := freshId evaluation; moduleFQN := "wollok.lang.String";
                 fields := ∅; innerValue := StringValue status |}
       evaluation).

(** The four reasons for which [addVisual] turns a visual down. *)
Definition rejected (moduleLookupMethod : string -> string -> nat -> bool)
  (evaluation : Evaluation) (self visual : Id) : Prop :=
  visual = NULL_ID
  \/ moduleLookupMethod (moduleFQNOf evaluation visual) "position" 0 = false
  \/ notACollection evaluation self "visuals"
  \/ In visual (collection evaluation self "visuals").

(** The native an event of the state machine stands for. *)
Definition fire (nodeIdByFQN : string -> Id) (event : SoundEvent)
  (sound : Id) : M unit :=
  match event with
  | PlayEvent => Sound_play nodeIdByFQN sound
  | StopEvent => Sound_stop nodeIdByFQN sound
  | PauseEvent => Sound_pause sound
  | ResumeEvent => Sound_resume sound
  end.

(** [a <= b] on numbers. *)
Definition lessOrEqual : Js.number -> Js.number -> bool := SpecFloat.SFleb.

(** The error of [play] in a game that is not running. *)
Definition notStarted : Js.Exception :=
  Js.Error "You cannot play a sound if game has not started".

End GameSpec.

(* ================================================================== *)
(** ** Properties of the validator *)
(* ================================================================== *)

Module ValidatorFacts.

Import Validator ValidatorSpec.

Lemma preorder_children (n : Node) :
  preorder n = n :: flat_map preorder (children n).
Proof.
  assert (Hleaf : forall (A : Type) (f : A -> Node) (l : list A),
             (forall a, preorder (f a) = [f a]) ->
             flat_map preorder (map f l) = map f l).
  { intros A f l Hf. induction l as [|a l IH]; simpl; [done|].
    rewrite Hf. simpl. by rewrite IH. }
  assert (Hp : forall l, flat_map preorder (map ParameterNode l)
                         = map ParameterNode l) by (intros; by apply Hleaf).
  assert (Hr : forall l, flat_map preorder (map ReferenceNode l)
                         = map ReferenceNode l) by (intros; by apply Hleaf).
  destruct n; simpl; try reflexivity;
    rewrite ?flat_map_app, ?Hp, ?Hr, ?app_nil_r; simpl;
    rewrite ?app_nil_r; try reflexivity.
  - destruct value; simpl; by rewrite ?app_nil_r.
  - destruct body; simpl; by rewrite ?app_nil_r.
  - destruct baseCall; simpl; by rewrite ?app_nil_r.
  - destruct value; simpl; by rewrite ?app_nil_r.
  - destruct value; simpl; by rewrite ?app_nil_r.
  - destruct value; simpl; by rewrite ?app_nil_r.
  - f_equal. f_equal. f_equal. f_equal.
    induction catches as [|c cs IH]; simpl; [done|].
    rewrite IH. by rewrite <- !app_assoc, <- ?app_comm_cons.
Qed.

(** *** The driver, as a list of per-node results *)

Lemma foldM_collect {A B} (f : A -> Outcome (list B)) (l : list A)
  (acc : list B) :
  foldM (fun found x => let* ps := f x in Returns (found ++ ps)%list) acc l
  = let* pss := mapM f l in Returns (acc ++ concat pss)%list.
Proof.
  revert acc. induction l as [|x r IH]; intros acc; simpl.
  - by rewrite app_nil_r.
  - destruct (f x) as [ps|e]; simpl; [|reflexivity].
    rewrite IH. destruct (mapM f r) as [pss|e]; simpl; [|reflexivity].
    by rewrite app_assoc.
Qed.

Lemma mapM_Returns_In {A B} (f : A -> Outcome B) l ys x :
  mapM f l = Returns ys -> In x l -> exists y, f x = Returns y /\ In y ys.
Proof.
  revert ys. induction l as [|a r IH]; intros ys Hm Hin; [destruct Hin|].
  simpl in Hm. destruct (f a) as [b|e] eqn:Ha; simpl in Hm; [|discriminate].
  destruct (mapM f r) as [bs|e] eqn:Hr; simpl in Hm; [|discriminate].
  injection Hm as <-. destruct Hin as [->|Hin].
  - exists b. split; [assumption | by left].
  - destruct (IH bs eq_refl Hin) as (y & Hy & Hiny).
    exists y. split; [assumption | by right].
Qed.

Lemma mapM_Returns_In_inv {A B} (f : A -> Outcome B) l ys y :
  mapM f l = Returns ys -> In y ys -> exists x, In x l /\ f x = Returns y.
Proof.
  revert ys. induction l as [|a r IH]; intros ys Hm Hin; simpl in Hm.
  - injection Hm as <-. destruct Hin.
  - destruct (f a) as [b|e] eqn:Ha; simpl in Hm; [|discriminate].
    destruct (mapM f r) as [bs|e] eqn:Hr; simpl in Hm; [|discriminate].
    injection Hm as <-. destruct Hin as [->|Hin].
    + exists a. split; [by left | assumption].
    + destruct (IH bs eq_refl Hin) as (x & Hx & Hfx).
      exists x. split; [by right | assumption].
Qed.

Lemma rejectNil_In {A} (l : list (option A)) (x : A) :
  In x (rejectNil l) <-> In (Some x) l.
Proof.
  induction l as [|[a|] r IH]; simpl; [tauto| |].
  - rewrite IH. split; (intros [H|H]; [left; congruence | by right]).
  - rewrite IH. split; [by right | intros [H|H]; [discriminate | done]].
Qed.

(** [validate] is the concatenation of the problems of the visited
    nodes, in pre-order, as soon as every one of them returns. *)
Lemma validate_mapM (environment target : Node) :
  validate environment target
  = let* pss := mapM (nodeProblems environment) (preorder target) in
    Returns (concat pss).
Proof. unfold validate, reduce. by rewrite foldM_collect. Qed.

Lemma validate_In (environment target : Node) ps p :
  validate environment target = Returns ps ->
  (In p ps <->
   exists n pn, In n (preorder target)
                /\ nodeProblems environment n = Returns pn /\ In p pn).
Proof.
  rewrite validate_mapM.
  destruct (mapM _ _) as [pss|e] eqn:Hm; simpl; [|discriminate].
  intros [= <-]. rewrite in_concat. split.
  - intros (pn & Hpn & Hp).
    destruct (mapM_Returns_In_inv _ _ _ _ Hm Hpn) as (n & Hn & Hfn).
    by exists n, pn.
  - intros (n & pn & Hn & Hfn & Hp).
    destruct (mapM_Returns_In _ _ _ _ Hm Hn) as (pn' & Hfn' & Hin).
    rewrite Hfn in Hfn'. injection Hfn' as <-. by exists pn.
Qed.

(** A visited node whose checks raise makes the whole validation
    raise. *)
Lemma validate_Throws (environment target n : Node) e :
  In n (preorder target) ->
  nodeProblems environment n = Throws e ->
  exists e', validate environment target = Throws e'.
Proof.
  intros Hn He. rewrite validate_mapM.
  destruct (mapM _ _) as [pss|e'] eqn:Hm; simpl; [|by exists e'].
  destruct (mapM_Returns_In _ _ _ _ Hm Hn) as (pn & Hpn & _). congruence.
Qed.

Lemma problem_Some level condition n c p :
  problem level condition n c = Returns (Some p) ->
  p = {| code := c; level := level; node := n |}
  /\ condition n = Returns false.
Proof.
  unfold problem. destruct (condition n) as [[|]|e]; simpl; [discriminate| |discriminate].
  intros [= <-]. by split.
Qed.

Lemma problemsByKind_problem environment k c r :
  In (c, r) (problemsByKind environment k) ->
  exists level condition, r = problem level condition.
Proof.
  destruct k; simpl; intros H;
    repeat (destruct H as [H|H]; [injection H as <- <-; eexists _, _; reflexivity|]);
    destruct H.
Qed.

(** Every problem of a node names that node, under the code of one of
    the checks of its kind. *)
Lemma nodeProblems_In environment n ps p :
  nodeProblems environment n = Returns ps -> In p ps ->
  node p = n
  /\ exists r, In (code p, r) (problemsByKind environment (kind n))
               /\ r n (code p) = Returns (Some p).
Proof.
  unfold nodeProblems.
  destruct (mapM _ _) as [results|e] eqn:Hm; simpl; [|discriminate].
  intros [= <-] Hp. apply rejectNil_In in Hp.
  destruct (mapM_Returns_In_inv _ _ _ _ Hm Hp) as ([c r] & Hin & Hr).
  simpl in Hr.
  destruct (problemsByKind_problem _ _ _ _ Hin) as (lvl & cond & ->).
  destruct (problem_Some _ _ _ _ _ Hr) as [-> _]. simpl.
  split; [reflexivity|]. by exists (problem lvl cond).
Qed.

(** *** [hasCatchOrAlways] *)

Lemma length_eqb_0 {A} (l : list A) : (length l =? 0) = true <-> l = [].
Proof. destruct l; simpl; split; congruence. Qed.

Lemma nodeProblems_Try environment id body catches always :
  nodeProblems environment (TryNode id body catches always)
  = Returns
      (if negb (length catches =? 0)
          || (negb (length (sentences always) =? 0)
              && negb (length (sentences body) =? 0))
       then []
       else [hasCatchOrAlwaysError (TryNode id body catches always)]).
Proof.
  unfold nodeProblems. simpl. unfold hasCatchOrAlways, error, problem. simpl.
  by destruct (_ || _).
Qed.

(** The rule of a Try node taken alone: the checks of the node return,
    and they hold a hasCatchOrAlways error on it exactly when the try has
    no catch clause and it is not the case that both its always block and
    its body are non-empty; the same holds of the list [validate] returns,
    whenever it returns one, for a target whose traversal visits the
    node. *)
Lemma hasCatchOrAlways_iff (environment target : Node) (id : Id)
  (body : Body Node) (catches : list (Catch Node)) (always : Body Node)
  (ps : list Problem) :
  let t := TryNode id body catches always in
  let violates :=
    catches = [] /\ ~ (sentences always <> [] /\ sentences body <> []) in
  (exists pn, nodeProblems environment t = Returns pn
              /\ (In (hasCatchOrAlwaysError t) pn <-> violates))
  /\ (In t (preorder target) ->
      validate environment target = Returns ps ->
      (In (hasCatchOrAlwaysError t) ps <-> violates))
  /\ (catches = [] -> sentences always = [] ->
      nodeProblems environment t = Returns [hasCatchOrAlwaysError t]).
Proof.
  intros t violates.
  assert (Hnode : exists pn, nodeProblems environment t = Returns pn
              /\ (In (hasCatchOrAlwaysError t) pn <-> violates)).
  { eexists. split; [apply nodeProblems_Try|].
    unfold violates.
    destruct catches as [|c cs]; simpl.
    - destruct (sentences always) as [|a l]; simpl.
      + split; [intros _; split; [done | intros [H _]; by apply H] | by left].
      + destruct (sentences body) as [|b l']; simpl.
        * split; [intros _; split; [done | intros [_ H]; by apply H] | by left].
        * split; [intros [] | intros [_ H]; exfalso; apply H; by split].
    - split; [intros [] | intros [H _]; discriminate]. }
  split; [exact Hnode|]. split.
  - intros Ht Hv. rewrite (validate_In _ _ _ _ Hv).
    destruct Hnode as (pn & Hpn & Hiff). rewrite <- Hiff. split.
    + intros (n & pn' & Hn & Hpn' & Hin).
      destruct (nodeProblems_In _ _ _ _ Hpn' Hin) as [Hnode _].
      simpl in Hnode. subst n. congruence.
    + intros Hin. by exists t, pn.
  - intros Hc Ha. subst t. rewrite nodeProblems_Try, Hc, Ha. reflexivity.
Qed.

(** The sample test holds the try of scenario 6; its validation returns
    the error, after nothing else. *)
Lemma hasCatchOrAlways_on_the_sample_test :
  let t := ValidatorExamples.tryWithoutCatchOrAlways in
  let e := ValidatorExamples.inPackage ValidatorExamples.tryTest in
  In t (preorder e)
  /\ validate e e = Returns [hasCatchOrAlwaysError t]
  /\ (In (hasCatchOrAlwaysError t) [hasCatchOrAlwaysError t] <->
      @nil (Catch Node) = []
      /\ ~ (sentences (ValidatorExamples.emptyBody "always of try") <> []
            /\ sentences
                 {| bodyId := "body of try";
                    sentences := [ReferenceNode {| referenceId := "e";
                                                   referenceName := "e" |}] |}
               <> [])).
Proof.
  intros t e.
  assert (Hin : In t (preorder e)) by (vm_compute; tauto).
  assert (Hv : validate e e = Returns [hasCatchOrAlwaysError t])
    by (vm_compute; reflexivity).
  split; [exact Hin|]. split; [exact Hv|].
  exact (proj1 (proj2 (hasCatchOrAlways_iff e e "try" _ [] _ _)) Hin Hv).
Defined.

(** C7. [validate] does not yield the hasCatchOrAlways error on every
    try that has no catch clause and an empty always block: on a package
    that holds such a try in a test, beside a class with a method without
    parameters, the traversal visits the try, the checks of the try
    return the error, and so does the validation of the test alone, but
    the validation of the package raises and yields no problem at all. *)
Theorem validate_raises_beside_a_try :
  let t := ValidatorExamples.tryWithoutCatchOrAlways in
  let e := ValidatorExamples.tryBesideZeroParameterClass in
  In t (preorder e)
  /\ nodeProblems e t = Returns [hasCatchOrAlwaysError t]
  /\ validate e ValidatorExamples.tryTest = Returns [hasCatchOrAlwaysError t]
  /\ validate e e = Throws undefinedIsVarArg.
Proof.
  intros t e.
  split; [vm_compute; tauto|].
  split; [vm_compute; reflexivity|].
  split; vm_compute; reflexivity.
Qed.

(** *** Members without parameters *)

Lemma strictEq_refl (a : option Name) : strictEq a a = true.
Proof. destruct a; simpl; [apply String.eqb_refl | reflexivity]. Qed.

(** The checks of a class raise as soon as its first member is a method
    without parameters: the method is compared with itself first. *)
Lemma nodeProblems_zero_parameter_method environment id n sup mixins
  mid mname body o native rest :
  nodeProblems environment
    (ClassNode id n sup mixins (MethodNode mid mname [] body o native :: rest))
  = Throws undefinedIsVarArg.
Proof.
  unfold nodeProblems. cbn [kind problemsByKind mapM fst snd].
  unfold nameIsPascalCase, methodsHaveDistinctSignatures, warning, error,
    problem, matchingSignatures.
  cbn. rewrite String.eqb_refl. cbn.
  by destruct (testFirst isUpperAZ n).
Qed.

Lemma zero_parameter_method_raises environment target id n sup mixins
  mid mname body o native rest :
  In (ClassNode id n sup mixins
        (MethodNode mid mname [] body o native :: rest))
     (preorder target) ->
  exists e, validate environment target = Throws e.
Proof.
  intros Hin. eapply validate_Throws; [exact Hin|].
  apply nodeProblems_zero_parameter_method.
Qed.

(** The checks of a method without a body raise as well: the rule
    methodNotOnlyCallToSuper reads the sentences of the missing body. *)
Lemma nodeProblems_method_without_body environment id n ps o native :
  nodeProblems environment (MethodNode id n ps None o native)
  = Throws (Js.TypeError "Cannot read property 'sentences' of undefined").
Proof.
  unfold nodeProblems. cbn [kind problemsByKind mapM fst snd].
  unfold onlyLastParameterIsVarArg, nameIsNotKeyword,
    methodNotOnlyCallToSuper, warning, error, problem.
  cbn [bind name parameters].
  destruct (negb (_ =? _)%Z); cbn [bind];
    destruct (negb (negb _)); reflexivity.
Qed.

(** C2. Validation raises instead of returning problems: the class
    [class C { method m() { } }] and the class
    [class C { constructor() { } }] both make [validate] leave with the
    TypeError of reading [isVarArg] on the missing last parameter. *)
Theorem validate_raises_on_zero_parameters :
  let e1 := ValidatorExamples.inPackage ValidatorExamples.zeroParameterClass in
  let e2 := ValidatorExamples.inPackage
              (ValidatorExamples.classC
                 [ValidatorExamples.zeroParameterConstructor]) in
  validate e1 e1 = Throws undefinedIsVarArg
  /\ validate e2 e2 = Throws undefinedIsVarArg.
Proof. split; vm_compute; reflexivity. Qed.

(** *** [methodsHaveDistinctSignatures] *)

Lemma every_pure {A} (f : A -> Outcome bool) (g : A -> bool) l :
  (forall x, In x l -> f x = Returns (g x)) ->
  every f l = Returns (forallb g l).
Proof.
  induction l as [|x r IH]; intros Hf; simpl; [reflexivity|].
  rewrite (Hf x) by (by left). simpl.
  destruct (g x); simpl; [|reflexivity].
  apply IH. intros y Hy. apply Hf. by right.
Qed.

Lemma some_pure {A} (f : A -> Outcome bool) (g : A -> bool) l :
  (forall x, In x l -> f x = Returns (g x)) ->
  some f l = Returns (existsb g l).
Proof.
  induction l as [|x r IH]; intros Hf; simpl; [reflexivity|].
  rewrite (Hf x) by (by left). simpl.
  destruct (g x); simpl; [reflexivity|].
  apply IH. intros y Hy. apply Hf. by right.
Qed.

Lemma canBeCalledWithArgs_pure member1 member2 :
  parameters member2 <> [] ->
  canBeCalledWithArgs member1 member2
  = Returns (compatibleArity member1 member2).
Proof.
  intros Hne. unfold canBeCalledWithArgs, compatibleArity.
  destruct (last (parameters member2)) as [p|] eqn:Hl; [reflexivity|].
  apply last_None in Hl. contradiction.
Qed.

(** What the rule computes on a class whose methods all have a
    parameter: it passes exactly when every member is a method and no
    method clashes with another. *)
Lemma methodsHaveDistinctSignatures_spec id n sup mixins ms c :
  (forall m, In m ms -> isMethod m = true -> parameters m <> []) ->
  methodsHaveDistinctSignatures
    (ClassNode id n sup mixins ms) c
  = Returns
      (if forallb (fun member => isMethod member && negb (clashes ms member))
            ms
       then None
       else Some {| code := c; level := Error;
                    node := ClassNode id n sup mixins ms |}).
Proof.
  intros Hps. unfold methodsHaveDistinctSignatures, error, problem. simpl.
  rewrite (every_pure _
             (fun member => isMethod member && negb (clashes ms member))).
  - simpl. by destruct (forallb _ _).
  - intros member Hmember. destruct (isMethod member) eqn:Hk; [|reflexivity].
    unfold matchingSignatures, clashes.
    rewrite (some_pure _
               (fun m => isMethod m && strictEq (name m) (name member)
                         && compatibleArity m member)); [reflexivity|].
    intros m _. destruct (isMethod m && strictEq _ _); [|reflexivity].
    apply canBeCalledWithArgs_pure. by apply Hps.
Qed.

(** A member that is not a method makes the rule fail, whatever the
    methods are. *)
Lemma methodsHaveDistinctSignatures_other_member id n sup mixins ms c
  other :
  (forall m, In m ms -> isMethod m = true -> parameters m <> []) ->
  In other ms -> isMethod other = false ->
  methodsHaveDistinctSignatures (ClassNode id n sup mixins ms) c
  = Returns (Some {| code := c; level := Error;
                     node := ClassNode id n sup mixins ms |}).
Proof.
  intros Hps Hin Hk.
  rewrite methodsHaveDistinctSignatures_spec by assumption.
  destruct (forallb _ ms) eqn:Hall; [|reflexivity].
  rewrite forallb_forall in Hall. specialize (Hall other Hin).
  rewrite Hk in Hall. discriminate.
Qed.

(** C3. The class [class C { var f }] has no method at all, and its
    validation returns a methodsHaveDistinctSignatures error on it; the
    class with exactly [m(a)] and [m(b)] yields exactly one such
    error. *)
Theorem methodsHaveDistinctSignatures_on_field_only_class :
  let c := ValidatorExamples.fieldOnlyClass in
  let e := ValidatorExamples.inPackage c in
  let e' := ValidatorExamples.inPackage ValidatorExamples.overloadedClass in
  validate e e = Returns [methodsHaveDistinctSignaturesError c]
  /\ exists ps, validate e' e' = Returns ps
                /\ countCode "methodsHaveDistinctSignatures" ps = 1
                /\ In (methodsHaveDistinctSignaturesError
                         ValidatorExamples.overloadedClass) ps.
Proof.
  split; [vm_compute; reflexivity|].
  eexists. split; [vm_compute; reflexivity|].
  split; [vm_compute; reflexivity | by left].
Qed.

(** *** [singletonIsNotUnnamed] *)

(** What the rule computes: it passes exactly when the parent is a
    package and the singleton has a name. *)
Lemma singletonIsNotUnnamed_spec environment s parent c :
  parentOf environment s = Returns parent ->
  singletonIsNotUnnamed environment s c
  = Returns
      (if isPackage parent
          && match name s with Some _ => true | None => false end
       then None
       else Some {| code := c; level := Error; node := s |}).
Proof.
  intros Hp. unfold singletonIsNotUnnamed, error, problem.
  rewrite Hp. simpl. by destruct (_ && _).
Qed.

(** A singleton below anything but a package is reported, named or
    not. *)
Lemma singletonIsNotUnnamed_outside_package environment s parent c :
  parentOf environment s = Returns parent ->
  isPackage parent = false ->
  singletonIsNotUnnamed environment s c
  = Returns (Some {| code := c; level := Error; node := s |}).
Proof.
  intros Hp Hk.
  rewrite (singletonIsNotUnnamed_spec _ _ _ _ Hp), Hk. reflexivity.
Qed.

(** C4. The anonymous object of [program main { const x = object { } }]
    has a literal as its parent, not a package, and the validation of
    the program returns a singletonIsNotUnnamed error on it. *)
Theorem singletonIsNotUnnamed_on_anonymous_object :
  let s := ValidatorExamples.anonymousObject in
  let e := ValidatorExamples.inPackage
             ValidatorExamples.anonymousObjectProgram in
  (exists parent, parentOf e s = Returns parent /\ kind parent = KLiteral)
  /\ exists ps, validate e e = Returns ps
                /\ In (singletonIsNotUnnamedError s) ps.
Proof.
  split.
  - eexists. split; [vm_compute; reflexivity | reflexivity].
  - eexists. split; [vm_compute; reflexivity|]. right. by left.
Qed.

(** *** [onlyLastParameterIsVarArg] *)

Lemma findIndexFrom_last {A} (p : A -> bool) (l : list A) (i : Z) :
  (0 <= i)%Z ->
  (findIndexFrom p l i + 1 = i + Z.of_nat (length l))%Z <->
  (l = [] /\ i = 0%Z)
  \/ exists front x, l = (front ++ [x])%list /\ p x = true
                     /\ forallb (fun y => negb (p y)) front = true.
Proof.
  revert i. induction l as [|a r IH]; intros i Hi; simpl.
  - split.
    + intros H. left. split; [reflexivity | lia].
    + intros [[_ ->]|(front & x & H & _)]; [lia|].
      by destruct front.
  - destruct (p a) eqn:Hpa.
    + split.
      * intros H. right. exists [], a.
        assert (r = []) as -> by (destruct r; [done | simpl in H; lia]).
        by repeat split.
      * intros [[H _]|(front & x & H & Hx & Hfront)]; [discriminate|].
        destruct front as [|b front]; simpl in H.
        -- injection H as _ ->. simpl. lia.
        -- injection H as <- _. simpl in Hfront. rewrite Hpa in Hfront.
           discriminate.
    + rewrite Nat2Z.inj_succ.
      assert (Hi' : (0 <= i + 1)%Z) by lia.
      specialize (IH (i + 1)%Z Hi'). split.
      * intros H. right.
        destruct (proj1 IH ltac:(lia)) as [[_ H0]|(front & x & -> & Hx & Hf)];
          [lia|].
        exists (a :: front), x. repeat split; [assumption|].
        simpl. by rewrite Hpa.
      * intros [[H _]|(front & x & H & Hx & Hfront)]; [discriminate|].
        destruct front as [|b front]; simpl in H.
        -- injection H as -> _. congruence.
        -- injection H as <- ->. simpl in Hfront.
           apply andb_true_iff in Hfront as [_ Hfront].
           assert (findIndexFrom p (front ++ [x]) (i + 1) + 1
                   = i + 1 + Z.of_nat (length (front ++ [x])))%Z; [|lia].
           apply IH. right. by exists front, x.
Qed.

(** What the rule computes: it passes exactly on the empty parameter
    list and on a list whose only varArg parameter is the last one. A
    non-empty list without a varArg parameter is reported. *)
Lemma onlyLastParameterIsVarArg_spec (m : Node) c pb :
  onlyLastParameterIsVarArg m c = Returns pb ->
  (pb = None <->
   parameters m = []
   \/ exists front x, parameters m = (front ++ [x])%list
                      /\ isVarArg x = true
                      /\ forallb (fun y => negb (isVarArg y)) front = true)
  /\ (pb <> None -> pb = Some {| code := c; level := Error; node := m |}).
Proof.
  unfold onlyLastParameterIsVarArg, error, problem. simpl.
  pose proof (findIndexFrom_last isVarArg (parameters m) 0 ltac:(lia)) as H.
  unfold findIndex.
  destruct (Z.eqb_spec (findIndexFrom isVarArg (parameters m) 0 + 1)
              (Z.of_nat (length (parameters m)))) as [Heq|Hne]; simpl;
    intros [= <-].
  - split; [|congruence]. split; [intros _|reflexivity].
    destruct (proj1 H ltac:(lia)) as [[-> _]|Hex]; [by left | by right].
  - split; [|reflexivity]. split; [discriminate|].
    intros Hok. exfalso. apply Hne. rewrite (proj2 H); [lia|].
    destruct Hok as [->|Hex]; [by left | by right].
Qed.

(** C6. The method [m(a)] has no varArg parameter, and the validation
    of its class returns an onlyLastParameterIsVarArg error on it. *)
Theorem onlyLastParameterIsVarArg_without_varArg :
  let m := ValidatorExamples.oneParameterMethod in
  let e := ValidatorExamples.inPackage (ValidatorExamples.classC [m]) in
  forallb (fun p => negb (isVarArg p)) (parameters m) = true
  /\ validate e e = Returns [onlyLastParameterIsVarArgError m].
Proof. split; vm_compute; reflexivity. Qed.

End ValidatorFacts.

(* ================================================================== *)
(** ** Properties of the native bridge *)
(* ================================================================== *)

Module GameFacts.

Import Game GameSpec.

(** *** The store *)

Lemma live_updateObject evaluation o f o' :
  live (updateObject o f evaluation) o' <-> live evaluation o'.
Proof.
  unfold live, updateObject. simpl. rewrite lookup_alter.
  case_decide; [subst|done]. by rewrite fmap_is_Some.
Qed.

Lemma getField_withField_eq evaluation o k v :
  live evaluation o ->
  getField (updateObject o (withField k v) evaluation) o k = Some v.
Proof.
  intros [obj Hobj]. unfold getField, updateObject. simpl.
  rewrite lookup_alter_eq, Hobj. simpl. apply lookup_insert_eq.
Qed.

Lemma getField_withField_ne evaluation o k v o' k' :
  o <> o' \/ k <> k' ->
  getField (updateObject o (withField k v) evaluation) o' k'
  = getField evaluation o' k'.
Proof.
  intros Hne. unfold getField, updateObject. simpl. rewrite lookup_alter.
  case_decide as Ho; [subst o'|done].
  destruct (instances evaluation !! o) as [obj|]; simpl; [|done].
  apply lookup_insert_ne. destruct Hne; congruence.
Qed.

Lemma innerValueOf_withField evaluation o k v o' :
  innerValueOf (updateObject o (withField k v) evaluation) o'
  = innerValueOf evaluation o'.
Proof.
  unfold innerValueOf, updateObject. simpl. rewrite lookup_alter.
  case_decide as Ho; [subst o'|done].
  by destruct (instances evaluation !! o).
Qed.

Lemma moduleFQNOf_withField evaluation o k v o' :
  moduleFQNOf (updateObject o (withField k v) evaluation) o'
  = moduleFQNOf evaluation o'.
Proof.
  unfold moduleFQNOf, updateObject. simpl. rewrite lookup_alter.
  case_decide as Ho; [subst o'|done].
  by destruct (instances evaluation !! o).
Qed.

Lemma getField_withInnerValue evaluation o v o' k :
  getField (updateObject o (withInnerValue v) evaluation) o' k
  = getField evaluation o' k.
Proof.
  unfold getField, updateObject. simpl. rewrite lookup_alter.
  case_decide as Ho; [subst o'|done].
  by destruct (instances evaluation !! o).
Qed.

Lemma innerValueOf_withInnerValue_eq evaluation o v :
  live evaluation o ->
  innerValueOf (updateObject o (withInnerValue v) evaluation) o = v.
Proof.
  intros [obj Hobj]. unfold innerValueOf, updateObject. simpl.
  by rewrite lookup_alter_eq, Hobj.
Qed.

Lemma innerValueOf_withInnerValue_ne evaluation o v o' :
  o <> o' ->
  innerValueOf (updateObject o (withInnerValue v) evaluation) o'
  = innerValueOf evaluation o'.
Proof.
  intros Hne. unfold innerValueOf, updateObject. simpl.
  by rewrite lookup_alter_ne.
Qed.

Lemma freshId_not_live evaluation :
  instances evaluation !! freshId evaluation = None.
Proof. apply not_elem_of_dom. unfold freshId. apply is_fresh. Qed.

Lemma live_register evaluation obj o :
  live evaluation o -> live (register obj evaluation) o.
Proof.
  intros [x Hx]. unfold live, register. simpl.
  rewrite lookup_insert. case_decide; eauto.
Qed.

Lemma live_register_self evaluation obj :
  live (register obj evaluation) (id obj).
Proof. unfold live, register. simpl. rewrite lookup_insert_eq. eauto. Qed.

Lemma getField_register_ne evaluation obj o k :
  id obj <> o ->
  getField (register obj evaluation) o k = getField evaluation o k.
Proof.
  intros Hne. unfold getField, register. simpl. by rewrite lookup_insert_ne.
Qed.

Lemma innerValueOf_register_ne evaluation obj o :
  id obj <> o ->
  innerValueOf (register obj evaluation) o = innerValueOf evaluation o.
Proof.
  intros Hne. unfold innerValueOf, register. simpl.
  by rewrite lookup_insert_ne.
Qed.

Lemma innerValueOf_register_eq evaluation obj :
  innerValueOf (register obj evaluation) (id obj) = innerValue obj.
Proof. unfold innerValueOf, register. simpl. by rewrite lookup_insert_eq. Qed.

Lemma live_not_fresh evaluation o :
  live evaluation o -> freshId evaluation <> o.
Proof.
  intros [x Hx] <-. rewrite freshId_not_live in Hx. discriminate.
Qed.

Lemma includes_In (l : list Id) (x : Id) : includes l x = true <-> In x l.
Proof.
  unfold includes. rewrite existsb_exists. split.
  - intros (y & Hy & Heq). apply String.eqb_eq in Heq. by subst.
  - intros Hin. exists x. split; [done | apply String.eqb_refl].
Qed.

(** *** [addVisualIn] *)

(** C10. When [addVisualIn] meets a visual whose Id is already in
    [self.visuals], it raises the TypeError of the duplicate check after
    the position has been written: in the store the exception leaves
    behind, the position attribute of the visual is the new position,
    while the visuals attribute, the elements of its list and the operand
    stacks are as before. *)
Theorem addVisualIn_not_atomic (evaluation : Evaluation)
  (self visual position visuals : Id) (elements : list Id) :
  visual <> NULL_ID ->
  position <> NULL_ID ->
  live evaluation visual ->
  getField evaluation self "visuals" = Some visuals ->
  innerValueOf evaluation visuals = ListValue elements ->
  In visual elements ->
  exists evaluation',
    game_addVisualIn self visual position evaluation
    = Raise (Js.TypeError (moduleFQNOf evaluation visual)) evaluation'
    /\ getField evaluation' visual "position" = Some position
    /\ getField evaluation' self "visuals" = Some visuals
    /\ innerValueOf evaluation' visuals = ListValue elements
    /\ frameStack evaluation' = frameStack evaluation.
Proof.
  intros Hv Hp Hlive Hvisuals Helements Hin.
  exists (updateObject visual (withField "position" position) evaluation).
  assert (Hget : getField
                   (updateObject visual (withField "position" position)
                      evaluation) self "visuals" = Some visuals).
  { rewrite getField_withField_ne; [done | by right]. }
  split; [|repeat split].
  - unfold game_addVisualIn, checkNotNull, bind.
    apply String.eqb_neq in Hv, Hp. rewrite Hv, Hp. simpl.
    unfold addVisual, addToInnerCollection, bind, RuntimeObject_get.
    rewrite Hget. simpl. rewrite Hget.
    unfold assertIsCollection. rewrite innerValueOf_withField, Helements.
    apply includes_In in Hin. rewrite Hin.
    by rewrite moduleFQNOf_withField.
  - by apply getField_withField_eq.
  - exact Hget.
  - by rewrite innerValueOf_withField.
Qed.

Lemma addVisualIn_not_atomic_witness :
  exists evaluation',
    game_addVisualIn GameExamples.theGame "v" "p3" GameExamples.started
    = Raise (Js.TypeError (moduleFQNOf GameExamples.started "v")) evaluation'
    /\ getField evaluation' "v" "position" = Some "p3"
    /\ getField evaluation' GameExamples.theGame "visuals" = Some "visuals"
    /\ innerValueOf evaluation' "visuals" = ListValue ["v"; "w"; "u"]
    /\ frameStack evaluation' = frameStack GameExamples.started.
Proof.
  apply (addVisualIn_not_atomic GameExamples.started GameExamples.theGame
           "v" "p3" "visuals" ["v"; "w"; "u"]).
  - discriminate.
  - discriminate.
  - vm_compute. eexists. reflexivity.
  - vm_compute. reflexivity.
  - vm_compute. reflexivity.
  - simpl. tauto.
Defined.

(** *** [addToInnerCollection] *)

Lemma frameStack_updateObject evaluation o f :
  frameStack (updateObject o f evaluation) = frameStack evaluation.
Proof. reflexivity. Qed.

Lemma frameStack_register evaluation obj :
  frameStack (register obj evaluation) = frameStack evaluation.
Proof. reflexivity. Qed.

Lemma innerValueOf_live evaluation o ids :
  innerValueOf evaluation o = ListValue ids -> live evaluation o.
Proof.
  unfold innerValueOf, live.
  destruct (instances evaluation !! o); [eauto | discriminate].
Qed.

Lemma addToInnerCollection_present evaluation wObject element fieldName l ids :
  getField evaluation wObject fieldName = Some l ->
  innerValueOf evaluation l = ListValue ids ->
  addToInnerCollection wObject element fieldName evaluation
  = if includes ids element
    then Raise (Js.TypeError (moduleFQNOf evaluation element)) evaluation
    else Ok tt (updateObject l
                  (withInnerValue (ListValue (ids ++ [element])))
                  evaluation).
Proof.
  intros Hl Hids.
  unfold addToInnerCollection, bind, RuntimeObject_get, ret.
  rewrite Hl. simpl. rewrite Hl. unfold assertIsCollection. rewrite Hids.
  by destruct (includes ids element).
Qed.

Lemma addToInnerCollection_mistyped evaluation wObject element fieldName l :
  getField evaluation wObject fieldName = Some l ->
  (forall ids, innerValueOf evaluation l <> ListValue ids) ->
  addToInnerCollection wObject element fieldName evaluation
  = Raise malformedCollection evaluation.
Proof.
  intros Hl Hids.
  unfold addToInnerCollection, bind, RuntimeObject_get, ret.
  rewrite Hl. simpl. rewrite Hl. unfold assertIsCollection.
  destruct (innerValueOf evaluation l) eqn:Hv; try reflexivity.
  by destruct (Hids ids).
Qed.

Lemma addToInnerCollection_absent evaluation wObject element fieldName :
  getField evaluation wObject fieldName = None ->
  live evaluation wObject ->
  addToInnerCollection wObject element fieldName evaluation
  = Ok tt (withNewCollection wObject element fieldName evaluation).
Proof.
  intros Hl Hlive.
  unfold addToInnerCollection, bind, RuntimeObject_get, ret.
  rewrite Hl. unfold newList, createInstance, RuntimeObject_set. simpl.
  set (l := freshId evaluation).
  set (created := {| id := l; moduleFQN := "wollok.lang.List"; fields := ∅;
                     innerValue := ListValue [] |}).
  rewrite getField_withField_eq by (by apply live_register).
  unfold assertIsCollection.
  rewrite innerValueOf_withField.
  change l with (id created) at 2. rewrite innerValueOf_register_eq. simpl.
  reflexivity.
Qed.

Lemma withNewCollection_field evaluation wObject element fieldName :
  live evaluation wObject ->
  getField (withNewCollection wObject element fieldName evaluation)
    wObject fieldName = Some (freshId evaluation)
  /\ innerValueOf (withNewCollection wObject element fieldName evaluation)
       (freshId evaluation) = ListValue [element]
  /\ frameStack (withNewCollection wObject element fieldName evaluation)
     = frameStack evaluation.
Proof.
  intros Hlive. unfold withNewCollection. repeat split.
  - rewrite getField_withInnerValue.
    apply getField_withField_eq. by apply live_register.
  - apply innerValueOf_withInnerValue_eq. apply live_updateObject.
    apply (live_register_self evaluation
             {| id := freshId evaluation; moduleFQN := "wollok.lang.List";
                fields := ∅; innerValue := ListValue [] |}).
Qed.

Lemma returnVoid_pushed evaluation :
  frameStack evaluation <> [] ->
  exists evaluation',
    returnVoid evaluation = Ok tt evaluation'
    /\ pushed VOID_ID evaluation evaluation'
    /\ instances evaluation' = instances evaluation.
Proof.
  intros Hf. unfold returnVoid, returnValue, pushOperand.
  destruct (frameStack evaluation) as [|frame frames] eqn:Hfs; [done|].
  eexists. split; [reflexivity|]. split; [|reflexivity].
  exists frame, frames. by rewrite Hfs.
Qed.

(** *** [addVisual] *)

Section AddVisual.

Variable moduleLookupMethod : string -> string -> nat -> bool.

Lemma game_addVisual_null self evaluation :
  game_addVisual moduleLookupMethod self NULL_ID evaluation
  = Raise (Js.TypeError "visual") evaluation.
Proof. reflexivity. Qed.

Lemma game_addVisual_no_position self visual evaluation :
  visual <> NULL_ID ->
  moduleLookupMethod (moduleFQNOf evaluation visual) "position" 0 = false ->
  game_addVisual moduleLookupMethod self visual evaluation
  = Raise (Js.TypeError "position") evaluation.
Proof.
  intros Hv Hm. apply String.eqb_neq in Hv.
  unfold game_addVisual, checkNotNull, bind, lookupMethod.
  rewrite Hv. simpl. by rewrite Hm.
Qed.

Lemma game_addVisual_accepted self visual evaluation :
  visual <> NULL_ID ->
  moduleLookupMethod (moduleFQNOf evaluation visual) "position" 0 = true ->
  game_addVisual moduleLookupMethod self visual evaluation
  = bind (addToInnerCollection self visual "visuals") (fun _ => returnVoid)
      evaluation.
Proof.
  intros Hv Hm. apply String.eqb_neq in Hv.
  unfold game_addVisual, checkNotNull, bind, lookupMethod, addVisual.
  rewrite Hv. simpl. by rewrite Hm.
Qed.

(** C8, as amended. With a current frame, [game.addVisual(visual)] raises
    a TypeError if and only if visual is the null sentinel, or its module
    resolves no zero-argument position method, or the visuals attribute of
    self is present without being a collection, or the Id of visual is
    already an element of self.visuals; otherwise it returns, the list of
    self.visuals (the old one, or a new one when the attribute was absent)
    holds the old elements followed by the Id of visual, and VOID_ID has
    been pushed. *)
Theorem addVisual_TypeError_iff (evaluation : Evaluation) (self visual : Id) :
  frameStack evaluation <> [] ->
  live evaluation self ->
  ((exists m evaluation',
       game_addVisual moduleLookupMethod self visual evaluation
       = Raise (Js.TypeError m) evaluation')
   <-> rejected moduleLookupMethod evaluation self visual)
  /\ (~ rejected moduleLookupMethod evaluation self visual ->
      exists evaluation' l,
        game_addVisual moduleLookupMethod self visual evaluation
        = Ok tt evaluation'
        /\ getField evaluation' self "visuals" = Some l
        /\ innerValueOf evaluation' l
           = ListValue (collection evaluation self "visuals" ++ [visual])
        /\ pushed VOID_ID evaluation evaluation'
        /\ match getField evaluation self "visuals" with
           | Some l0 => l = l0
           | None => ~ live evaluation l
           end).
Proof.
  intros Hframe Hself. unfold rejected, notACollection, collection.
  destruct (String.eqb_spec visual NULL_ID) as [->|Hv].
  { rewrite game_addVisual_null. split; [|tauto].
    split; [by left | eauto]. }
  destruct (moduleLookupMethod (moduleFQNOf evaluation visual) "position" 0)
    eqn:Hm.
  2:{ rewrite game_addVisual_no_position by assumption. split; [|tauto].
      split; [right; by left | eauto]. }
  rewrite game_addVisual_accepted by assumption. unfold bind.
  destruct (getField evaluation self "visuals") as [l|] eqn:Hl.
  - destruct (innerValueOf evaluation l) eqn:Hval;
      try (rewrite (addToInnerCollection_mistyped _ _ _ _ l) by
             (assumption || (intros ids; congruence));
           split;
           [ split; [intros _; right; right; left; exists l; split;
                       [reflexivity | intros ids'; congruence] | eauto]
           | intros Hn; exfalso; apply Hn; right; right; left; exists l;
               split; [reflexivity | intros ids'; congruence] ]).
    rewrite (addToInnerCollection_present _ _ _ _ l ids) by assumption.
    destruct (includes ids visual) eqn:Hin.
    + apply includes_In in Hin. split; [|tauto].
      split; [tauto | eauto].
    + assert (Hnot : ~ In visual ids).
      { intros H. apply includes_In in H. congruence. }
      set (evaluation1 := updateObject l _ evaluation).
      destruct (returnVoid_pushed evaluation1 Hframe)
        as (evaluation' & Hret & Hpushed & Hinst).
      rewrite Hret. split.
      * split; [intros (m & e & H); discriminate|].
        intros [H|[H|[(l' & [= <-] & H)|H]]]; try done.
        by destruct (H ids).
      * intros _. exists evaluation', l. split; [reflexivity|].
        assert (Hsame : forall o k, getField evaluation' o k
                                    = getField evaluation1 o k).
        { intros o k. unfold getField. by rewrite Hinst. }
        assert (Hsame' : forall o, innerValueOf evaluation' o
                                   = innerValueOf evaluation1 o).
        { intros o. unfold innerValueOf. by rewrite Hinst. }
        rewrite Hsame, Hsame'. unfold evaluation1.
        rewrite getField_withInnerValue.
        rewrite innerValueOf_withInnerValue_eq
          by (by eapply innerValueOf_live).
        repeat split; done.
  - rewrite addToInnerCollection_absent by assumption.
    destruct (withNewCollection_field evaluation self visual "visuals" Hself)
      as (Hfield & Hvalue & Hframes).
    set (evaluation1 := withNewCollection self visual "visuals" evaluation)
      in *.
    assert (Hframe1 : frameStack evaluation1 <> []) by (by rewrite Hframes).
    destruct (returnVoid_pushed evaluation1 Hframe1)
      as (evaluation' & Hret & Hpushed & Hinst).
    rewrite Hret. split.
    + split; [intros (m & e & H); discriminate|].
      intros [H|[H|[(l' & H & _)|H]]]; try done.
    + intros _. exists evaluation', (freshId evaluation).
      split; [reflexivity|].
      assert (Hsame : forall o k, getField evaluation' o k
                                  = getField evaluation1 o k).
      { intros o k. unfold getField. by rewrite Hinst. }
      assert (Hsame' : forall o, innerValueOf evaluation' o
                                 = innerValueOf evaluation1 o).
      { intros o. unfold innerValueOf. by rewrite Hinst. }
      rewrite Hsame, Hsame', Hfield, Hvalue. repeat split.
      * destruct Hpushed as (frame & frames & H1 & H2).
        exists frame, frames. rewrite <- Hframes. by split.
      * intros [x Hx]. rewrite freshId_not_live in Hx. discriminate.
Qed.

End AddVisual.

Lemma addVisual_TypeError_iff_witness :
  frameStack GameExamples.started <> []
  /\ live GameExamples.started GameExamples.theGame
  /\ ((exists m evaluation',
          game_addVisual GameExamples.moduleLookupMethod GameExamples.theGame
            "z" GameExamples.started
          = Raise (Js.TypeError m) evaluation')
      <-> rejected GameExamples.moduleLookupMethod GameExamples.started
            GameExamples.theGame "z").
Proof.
  assert (Hf : frameStack GameExamples.started <> []) by discriminate.
  assert (Hl : live GameExamples.started GameExamples.theGame)
    by (vm_compute; eexists; reflexivity).
  split; [exact Hf|]. split; [exact Hl|].
  exact (proj1 (addVisual_TypeError_iff GameExamples.moduleLookupMethod
                  GameExamples.started GameExamples.theGame "z" Hf Hl)).
Defined.

(** C8, as stated, fails on a game whose visuals attribute holds a
    string: the visual [z] is not null, its module resolves [position] and
    no list holds its Id, yet [addVisual] raises the TypeError of
    [assertIsCollection]. *)
Lemma addVisual_TypeError_on_mistyped_visuals :
  let evaluation := GameExamples.mistyped in
  (exists m evaluation',
      game_addVisual GameExamples.moduleLookupMethod GameExamples.theGame "z"
        evaluation
      = Raise (Js.TypeError m) evaluation')
  /\ ~ ("z" = NULL_ID
        \/ GameExamples.moduleLookupMethod (moduleFQNOf evaluation "z")
             "position" 0 = false
        \/ In "z" (collection evaluation GameExamples.theGame "visuals")).
Proof.
  split.
  - eexists _, _. vm_compute. reflexivity.
  - vm_compute. intros [H|[H|H]]; [discriminate | discriminate | exact H].
Qed.

(** *** [getPosition], [samePosition], [getObjectsIn] and [colliders] *)

Lemma optionIdEq_eq (a b : option Id) : optionIdEq a b = true <-> a = b.
Proof.
  destruct a as [x|], b as [y|]; simpl; split; try done.
  - intros H. apply String.eqb_eq in H. by subst.
  - intros [= ->]. apply String.eqb_refl.
Qed.




Section Positions.

Variable sendMessage : string -> Id -> list Id -> M unit.
Variable answer : Id -> Id.

(** The field takes precedence: no message is sent. *)
Lemma getPosition_field evaluation visual p :
  live evaluation visual ->
  getField evaluation visual "position" = Some p ->
  getPosition sendMessage visual evaluation = Ok p evaluation.
Proof.
  intros [o Ho] Hp. unfold getPosition, bind, instance, RuntimeObject_get.
  by rewrite Ho, Hp.
Qed.





Lemma answersPosition_incl evaluation asked asked' :
  (forall v, In v asked' -> In v asked) ->
  answersPosition sendMessage answer evaluation asked ->
  answersPosition sendMessage answer evaluation asked'.
Proof. intros Hincl Hanswers v Hv. apply Hanswers. by apply Hincl. Qed.

Lemma returnValue_pushed evaluation r :
  frameStack evaluation <> [] ->
  exists evaluation',
    returnValue r evaluation = Ok tt evaluation'
    /\ pushed r evaluation evaluation'
    /\ instances evaluation' = instances evaluation.
Proof.
  intros Hf. unfold returnValue, pushOperand.
  destruct (frameStack evaluation) as [|frame frames] eqn:Hfs; [done|].
  eexists. split; [reflexivity|]. split; [|reflexivity].
  exists frame, frames. by rewrite Hfs.
Qed.



End Positions.


(** *** The depth of the operand stack *)

Lemma shifts_ret {A} (a : A) : shifts (ret a) 0.
Proof. intros e a' e' [= _ <-]. lia. Qed.

Lemma shifts_throw {A} (x : Js.Exception) d : shifts (@throw A x) d.
Proof. intros e a e' H. discriminate. Qed.

Lemma shifts_Raise {A} (x : Evaluation -> Js.Exception) d :
  shifts (fun evaluation => @Raise A (x evaluation) evaluation) d.
Proof. intros e a e' H. discriminate. Qed.

Lemma shifts_bind {A B} (c : M A) (k : A -> M B) d1 d2 d :
  shifts c d1 -> (forall a, shifts (k a) d2) -> d = (d1 + d2)%Z ->
  shifts (bind c k) d.
Proof.
  intros Hc Hk -> e b e'. unfold bind.
  destruct (c e) as [a e1|x e1] eqn:Hce; [|discriminate].
  intros Hke. specialize (Hc _ _ _ Hce). specialize (Hk _ _ _ _ Hke). lia.
Qed.

Lemma shifts_instance o : shifts (instance o) 0.
Proof.
  intros e a e'. unfold instance.
  destruct (instances e !! o); [|discriminate]. intros [= _ <-]. lia.
Qed.

Lemma shifts_createInstance fqn v : shifts (createInstance fqn v) 0.
Proof. intros e a e' [= _ <-]. unfold operandDepth. simpl. lia. Qed.

Lemma shifts_RuntimeObject_get o k : shifts (RuntimeObject_get o k) 0.
Proof. intros e a e' [= _ <-]. lia. Qed.

Lemma shifts_RuntimeObject_set o k v : shifts (RuntimeObject_set o k v) 0.
Proof. intros e [] e' [= <-]. unfold operandDepth. simpl. lia. Qed.

Lemma shifts_setInnerValue o v : shifts (setInnerValue o v) 0.
Proof. intros e [] e' [= <-]. unfold operandDepth. simpl. lia. Qed.

Lemma shifts_assertIsCollection o : shifts (assertIsCollection o) 0.
Proof.
  intros e a e'. unfold assertIsCollection.
  destruct (innerValueOf e o); try discriminate. intros [= _ <-]. lia.
Qed.

Lemma shifts_elementsOf o : shifts (elementsOf o) 0.
Proof.
  intros e a e'. unfold elementsOf.
  destruct (innerValueOf e o); try discriminate. intros [= _ <-]. lia.
Qed.

Lemma shifts_assertIsNumber o : shifts (assertIsNumber o) 0.
Proof.
  intros e a e'. unfold assertIsNumber.
  destruct (innerValueOf e o); try discriminate. intros [= _ <-]. lia.
Qed.

Lemma shifts_innerValueIs o s : shifts (innerValueIs o s) 0.
Proof. intros e a e' [= _ <-]. lia. Qed.

Lemma shifts_lookupMethod f o m : shifts (lookupMethod f o m) 0.
Proof. intros e a e' [= _ <-]. lia. Qed.

Lemma shifts_pushOperand o : shifts (pushOperand o) 1.
Proof.
  intros e a e'. unfold pushOperand, operandDepth.
  destruct a. destruct (frameStack e) as [|frame frames]; [discriminate|].
  intros [= <-]. simpl. lia.
Qed.

(** A pop whose result is looked up: it only goes on with one entry
    less. *)
Lemma shifts_popOperand {B} (k : Id -> M B) d d' :
  (forall a, shifts (k a) d) -> d' = (d - 1)%Z ->
  shifts (bind popOperand
            (fun popped => bind (instanceOfPopped popped) k)) d'.
Proof.
  intros Hk -> e b e'. unfold bind, popOperand.
  destruct (frameStack e) as [|[stack] frames] eqn:Hf; [discriminate|].
  simpl. destruct stack as [|top below]; simpl; [discriminate|].
  unfold instance. simpl.
  destruct (instances e !! top); [|discriminate].
  intros Hke. specialize (Hk _ _ _ _ Hke).
  unfold operandDepth in *. rewrite Hf. simpl in *. lia.
Qed.

Lemma shifts_popOperand_instance :
  shifts (bind popOperand instanceOfPopped) (-1).
Proof.
  intros e b e' H.
  apply (shifts_popOperand (fun a => ret a) 0 (-1)
           (fun a => shifts_ret a) eq_refl e b e').
  unfold bind in *. destruct (popOperand e) as [p e1|x e1]; [|discriminate].
  unfold ret. by destruct (instanceOfPopped p e1).
Qed.

Lemma shifts_filterM {A} (f : A -> M bool) l :
  (forall x, shifts (f x) 0) -> shifts (filterM f l) 0.
Proof.
  intros Hf. induction l as [|x r IH]; simpl; [apply shifts_ret|].
  eapply shifts_bind; [apply Hf| |reflexivity].
  intros keep. eapply shifts_bind; [apply IH| |reflexivity].
  intros rest. apply shifts_ret.
Qed.

Section Depth.

Variable sendMessage : string -> Id -> list Id -> M unit.
Variable nodeIdByFQN : string -> Id.
Variable moduleLookupMethod : string -> string -> nat -> bool.

Hypothesis sendMessage_leavesResult : leavesResult sendMessage.

Lemma shifts_sendMessage message receiver args :
  shifts (sendMessage message receiver args) 1.
Proof.
  intros e [] e' H. rewrite (sendMessage_leavesResult _ _ _ _ _ H). lia.
Qed.

Lemma shifts_sendMessage_to message (receiver : Evaluation -> Id) args :
  shifts (fun evaluation =>
            sendMessage message (receiver evaluation) args evaluation) 1.
Proof.
  intros e [] e' H. rewrite (sendMessage_leavesResult _ _ _ _ _ H). lia.
Qed.

Ltac shifts_step :=
  match goal with
  | |- shifts (bind popOperand _) _ =>
      first [ apply shifts_popOperand_instance
            | eapply shifts_popOperand; [intros ?|] ]
  | |- shifts (bind _ _) _ => eapply shifts_bind; [ |intros ?| ]
  | |- shifts (ret _) _ => apply shifts_ret
  | |- shifts (throw _) _ => apply shifts_throw
  | |- shifts (fun _ => Raise _ _) _ => apply shifts_Raise
  | |- shifts (instance _) _ => apply shifts_instance
  | |- shifts (createInstance _ _) _ => apply shifts_createInstance
  | |- shifts (RuntimeObject_get _ _) _ => apply shifts_RuntimeObject_get
  | |- shifts (RuntimeObject_set _ _ _) _ => apply shifts_RuntimeObject_set
  | |- shifts (setInnerValue _ _) _ => apply shifts_setInnerValue
  | |- shifts (assertIsCollection _) _ => apply shifts_assertIsCollection
  | |- shifts (assertIsNumber _) _ => apply shifts_assertIsNumber
  | |- shifts (elementsOf _) _ => apply shifts_elementsOf
  | |- shifts (innerValueIs _ _) _ => apply shifts_innerValueIs
  | |- shifts (lookupMethod _ _ _) _ => apply shifts_lookupMethod
  | |- shifts (pushOperand _) _ => apply shifts_pushOperand
  | |- shifts (sendMessage _ _ _) _ => apply shifts_sendMessage
  | |- shifts (fun _ => sendMessage _ _ _ _) _ =>
      apply shifts_sendMessage_to
  | |- shifts (filterM _ _) _ => apply shifts_filterM; intros ?
  | |- shifts (if ?b then _ else _) _ => destruct b
  | |- shifts (match ?x with _ => _ end) _ => destruct x
  end.

Ltac shifts_auto := repeat shifts_step; try reflexivity; try lia.

Lemma shifts_getPosition v : shifts (getPosition sendMessage v) 0.
Proof. unfold getPosition. shifts_auto. Qed.

Lemma shifts_set o k v : shifts (set o k v) 1.
Proof. unfold set, returnVoid, returnValue. shifts_auto. Qed.

Lemma shifts_get o k : shifts (get o k) 1.
Proof. unfold get, returnValue. shifts_auto. Qed.

Lemma shifts_property o k v : shifts (property o k v) 1.
Proof. destruct v; [apply shifts_set | apply shifts_get]. Qed.

Lemma shifts_addToInnerCollection o x f :
  shifts (addToInnerCollection o x f) 0.
Proof. unfold addToInnerCollection, newList. shifts_auto. Qed.

Lemma shifts_removeFromInnerCollection o x f :
  shifts (removeFromInnerCollection o x f) 0.
Proof. unfold removeFromInnerCollection. shifts_auto. Qed.

Ltac shifts_native :=
  repeat
    first
      [ apply shifts_addToInnerCollection
      | apply shifts_removeFromInnerCollection
      | apply shifts_getPosition
      | apply shifts_property
      | apply shifts_set
      | apply shifts_get
      | shifts_step ];
  try reflexivity; try lia.

Lemma shifts_samePosition p v : shifts (samePosition sendMessage p v) 0.
Proof. unfold samePosition. shifts_native. Qed.

Lemma shifts_redirectTo receiver message params :
  shifts (redirectTo sendMessage receiver true message params) 2.
Proof. unfold redirectTo, returnVoid, returnValue. shifts_native. Qed.

(** [say] pushes twice, whatever the interpreter answers. *)
Lemma shifts_game_say self visual message :
  shifts (game_say sendMessage nodeIdByFQN self visual message) 2.
Proof. unfold game_say. shifts_native. Qed.

Lemma shifts_game_clear self :
  shifts (game_clear sendMessage nodeIdByFQN self) 2.
Proof. unfold game_clear, newList, returnVoid, returnValue. shifts_native. Qed.

Ltac shifts_table :=
  first
    [ apply shifts_redirectTo
    | apply shifts_game_say
    | apply shifts_game_clear
    | repeat first [ apply shifts_samePosition | shifts_native ] ].

Lemma lookupKey_In {A} key (table : list (string * A)) v :
  lookupKey key table = Some v -> In (key, v) table.
Proof.
  induction table as [|[k x] rest IH]; simpl; [discriminate|].
  destruct (String.eqb_spec k key) as [->|Hne].
  - intros [= ->]. by left.
  - intros H. right. by apply IH.
Qed.

(** Under the contract of [sendMessage], a native that returns leaves
    the operand stack one entry deeper, except the ten natives of
    [pushesTwice], which leave it two entries deeper. *)
Lemma native_depth module method self args step evaluation evaluation' :
  native sendMessage nodeIdByFQN moduleLookupMethod module method self args
  = Some step ->
  step evaluation = Ok tt evaluation' ->
  operandDepth evaluation'
  = operandDepth evaluation + (if pushesTwice module method then 2 else 1).
Proof.
  intros Hnative Hrun.
  enough (Hs : shifts step (if pushesTwice module method then 2 else 1)%Z).
  { specialize (Hs _ _ _ Hrun). destruct (pushesTwice module method); lia. }
  clear Hrun. unfold native in Hnative.
  destruct (lookupKey module _) as [methods|] eqn:Hmodule; [|discriminate].
  destruct (lookupKey method methods) as [f|] eqn:Hmethod; [|discriminate].
  apply lookupKey_In in Hmodule, Hmethod.
  destruct Hmodule as [[= <- <-]|[[= <- <-]|[]]].
  - unfold gameNatives in Hmethod. simpl in Hmethod.
    repeat (destruct Hmethod as [[= <- <-]|Hmethod];
            [ unfold unary, binary, ternary, quaternary, optional in Hnative;
              repeat (destruct args as [|? args]; try discriminate);
              injection Hnative as <-;
              cbv [pushesTwice includes existsb String.eqb Ascii.eqb
                     Bool.eqb andb orb];
              unfold game_addVisual, game_addVisualIn,
                game_addVisualCharacter, game_addVisualCharacterIn,
                game_removeVisual, game_whenKeyPressedDo, game_whenCollideDo,
                game_onCollideDo, game_onTick, game_schedule,
                game_removeTickEvent, game_allVisuals, game_hasVisual,
                game_getObjectsIn, game_colliders, game_title, game_width,
                game_height, game_ground, game_boardGround, game_doCellSize,
                game_stop, game_hideAttributes, game_showAttributes,
                game_errorReporter, game_doStart, addVisual, removeVisual,
                checkNotNull, newList, returnVoid, returnValue;
              shifts_table
            | ]).
    destruct Hmethod.
  - unfold SoundNatives in Hmethod. simpl in Hmethod.
    repeat (destruct Hmethod as [[= <- <-]|Hmethod];
            [ unfold unary, binary, ternary, quaternary, optional in Hnative;
              repeat (destruct args as [|? args]; try discriminate);
              injection Hnative as <-;
              cbv [pushesTwice includes existsb String.eqb Ascii.eqb
                     Bool.eqb andb orb];
              unfold Sound_play, Sound_played, Sound_stop, Sound_pause,
                Sound_resume, Sound_paused, Sound_volume, Sound_shouldLoop,
                addSound, removeSound, wGame, newWString, returnVoid,
                returnValue;
              shifts_table
            | ]).
    destruct Hmethod.
Qed.

End Depth.

(** *** The operand stack *)

(** C1. The native [say] leaves the operand stack two entries deeper:
    after the answer to [currentTime] has been popped, each of its two
    calls of [set] pushes VOID_ID. The natives that forward with
    [redirectTo], and [clear], push VOID_ID on top of the result the
    forwarded message has left. *)
Theorem say_pushes_twice :
  let send := GameExamples.sendMessage in
  let node := GameExamples.nodeIdByFQN in
  let e := GameExamples.started in
  let said := game_say send node GameExamples.theGame "v" "hello" e in
  let forwarded := game_addVisualCharacter send node GameExamples.theGame "z" e in
  let cleared := game_clear send node GameExamples.theGame e in
  operandDepth e = 0
  /\ said = Ok tt (GameExamples.after said)
  /\ frameStack (GameExamples.after said)
     = [{| operandStack := [VOID_ID; VOID_ID] |}]
  /\ operandDepth (GameExamples.after said) = operandDepth e + 2
  /\ forwarded = Ok tt (GameExamples.after forwarded)
  /\ operandDepth (GameExamples.after forwarded) = operandDepth e + 2
  /\ cleared = Ok tt (GameExamples.after cleared)
  /\ operandDepth (GameExamples.after cleared) = operandDepth e + 2.
Proof.
  intros send node e said forwarded cleared.
  split; [vm_compute; reflexivity|].
  split; [vm_compute; reflexivity|].
  split; [vm_compute; reflexivity|].
  split; [vm_compute; reflexivity|].
  split; [vm_compute; reflexivity|].
  split; [vm_compute; reflexivity|].
  split; vm_compute; reflexivity.
Qed.

(** *** The states of a sound *)

Lemma moduleFQNOf_register_ne evaluation obj o :
  id obj <> o ->
  moduleFQNOf (register obj evaluation) o = moduleFQNOf evaluation o.
Proof.
  intros Hne. unfold moduleFQNOf, register. simpl.
  by rewrite lookup_insert_ne.
Qed.

Lemma withStatus_soundState evaluation sound status :
  live evaluation sound ->
  getField (withStatus sound status evaluation) sound "status"
  = Some (freshId evaluation)
  /\ innerValueOf (withStatus sound status evaluation) (freshId evaluation)
     = StringValue status.
Proof.
  intros Hlive. unfold withStatus. split.
  - apply getField_withField_eq. by apply live_register.
  - rewrite innerValueOf_withField.
    apply (innerValueOf_register_eq evaluation
             {| id := freshId evaluation; moduleFQN := "wollok.lang.String";
                fields := ∅; innerValue := StringValue status |}).
Qed.

Lemma withStatus_other evaluation sound status o k :
  live evaluation o -> k <> "status" ->
  getField (withStatus sound status evaluation) o k = getField evaluation o k
  /\ innerValueOf (withStatus sound status evaluation) o
     = innerValueOf evaluation o
  /\ moduleFQNOf (withStatus sound status evaluation) o
     = moduleFQNOf evaluation o
  /\ live (withStatus sound status evaluation) o.
Proof.
  intros Hlive Hk. unfold withStatus.
  pose proof (live_not_fresh _ _ Hlive) as Hfresh.
  rewrite getField_withField_ne by (right; congruence).
  rewrite innerValueOf_withField, moduleFQNOf_withField.
  rewrite getField_register_ne, innerValueOf_register_ne,
    moduleFQNOf_register_ne by exact Hfresh.
  repeat split. apply live_updateObject. by apply live_register.
Qed.

Section Sound.

Variable nodeIdByFQN : string -> Id.

Local Abbreviation theGame := (nodeIdByFQN "wollok.game.game").

(** [play] has one guard, on [game.running]; past it, the status is
    written before the sound is added to [game.sounds]. *)
Lemma Sound_play_running evaluation self :
  live evaluation theGame ->
  getField evaluation theGame "running" = Some TRUE_ID ->
  Sound_play nodeIdByFQN self evaluation
  = bind (addToInnerCollection theGame self "sounds") (fun _ => returnVoid)
      (withStatus self "played" evaluation).
Proof.
  intros Hgame Hrunning.
  assert (Hgame' : live (withStatus self "played" evaluation) theGame).
  { unfold withStatus. apply live_updateObject. by apply live_register. }
  destruct Hgame as [g Hg]. destruct Hgame' as [g' Hg'].
  unfold Sound_play, bind at 1, wGame, instance. rewrite Hg.
  unfold bind at 1, RuntimeObject_get. rewrite Hrunning.
  unfold bind at 1. simpl.
  unfold bind at 1, newWString, createInstance.
  unfold bind at 1, RuntimeObject_set.
  fold (withStatus self "played" evaluation).
  unfold bind at 1. rewrite Hg'.
  reflexivity.
Qed.

(** A sound that is in [game.sounds] cannot be played: the duplicate
    check raises, with the module of the sound as its message, and the
    sound is left with the status "played", whatever its status was. *)
Lemma Sound_play_in_sounds evaluation self l ids :
  live evaluation theGame ->
  live evaluation self ->
  getField evaluation theGame "running" = Some TRUE_ID ->
  getField evaluation theGame "sounds" = Some l ->
  innerValueOf evaluation l = ListValue ids ->
  In self ids ->
  exists evaluation',
    Sound_play nodeIdByFQN self evaluation
    = Raise (Js.TypeError (moduleFQNOf evaluation self)) evaluation'
    /\ soundState evaluation' self = Some Played
    /\ collection evaluation' theGame "sounds" = ids.
Proof.
  intros Hgame Hself Hrunning Hsounds Hids Hin.
  rewrite Sound_play_running by assumption.
  destruct (withStatus_other evaluation self "played" theGame "sounds"
              Hgame ltac:(discriminate)) as (Hg1 & _ & _ & _).
  destruct (withStatus_other evaluation self "played" l "sounds"
              (innerValueOf_live _ _ _ Hids) ltac:(discriminate))
    as (_ & Hl2 & _ & _).
  destruct (withStatus_other evaluation self "played" self "sounds"
              Hself ltac:(discriminate)) as (_ & _ & Hs3 & _).
  destruct (withStatus_soundState evaluation self "played" Hself)
    as (Hstatus & Hvalue).
  exists (withStatus self "played" evaluation).
  unfold bind.
  rewrite (addToInnerCollection_present _ _ _ _ l ids)
    by congruence.
  apply includes_In in Hin. rewrite Hin, Hs3.
  split; [reflexivity|]. split.
  - unfold soundState. by rewrite Hstatus, Hvalue.
  - unfold collection. by rewrite Hg1, Hsounds, Hl2, Hids.
Qed.

(** The status is not consulted: a sound that is not in [game.sounds]
    is played whatever its status is. *)
Lemma Sound_play_not_in_sounds evaluation self l ids :
  frameStack evaluation <> [] ->
  live evaluation theGame ->
  live evaluation self ->
  getField evaluation theGame "running" = Some TRUE_ID ->
  getField evaluation theGame "sounds" = Some l ->
  innerValueOf evaluation l = ListValue ids ->
  ~ In self ids ->
  exists evaluation',
    Sound_play nodeIdByFQN self evaluation = Ok tt evaluation'
    /\ soundState evaluation' self = Some Played
    /\ collection evaluation' theGame "sounds" = (ids ++ [self])%list
    /\ pushed VOID_ID evaluation evaluation'.
Proof.
  intros Hframe Hgame Hself Hrunning Hsounds Hids Hin.
  rewrite Sound_play_running by assumption.
  pose proof (innerValueOf_live _ _ _ Hids) as Hl.
  destruct (withStatus_other evaluation self "played" theGame "sounds"
              Hgame ltac:(discriminate)) as (Hg1 & _ & _ & _).
  destruct (withStatus_other evaluation self "played" l "sounds"
              Hl ltac:(discriminate)) as (_ & Hl2 & _ & Hl4).
  destruct (withStatus_soundState evaluation self "played" Hself)
    as (Hstatus & Hvalue).
  set (e1 := withStatus self "played" evaluation) in *.
  unfold bind.
  rewrite (addToInnerCollection_present _ _ _ _ l ids) by congruence.
  destruct (includes ids self) eqn:Hinc.
  { apply includes_In in Hinc. contradiction. }
  set (e2 := updateObject l _ e1).
  assert (Hframe2 : frameStack e2 <> []) by exact Hframe.
  destruct (returnVoid_pushed e2 Hframe2) as (e' & Hret & Hpushed & Hinst).
  exists e'. split; [exact Hret|].
  assert (Hsame : forall o k, getField e' o k = getField e2 o k).
  { intros o k. unfold getField. by rewrite Hinst. }
  assert (Hsame' : forall o, innerValueOf e' o = innerValueOf e2 o).
  { intros o. unfold innerValueOf. by rewrite Hinst. }
  split; [|split; [|exact Hpushed]].
  - unfold soundState. rewrite Hsame. unfold e2.
    rewrite getField_withInnerValue, Hstatus, Hsame'. unfold e2.
    rewrite innerValueOf_withInnerValue_ne, Hvalue; [reflexivity|].
    by apply not_eq_sym, live_not_fresh.
  - unfold collection. rewrite Hsame. unfold e2.
    rewrite getField_withInnerValue, Hg1, Hsounds, Hsame'. unfold e2.
    by rewrite innerValueOf_withInnerValue_eq.
Qed.

Lemma soundState_instances evaluation evaluation' sound :
  instances evaluation' = instances evaluation ->
  soundState evaluation' sound = soundState evaluation sound.
Proof.
  intros H. unfold soundState, getField, innerValueOf. by rewrite H.
Qed.

Lemma withStatus_state evaluation sound status :
  live evaluation sound ->
  soundState (withStatus sound status evaluation) sound
  = if String.eqb status "played" then Some Played
    else if String.eqb status "paused" then Some Paused
    else if String.eqb status "stopped" then Some Stopped
    else None.
Proof.
  intros Hlive.
  destruct (withStatus_soundState evaluation sound status Hlive) as [H1 H2].
  unfold soundState. by rewrite H1, H2.
Qed.

Lemma innerValueIs_state evaluation sound state s :
  soundState evaluation sound = Some state ->
  innerValueIs (getField evaluation sound "status") s evaluation
  = Ok (match state with
        | Idle => false
        | Played => String.eqb "played" s
        | Paused => String.eqb "paused" s
        | Stopped => String.eqb "stopped" s
        end) evaluation.
Proof.
  unfold soundState, innerValueIs.
  destruct (getField evaluation sound "status") as [status|];
    [|by intros [= <-]].
  destruct (innerValueOf evaluation status) as [|n|s'|ids]; try discriminate.
  destruct (String.eqb_spec s' "played") as [->|_]; [by intros [= <-]|].
  destruct (String.eqb_spec s' "paused") as [->|_]; [by intros [= <-]|].
  destruct (String.eqb_spec s' "stopped") as [->|_]; [by intros [= <-]|].
  discriminate.
Qed.

Lemma Sound_pause_run evaluation self state :
  soundState evaluation self = Some state ->
  Sound_pause self evaluation
  = match state with
    | Played => returnVoid (withStatus self "paused" evaluation)
    | _ => Raise (Js.Error "You cannot pause a sound that is not played")
             evaluation
    end.
Proof.
  intros Hstate. unfold Sound_pause, bind at 1, RuntimeObject_get.
  unfold bind at 1. rewrite (innerValueIs_state _ _ _ _ Hstate).
  by destruct state.
Qed.

Lemma Sound_resume_run evaluation self state :
  soundState evaluation self = Some state ->
  Sound_resume self evaluation
  = match state with
    | Paused => returnVoid (withStatus self "played" evaluation)
    | _ => Raise (Js.Error "You cannot resume a sound that is not paused")
             evaluation
    end.
Proof.
  intros Hstate. unfold Sound_resume, bind at 1, RuntimeObject_get.
  unfold bind at 1. rewrite (innerValueIs_state _ _ _ _ Hstate).
  by destruct state.
Qed.

Lemma Sound_stop_run evaluation self state :
  live evaluation theGame ->
  soundState evaluation self = Some state ->
  Sound_stop nodeIdByFQN self evaluation
  = match state with
    | Played =>
        bind (removeFromInnerCollection theGame self "sounds")
          (fun _ => returnVoid) (withStatus self "stopped" evaluation)
    | _ => Raise (Js.Error "You cannot stop a sound that is not played")
             evaluation
    end.
Proof.
  intros Hgame Hstate.
  assert (Hgame' : live (withStatus self "stopped" evaluation) theGame).
  { unfold withStatus. apply live_updateObject. by apply live_register. }
  destruct Hgame' as [g' Hg'].
  unfold Sound_stop, bind at 1, RuntimeObject_get.
  unfold bind at 1. rewrite (innerValueIs_state _ _ _ _ Hstate).
  destruct state; try reflexivity.
  simpl. unfold bind at 1. simpl.
  unfold bind at 1, newWString, createInstance.
  unfold bind at 1, RuntimeObject_set.
  fold (withStatus self "stopped" evaluation).
  unfold bind at 1, wGame, instance. by rewrite Hg'.
Qed.

Lemma removeFromInnerCollection_run evaluation wObject element fieldName :
  removeFromInnerCollection wObject element fieldName evaluation
  = match getField evaluation wObject fieldName with
    | None => Ok tt evaluation
    | Some l =>
        match innerValueOf evaluation l with
        | ListValue ids =>
            Ok tt (updateObject l
                     (withInnerValue
                        (ListValue
                           (List.filter
                              (fun id => negb (String.eqb id element)) ids)))
                     evaluation)
        | _ => Raise malformedCollection evaluation
        end
    end.
Proof.
  unfold removeFromInnerCollection, bind, RuntimeObject_get.
  destruct (getField evaluation wObject fieldName) as [l|]; [|reflexivity].
  unfold assertIsCollection.
  by destruct (innerValueOf evaluation l).
Qed.

(** The three guarded natives follow the table of the specification:
    from a state the table gives a successor to, the native returns, the
    status stands for the successor and VOID_ID has been pushed ([stop]
    also takes the sound out of [game.sounds]); from any other state it
    raises its own error and leaves the store as it was. *)
Lemma guarded_events_follow_the_table evaluation self state event :
  event <> PlayEvent ->
  frameStack evaluation <> [] ->
  live evaluation theGame ->
  live evaluation self ->
  (forall l, getField evaluation theGame "sounds" = Some l ->
             exists ids, innerValueOf evaluation l = ListValue ids) ->
  soundState evaluation self = Some state ->
  match transition state event with
  | Some state' =>
      exists evaluation',
        fire nodeIdByFQN event self evaluation = Ok tt evaluation'
        /\ soundState evaluation' self = Some state'
        /\ pushed VOID_ID evaluation evaluation'
        /\ (event = StopEvent ->
            collection evaluation' theGame "sounds"
            = List.filter (fun id => negb (String.eqb id self))
                (collection evaluation theGame "sounds"))
  | None =>
      exists message,
        fire nodeIdByFQN event self evaluation
        = Raise (Js.Error message) evaluation
  end.
Proof.
  intros Hevent Hframe Hgame Hself Hsounds Hstate.
  destruct event; [done| | |]; simpl.
  - (* stop *)
    rewrite (Sound_stop_run _ _ _ Hgame Hstate).
    destruct state; simpl; eauto.
    set (e1 := withStatus self "stopped" evaluation).
    destruct (withStatus_other evaluation self "stopped" theGame "sounds"
                Hgame ltac:(discriminate)) as (Hg1 & _ & _ & _).
    fold e1 in Hg1.
    unfold bind. rewrite removeFromInnerCollection_run, Hg1.
    destruct (getField evaluation theGame "sounds") as [l|] eqn:Hl.
    + destruct (Hsounds l eq_refl) as [ids Hids].
      pose proof (innerValueOf_live _ _ _ Hids) as Hllive.
      destruct (withStatus_other evaluation self "stopped" l "sounds"
                  Hllive ltac:(discriminate)) as (_ & Hl2 & _ & Hl4).
      fold e1 in Hl2, Hl4. rewrite Hl2, Hids.
      set (e2 := updateObject l _ e1).
      assert (Hframe2 : frameStack e2 <> []) by exact Hframe.
      destruct (returnVoid_pushed e2 Hframe2) as (e' & Hret & Hpushed & Hinst).
      exists e'. split; [exact Hret|].
      assert (Hsame : forall o k, getField e' o k = getField e2 o k).
      { intros o k. unfold getField. by rewrite Hinst. }
      assert (Hsame' : forall o, innerValueOf e' o = innerValueOf e2 o).
      { intros o. unfold innerValueOf. by rewrite Hinst. }
      destruct (withStatus_soundState evaluation self "stopped" Hself)
        as (Hstatus & Hvalue).
      fold e1 in Hstatus, Hvalue.
      split; [|split; [exact Hpushed|]].
      * unfold soundState. rewrite Hsame. unfold e2.
        rewrite getField_withInnerValue, Hstatus, Hsame'. unfold e2.
        rewrite innerValueOf_withInnerValue_ne, Hvalue; [reflexivity|].
        by apply not_eq_sym, live_not_fresh.
      * intros _. unfold collection. rewrite Hsame, Hl. unfold e2.
        rewrite getField_withInnerValue, Hg1, Hsame'. unfold e2.
        by rewrite innerValueOf_withInnerValue_eq, Hids.
    + assert (Hframe1 : frameStack e1 <> []) by exact Hframe.
      destruct (returnVoid_pushed e1 Hframe1) as (e' & Hret & Hpushed & Hinst).
      exists e'. split; [exact Hret|].
      split; [|split; [exact Hpushed|]].
      * rewrite (soundState_instances _ _ _ Hinst).
        unfold e1. by rewrite withStatus_state.
      * intros _. unfold collection, getField at 1. rewrite Hinst.
        fold (getField e1 theGame "sounds"). by rewrite Hg1, Hl.
  - (* pause *)
    rewrite (Sound_pause_run _ _ _ Hstate).
    destruct state; simpl; eauto.
    set (e1 := withStatus self "paused" evaluation).
    assert (Hframe1 : frameStack e1 <> []) by exact Hframe.
    destruct (returnVoid_pushed e1 Hframe1) as (e' & Hret & Hpushed & Hinst).
    exists e'. split; [exact Hret|].
    split; [|split; [exact Hpushed | discriminate]].
    rewrite (soundState_instances _ _ _ Hinst).
    unfold e1. by rewrite withStatus_state.
  - (* resume *)
    rewrite (Sound_resume_run _ _ _ Hstate).
    destruct state; simpl; eauto.
    set (e1 := withStatus self "played" evaluation).
    assert (Hframe1 : frameStack e1 <> []) by exact Hframe.
    destruct (returnVoid_pushed e1 Hframe1) as (e' & Hret & Hpushed & Hinst).
    exists e'. split; [exact Hret|].
    split; [|split; [exact Hpushed | discriminate]].
    rewrite (soundState_instances _ _ _ Hinst).
    unfold e1. by rewrite withStatus_state.
Qed.

End Sound.

(** C5. In a started game, [play] then [pause] bring the sound to Paused,
    in [game.sounds]. The table has no [play] from Paused; the native
    raises the TypeError of the duplicate check, whose message is the
    module of the sound, after it has set the status to "played": the
    sound is now Played, [pause] succeeds again and [resume] fails. *)
Theorem play_from_Paused_overwrites_status :
  let play := Sound_play GameExamples.nodeIdByFQN in
  let e0 := GameExamples.fresh in
  let e1 := GameExamples.after (play "s" e0) in
  let e2 := GameExamples.after (Sound_pause "s" e1) in
  let e3 := GameExamples.after (play "s" e2) in
  soundState e0 "s" = Some Idle
  /\ play "s" e0 = Ok tt e1
  /\ Sound_pause "s" e1 = Ok tt e2
  /\ soundState e2 "s" = Some Paused
  /\ In "s" (collection e2 GameExamples.theGame "sounds")
  /\ getField e2 GameExamples.theGame "running" = Some TRUE_ID
  /\ transition Paused PlayEvent = None
  /\ play "s" e2 = Raise (Js.TypeError "wollok.game.Sound") e3
  /\ soundState e3 "s" = Some Played
  /\ Sound_pause "s" e3 = Ok tt (GameExamples.after (Sound_pause "s" e3))
  /\ Sound_resume "s" e3
     = Raise (Js.Error "You cannot resume a sound that is not paused") e3.
Proof.
  intros play e0 e1 e2 e3.
  split; [vm_compute; reflexivity|].
  split; [vm_compute; reflexivity|].
  split; [vm_compute; reflexivity|].
  split; [vm_compute; reflexivity|].
  split; [vm_compute; by left|].
  split; [vm_compute; reflexivity|].
  split; [reflexivity|].
  split; [vm_compute; reflexivity|].
  split; [vm_compute; reflexivity|].
  split; vm_compute; reflexivity.
Qed.

End GameFacts.

(* ================================================================== *)
(** ** Further properties of the validator *)
(* ================================================================== *)

Module ValidatorExtras.

Import Validator ValidatorSpec ValidatorFacts.

Lemma strictEq_eq (a b : option Name) : strictEq a b = true <-> a = b.
Proof.
  destruct a as [x|], b as [y|]; simpl; split; try done.
  - intros H. apply String.eqb_eq in H. by subst.
  - intros [= ->]. apply String.eqb_refl.
Qed.

Lemma sameNode_eq (a b : Node) : sameNode a b = true <-> nodeId a = nodeId b.
Proof. unfold sameNode. apply String.eqb_eq. Qed.

Lemma forallb_false_In {A} (f : A -> bool) (l : list A) :
  forallb f l = false -> exists x, In x l /\ f x = false.
Proof.
  induction l as [|x r IH]; simpl; [discriminate|].
  destruct (f x) eqn:Hx; simpl.
  - intros H. destruct (IH H) as (y & Hy & Hfy). exists y. split; [by right|done].
  - intros _. exists x. split; [by left|done].
Qed.

(** *** [canBeCalledWithArgs] *)

(** X1. [canBeCalledWithArgs(member1, member2)] raises exactly when
    member2 has no parameter, whatever member1 is, and it is never true
    of a member and itself. *)
Theorem canBeCalledWithArgs_raises_iff (member1 member2 : Node) :
  (parameters member2 = [] <->
   exists e, canBeCalledWithArgs member1 member2 = Throws e)
  /\ canBeCalledWithArgs member1 member1 <> Returns true.
Proof.
  split.
  - unfold canBeCalledWithArgs.
    destruct (last (parameters member2)) as [p|] eqn:Hl.
    + split; [|intros [e He]; discriminate].
      intros Hnil. rewrite Hnil in Hl. discriminate.
    + apply last_None in Hl. split; [eauto | done].
  - unfold canBeCalledWithArgs.
    destruct (last (parameters member1)); [|discriminate].
    unfold sameNode. rewrite String.eqb_refl, andb_false_r. discriminate.
Qed.

(** X2. Between two members whose last parameter is not varArg, the
    clash is symmetric: it holds in either direction exactly when they
    have the same number of parameters and are not the same node. *)
Theorem canBeCalledWithArgs_without_varArg (member1 member2 : Node)
  (p1 p2 : Param) :
  last (parameters member1) = Some p1 ->
  last (parameters member2) = Some p2 ->
  isVarArg p1 = false ->
  isVarArg p2 = false ->
  canBeCalledWithArgs member1 member2 = canBeCalledWithArgs member2 member1
  /\ (canBeCalledWithArgs member1 member2 = Returns true <->
      length (parameters member1) = length (parameters member2)
      /\ nodeId member1 <> nodeId member2).
Proof.
  intros H1 H2 Hv1 Hv2. unfold canBeCalledWithArgs.
  rewrite H1, H2, Hv1, Hv2. simpl. split.
  - f_equal. rewrite Nat.eqb_sym. f_equal. f_equal. apply String.eqb_sym.
  - split.
    + intros [= H]. apply andb_true_iff in H as [Hlen Hid].
      apply Nat.eqb_eq in Hlen. apply negb_true_iff in Hid.
      split; [done|]. intros Heq. apply sameNode_eq in Heq. congruence.
    + intros [Hlen Hid]. f_equal. apply andb_true_iff. split.
      * apply Nat.eqb_eq. done.
      * apply negb_true_iff. destruct (sameNode member1 member2) eqn:Hs;
          [|done]. apply sameNode_eq in Hs. contradiction.
Qed.

Lemma canBeCalledWithArgs_without_varArg_witness :
  canBeCalledWithArgs (ValidatorExamples.methodM "m1"
                         [ValidatorExamples.plainParameter "a"])
    (ValidatorExamples.methodM "m2" [ValidatorExamples.plainParameter "b"])
  = Returns true.
Proof.
  apply (canBeCalledWithArgs_without_varArg
           (ValidatorExamples.methodM "m1"
              [ValidatorExamples.plainParameter "a"])
           (ValidatorExamples.methodM "m2"
              [ValidatorExamples.plainParameter "b"])
           (ValidatorExamples.plainParameter "a")
           (ValidatorExamples.plainParameter "b")
           eq_refl eq_refl eq_refl eq_refl).
  split; [reflexivity | discriminate].
Defined.

(** X3. With a varArg parameter the clash has a direction: a member
    with more parameters than a member that ends in a varArg parameter
    can be called with the arguments of the latter, and not the other
    way round when its own last parameter is not varArg. *)
Theorem canBeCalledWithArgs_with_varArg (member1 member2 : Node)
  (p1 p2 : Param) :
  last (parameters member1) = Some p1 ->
  last (parameters member2) = Some p2 ->
  isVarArg p1 = false ->
  isVarArg p2 = true ->
  length (parameters member2) < length (parameters member1) ->
  nodeId member1 <> nodeId member2 ->
  canBeCalledWithArgs member1 member2 = Returns true
  /\ canBeCalledWithArgs member2 member1 = Returns false.
Proof.
  intros H1 H2 Hv1 Hv2 Hlen Hid. unfold canBeCalledWithArgs.
  rewrite H1, H2, Hv1, Hv2. simpl.
  assert (Hs : sameNode member1 member2 = false).
  { destruct (sameNode member1 member2) eqn:Hs; [|done].
    apply sameNode_eq in Hs. contradiction. }
  assert (Hs' : sameNode member2 member1 = false).
  { unfold sameNode in *. by rewrite String.eqb_sym. }
  rewrite Hs, Hs'. split; f_equal.
  - assert ((length (parameters member2) <=? length (parameters member1))
            = true) as -> by (apply Nat.leb_le; lia).
    reflexivity.
  - assert ((length (parameters member1) =? length (parameters member2))
            = false) as -> by (apply Nat.eqb_neq; lia).
    reflexivity.
Qed.

Lemma canBeCalledWithArgs_with_varArg_witness :
  canBeCalledWithArgs ValidatorExamples.threeParameterMethod
    ValidatorExamples.varArgMethod = Returns true
  /\ canBeCalledWithArgs ValidatorExamples.varArgMethod
       ValidatorExamples.threeParameterMethod = Returns false.
Proof.
  apply (canBeCalledWithArgs_with_varArg
           ValidatorExamples.threeParameterMethod
           ValidatorExamples.varArgMethod
           (ValidatorExamples.plainParameter "c")
           (ValidatorExamples.varArgParameter "rest")
           eq_refl eq_refl eq_refl eq_refl).
  - simpl. lia.
  - discriminate.
Defined.

(** *** [methodsHaveDistinctSignatures] on a class of methods *)

Lemma clashes_iff ms member :
  clashes ms member = true <->
  exists m, In m ms /\ isMethod m = true /\ name m = name member
            /\ compatibleArity m member = true.
Proof.
  unfold clashes. rewrite existsb_exists. split.
  - intros (m & Hin & H). apply andb_true_iff in H as [H Hc].
    apply andb_true_iff in H as [Hk Hn]. apply strictEq_eq in Hn.
    by exists m.
  - intros (m & Hin & Hk & Hn & Hc). exists m. split; [done|].
    rewrite Hk, Hc, andb_true_r. simpl. by apply strictEq_eq.
Qed.

(** X4. On a class whose members are all methods with at least one
    parameter, the rule methodsHaveDistinctSignatures reports the class
    exactly when two of its methods have the same name and a compatible
    arity. *)
Theorem methodsHaveDistinctSignatures_iff_clash (id : Id) (n : Name)
  (sup : option Reference) (mixins : list Reference) (ms : list Node)
  (c : Code) :
  (forall m, In m ms -> isMethod m = true /\ parameters m <> []) ->
  let class := ClassNode id n sup mixins ms in
  (methodsClash ms ->
   methodsHaveDistinctSignatures class c
   = Returns (Some {| code := c; level := Error; node := class |}))
  /\ (~ methodsClash ms ->
      methodsHaveDistinctSignatures class c = Returns None).
Proof.
  intros Hms class. unfold class.
  rewrite methodsHaveDistinctSignatures_spec
    by (intros m Hm _; by apply Hms).
  destruct (forallb _ ms) eqn:Hall.
  - rewrite forallb_forall in Hall. split; [|done].
    intros (m1 & m2 & H1 & H2 & Hn & Hc). exfalso.
    specialize (Hall m2 H2). apply andb_true_iff in Hall as [_ Hall].
    apply negb_true_iff in Hall.
    assert (clashes ms m2 = true); [|congruence].
    apply clashes_iff. exists m1. repeat split; try done.
    by apply Hms.
  - split; [done|]. intros Hno. exfalso. apply Hno.
    destruct (forallb_false_In _ _ Hall) as (member & Hin & Hf).
    destruct (Hms member Hin) as [Hk _]. rewrite Hk in Hf. simpl in Hf.
    apply negb_false_iff in Hf. apply clashes_iff in Hf.
    destruct Hf as (m & Hm & _ & Hn & Hc). by exists m, member.
Qed.

Lemma methodsHaveDistinctSignatures_iff_clash_witness :
  methodsHaveDistinctSignatures ValidatorExamples.overloadedClass
    "methodsHaveDistinctSignatures"
  = Returns (Some (methodsHaveDistinctSignaturesError
                     ValidatorExamples.overloadedClass)).
Proof.
  apply (methodsHaveDistinctSignatures_iff_clash "C" "C" None []
           [ValidatorExamples.methodM "m1"
              [ValidatorExamples.plainParameter "a"];
            ValidatorExamples.methodM "m2"
              [ValidatorExamples.plainParameter "b"]]).
  - intros m [<-|[<-|[]]]; (split; [reflexivity | discriminate]).
  - exists (ValidatorExamples.methodM "m1"
              [ValidatorExamples.plainParameter "a"]),
      (ValidatorExamples.methodM "m2" [ValidatorExamples.plainParameter "b"]).
    repeat split; simpl; tauto.
Defined.

(** *** [constructorsHaveDistinctArity] *)

Lemma matchingConstructors_pure ms member :
  parameters member <> [] ->
  matchingConstructors ms member
  = Returns (existsb (fun m => isConstructor m && compatibleArity m member)
               ms).
Proof.
  intros Hps. unfold matchingConstructors. apply some_pure.
  intros m _. destruct (isConstructor m); [|reflexivity].
  by apply canBeCalledWithArgs_pure.
Qed.

(** X5. The verdict of constructorsHaveDistinctArity on a constructor is
    a verdict on its class: with every constructor of the parent having a
    parameter, the constructor is reported exactly when some member of
    the parent is not a constructor or two constructors of the parent
    have a compatible arity. *)
Theorem constructorsHaveDistinctArity_iff (environment node parent : Node)
  (ms : list Node) (c : Code) :
  parentOf environment node = Returns parent ->
  members parent = Some ms ->
  (forall m, In m ms -> isConstructor m = true -> parameters m <> []) ->
  let reported :=
    (exists m, In m ms /\ isConstructor m = false) \/ constructorsClash ms in
  (reported ->
   constructorsHaveDistinctArity environment node c
   = Returns (Some {| code := c; level := Error; node := node |}))
  /\ (~ reported ->
      constructorsHaveDistinctArity environment node c = Returns None).
Proof.
  intros Hparent Hms Hps reported.
  assert (Hrun :
    constructorsHaveDistinctArity environment node c
    = Returns
        (if forallb
              (fun member =>
                 isConstructor member
                 && negb (existsb (fun m => isConstructor m
                                            && compatibleArity m member) ms))
              ms
         then None
         else Some {| code := c; level := Error; node := node |})).
  { unfold constructorsHaveDistinctArity, error, problem.
    rewrite Hparent. simpl. rewrite Hms.
    rewrite (every_pure _
               (fun member =>
                  isConstructor member
                  && negb (existsb (fun m => isConstructor m
                                             && compatibleArity m member)
                             ms))).
    - simpl. by destruct (forallb _ ms).
    - intros member Hmember. cbv beta.
      destruct (isConstructor member) eqn:Hk; [|reflexivity].
      rewrite ?Hparent. simpl. rewrite ?Hms.
      rewrite matchingConstructors_pure by (by apply Hps). reflexivity. }
  rewrite Hrun. destruct (forallb _ ms) eqn:Hall.
  - rewrite forallb_forall in Hall. split; [|done].
    intros [(m & Hm & Hk)|(m1 & m2 & H1 & H2 & Hk1 & Hk2 & Hc)]; exfalso.
    + specialize (Hall m Hm). rewrite Hk in Hall. discriminate.
    + specialize (Hall m2 H2). apply andb_true_iff in Hall as [_ Hall].
      apply negb_true_iff in Hall.
      assert (existsb (fun m => isConstructor m && compatibleArity m m2) ms
              = true); [|congruence].
      apply existsb_exists. exists m1. split; [done|]. by rewrite Hk1, Hc.
  - split; [done|]. intros Hno. exfalso. apply Hno.
    destruct (forallb_false_In _ _ Hall) as (member & Hin & Hf).
    destruct (isConstructor member) eqn:Hk.
    + right. simpl in Hf. apply negb_false_iff in Hf.
      apply existsb_exists in Hf as (m & Hm & H).
      apply andb_true_iff in H as [Hkm Hc]. by exists m, member.
    + left. by exists member.
Qed.

Lemma constructorsHaveDistinctArity_iff_witness :
  let e := ValidatorExamples.inPackage ValidatorExamples.mixedClass in
  constructorsHaveDistinctArity e ValidatorExamples.constructorA
    "constructorsHaveDistinctArity"
  = Returns (Some {| code := "constructorsHaveDistinctArity";
                     level := Error;
                     node := ValidatorExamples.constructorA |}).
Proof.
  intros e.
  apply (constructorsHaveDistinctArity_iff e ValidatorExamples.constructorA
           ValidatorExamples.mixedClass
           [ValidatorExamples.constructorA; ValidatorExamples.fieldF;
            ValidatorExamples.methodF]).
  - vm_compute. reflexivity.
  - reflexivity.
  - intros m [<-|[<-|[<-|[]]]]; intros H; discriminate.
  - left. exists ValidatorExamples.fieldF. split; [simpl; tauto | reflexivity].
Defined.

(** *** [fieldNameDifferentFromTheMethods] and
    [importHasNotLocalReference] *)

(** X6. A field is reported by fieldNameDifferentFromTheMethods exactly
    when a method among the members of its parent has the name of the
    field; fields and constructors of the same name do not count. *)
Theorem fieldNameDifferentFromTheMethods_iff (environment parent : Node)
  (ms : list Node) (id : Id) (n : Name) (value : option Node) (c : Code) :
  parentOf environment (FieldNode id n value) = Returns parent ->
  members parent = Some ms ->
  let field := FieldNode id n value in
  let shadowed :=
    exists m, In m ms /\ isMethod m = true /\ name m = Some n in
  (shadowed ->
   fieldNameDifferentFromTheMethods environment field c
   = Returns (Some {| code := c; level := Error; node := field |}))
  /\ (~ shadowed ->
      fieldNameDifferentFromTheMethods environment field c = Returns None).
Proof.
  intros Hparent Hms field shadowed.
  unfold fieldNameDifferentFromTheMethods, error, problem, field.
  rewrite Hparent. simpl. rewrite Hms. simpl.
  destruct (forallb _ (List.filter isMethod ms)) eqn:Hall; simpl.
  - rewrite forallb_forall in Hall. split; [|done].
    intros (m & Hm & Hk & Hn). exfalso.
    assert (Hin : In m (List.filter isMethod ms)).
    { apply filter_In. by split. }
    specialize (Hall m Hin). apply negb_true_iff in Hall.
    rewrite Hn in Hall. simpl in Hall. by rewrite String.eqb_refl in Hall.
  - split; [done|]. intros Hno. exfalso. apply Hno.
    destruct (forallb_false_In _ _ Hall) as (m & Hin & Hf).
    apply filter_In in Hin as [Hin Hk]. apply negb_false_iff in Hf.
    apply strictEq_eq in Hf. by exists m.
Qed.

Lemma fieldNameDifferentFromTheMethods_iff_witness :
  let e := ValidatorExamples.inPackage ValidatorExamples.mixedClass in
  fieldNameDifferentFromTheMethods e ValidatorExamples.fieldF
    "fieldNameDifferentFromTheMethods"
  = Returns (Some {| code := "fieldNameDifferentFromTheMethods";
                     level := Error; node := ValidatorExamples.fieldF |}).
Proof.
  intros e.
  apply (fieldNameDifferentFromTheMethods_iff e ValidatorExamples.mixedClass
           [ValidatorExamples.constructorA; ValidatorExamples.fieldF;
            ValidatorExamples.methodF] "f" "f" None).
  - vm_compute. reflexivity.
  - reflexivity.
  - exists ValidatorExamples.methodF.
    split; [simpl; tauto | split; reflexivity].
Defined.

(** X7. An import is reported by importHasNotLocalReference exactly when
    a member of its parent has the name the import refers to. *)
Theorem importHasNotLocalReference_iff (environment parent : Node)
  (ms : list Node) (id : Id) (reference : Reference) (c : Code) :
  parentOf environment (ImportNode id reference) = Returns parent ->
  members parent = Some ms ->
  let import := ImportNode id reference in
  let shadowed :=
    exists m, In m ms /\ name m = Some (referenceName reference) in
  (shadowed ->
   importHasNotLocalReference environment import c
   = Returns (Some {| code := c; level := Error; node := import |}))
  /\ (~ shadowed ->
      importHasNotLocalReference environment import c = Returns None).
Proof.
  intros Hparent Hms import shadowed.
  unfold importHasNotLocalReference, error, problem, import.
  rewrite Hparent. simpl. rewrite Hms. simpl.
  destruct (forallb _ ms) eqn:Hall; simpl.
  - rewrite forallb_forall in Hall. split; [|done].
    intros (m & Hm & Hn). exfalso.
    specialize (Hall m Hm). apply negb_true_iff in Hall.
    rewrite Hn in Hall. simpl in Hall. by rewrite String.eqb_refl in Hall.
  - split; [done|]. intros Hno. exfalso. apply Hno.
    destruct (forallb_false_In _ _ Hall) as (m & Hin & Hf).
    apply negb_false_iff in Hf. apply strictEq_eq in Hf. by exists m.
Qed.

Lemma importHasNotLocalReference_iff_witness :
  let e := ValidatorExamples.shadowingPackage in
  importHasNotLocalReference e ValidatorExamples.importC
    "importHasNotLocalReference"
  = Returns (Some {| code := "importHasNotLocalReference"; level := Error;
                     node := ValidatorExamples.importC |}).
Proof.
  intros e.
  apply (importHasNotLocalReference_iff e
           (PackageNode "p" "p"
              [ValidatorExamples.importC; ValidatorExamples.classC []])
           [ValidatorExamples.importC; ValidatorExamples.classC []]
           "i" {| referenceId := "reference of i"; referenceName := "C" |}).
  - vm_compute. reflexivity.
  - reflexivity.
  - exists (ValidatorExamples.classC []).
    split; [simpl; tauto | reflexivity].
Defined.

(** *** [onlyLastParameterIsVarArg] *)

(** X8. The rule onlyLastParameterIsVarArg lets a node pass exactly when
    its parameter list is empty or its only varArg parameter is the last
    one; every other list is reported, the non-empty lists without a
    varArg parameter among them. *)
Theorem onlyLastParameterIsVarArg_passes_iff (m : Node) (c : Code) :
  let passes := parameters m = [] \/ onlyLastIsVarArg (parameters m) in
  (passes -> onlyLastParameterIsVarArg m c = Returns None)
  /\ (~ passes ->
      onlyLastParameterIsVarArg m c
      = Returns (Some {| code := c; level := Error; node := m |})).
Proof.
  intros passes.
  destruct (onlyLastParameterIsVarArg m c) as [pb|e] eqn:Hrun.
  2:{ unfold onlyLastParameterIsVarArg, error, problem in Hrun.
      simpl in Hrun. discriminate. }
  destruct (onlyLastParameterIsVarArg_spec m c pb Hrun) as [Hiff Hsome].
  split.
  - intros Hp. f_equal. by apply Hiff.
  - intros Hn. f_equal. apply Hsome. intros ->. apply Hn. by apply Hiff.
Qed.

(** *** The driver *)

Lemma problemsByKind_level environment k c r :
  In (c, r) (problemsByKind environment k) ->
  exists condition, r = problem (levelOf c) condition.
Proof.
  destruct k; simpl; intros H;
    repeat (destruct H as [H|H];
            [injection H as <- <-; eexists; reflexivity|]);
    destruct H.
Qed.

(** X9. Every problem [validate] returns names a node the traversal has
    visited, under a code of the table entry of the kind of that node,
    and its level is the one the code is declared with: a warning for
    nameIsPascalCase, nameIsCamelCase, methodNotOnlyCallToSuper,
    testIsNotEmpty and programIsNotEmpty, an error for the others. *)
Theorem validate_problems_well_formed (environment target : Node)
  (ps : list Problem) (p : Problem) :
  validate environment target = Returns ps ->
  In p ps ->
  In (node p) (preorder target)
  /\ In (code p) (map fst (problemsByKind environment (kind (node p))))
  /\ level p = levelOf (code p).
Proof.
  intros Hv Hp. apply (validate_In _ _ _ _ Hv) in Hp.
  destruct Hp as (n & pn & Hn & Hpn & Hin).
  destruct (nodeProblems_In _ _ _ _ Hpn Hin) as (Hnode & r & Hr & Hrun).
  rewrite Hnode. split; [done|]. split.
  - apply in_map_iff. by exists (code p, r).
  - destruct (problemsByKind_level _ _ _ _ Hr) as (cond & ->).
    apply problem_Some in Hrun as [-> _]. reflexivity.
Qed.

Lemma validate_problems_well_formed_witness :
  let e := ValidatorExamples.inPackage ValidatorExamples.tryTest in
  let p := hasCatchOrAlwaysError ValidatorExamples.tryWithoutCatchOrAlways in
  In (node p) (preorder e)
  /\ In (code p) (map fst (problemsByKind e (kind (node p))))
  /\ level p = levelOf (code p).
Proof.
  intros e p.
  apply (validate_problems_well_formed e e [p] p).
  - vm_compute. reflexivity.
  - by left.
Defined.

(** *** Where the checks can raise *)

(** X10. A singleton without a name gets two problems, whatever its
    parent is: the warning nameIsCamelCase, whose condition asks for a
    name, and the error singletonIsNotUnnamed, in this order. *)
Theorem unnamed_singleton_problems (environment parent : Node) (id : Id)
  (ms : list Node) :
  let s := SingletonNode id None ms in
  parentOf environment s = Returns parent ->
  nodeProblems environment s
  = Returns [ {| code := "nameIsCamelCase"; level := Warning; node := s |};
              {| code := "singletonIsNotUnnamed"; level := Error;
                 node := s |} ].
Proof.
  intros s Hparent. unfold nodeProblems. cbn [kind s problemsByKind mapM fst snd].
  unfold nameIsCamelCase, singletonIsNotUnnamed, warning, error, problem.
  cbn [bind name]. fold s. rewrite Hparent. cbn [bind].
  rewrite andb_false_r. reflexivity.
Qed.

Lemma unnamed_singleton_problems_witness :
  let e := ValidatorExamples.inPackage
             ValidatorExamples.anonymousObjectProgram in
  let s := ValidatorExamples.anonymousObject in
  nodeProblems e s
  = Returns [ {| code := "nameIsCamelCase"; level := Warning; node := s |};
              {| code := "singletonIsNotUnnamed"; level := Error;
                 node := s |} ].
Proof.
  intros e s.
  apply (unnamed_singleton_problems e
           (LiteralNode "literal" (ObjectLiteral s)) "o" []).
  vm_compute. reflexivity.
Defined.

(** X11. The checks of a node raise only in three places: on a method
    without a body, on a class that has a method without parameters, and
    in the rules of singletons, fields, imports and constructors, which
    ask for the parent. The checks of every other node return. *)
Theorem nodeProblems_raises_only (environment n : Node) (e : Js.Exception) :
  nodeProblems environment n = Throws e ->
  match n with
  | MethodNode _ _ _ body _ _ => body = None
  | ClassNode _ _ _ _ ms =>
      exists m, In m ms /\ isMethod m = true /\ parameters m = []
  | SingletonNode _ _ _ | FieldNode _ _ _ | ImportNode _ _
  | ConstructorNode _ _ _ _ => True
  | _ => False
  end.
Proof.
  destruct n as [| |? ?|cid cname sup mixins ms| | | |? ? ? body ? ?| | | | | | | | | | | | | | | | | | |];
    try exact (fun _ => I);
    try (unfold nodeProblems; cbn [kind problemsByKind mapM fst snd];
         unfold nameIsPascalCase, nameIsCamelCase, nameIsNotKeyword,
           hasCatchOrAlways, nonAsignationOfFullyQualifiedReferences,
           programIsNotEmpty, testIsNotEmpty, bodyIsNotEmpty, warning,
           error, problem;
         simpl; discriminate).
  - (* Class *)
    unfold nodeProblems. cbn [kind problemsByKind mapM fst snd].
    destruct (existsb (fun m => isMethod m
                                && (length (parameters m) =? 0)) ms)
      eqn:Hex.
    + intros _. apply existsb_exists in Hex as (m & Hm & H).
      apply andb_true_iff in H as [Hk Hlen]. apply length_eqb_0 in Hlen.
      by exists m.
    + intros Hrun. exfalso.
      assert (Hps : forall m, In m ms -> isMethod m = true ->
                              parameters m <> []).
      { intros m Hm Hk Hnil.
        assert (existsb (fun m => isMethod m
                                  && (length (parameters m) =? 0)) ms
                = true); [|congruence].
        apply existsb_exists. exists m. split; [done|].
        by rewrite Hk, Hnil. }
      rewrite (methodsHaveDistinctSignatures_spec cid cname sup mixins ms _
                 Hps) in Hrun.
      unfold nameIsPascalCase, warning, problem in Hrun. simpl in Hrun.
      discriminate.
  - (* Method *)
    destruct body as [b|]; [|done].
    unfold nodeProblems. cbn [kind problemsByKind mapM fst snd].
    unfold onlyLastParameterIsVarArg, nameIsNotKeyword,
      methodNotOnlyCallToSuper, warning, error, problem.
    simpl. discriminate.
Qed.

Lemma nodeProblems_raises_only_witness :
  exists m, In m [ValidatorExamples.methodM "m" []]
            /\ isMethod m = true /\ parameters m = [].
Proof.
  apply (nodeProblems_raises_only
           (ValidatorExamples.inPackage ValidatorExamples.zeroParameterClass)
           ValidatorExamples.zeroParameterClass undefinedIsVarArg).
  vm_compute. reflexivity.
Defined.

End ValidatorExtras.

(* ================================================================== *)
(** ** Further properties of the native bridge *)
(* ================================================================== *)

Module GameExtras.

Import Game GameSpec GameFacts.

(** *** Reading a store that differs in its frames only *)

Lemma getField_instances e e' o k :
  instances e' = instances e -> getField e' o k = getField e o k.
Proof. intros H. unfold getField. by rewrite H. Qed.

Lemma innerValueOf_instances e e' o :
  instances e' = instances e -> innerValueOf e' o = innerValueOf e o.
Proof. intros H. unfold innerValueOf. by rewrite H. Qed.

Lemma collection_instances e e' o k :
  instances e' = instances e -> collection e' o k = collection e o k.
Proof.
  intros H. unfold collection.
  rewrite (getField_instances _ _ _ _ H).
  destruct (getField e o k); [|done].
  by rewrite (innerValueOf_instances _ _ _ H).
Qed.

Lemma live_instances e e' o :
  instances e' = instances e -> live e' o <-> live e o.
Proof. intros H. unfold live. by rewrite H. Qed.

Lemma pushed_frames id e e' :
  pushed id e e' -> frameStack e' <> [] /\ frameStack e <> [].
Proof. intros (frame & frames & H1 & H2). by rewrite H1, H2. Qed.

Lemma collection_cases e o f :
  ~ notACollection e o f ->
  (getField e o f = None /\ collection e o f = [])
  \/ exists l ids, getField e o f = Some l
                   /\ innerValueOf e l = ListValue ids
                   /\ collection e o f = ids.
Proof.
  intros Hn. unfold collection.
  destruct (getField e o f) as [l|] eqn:Hl; [|by left].
  destruct (innerValueOf e l) as [|n|s|ids] eqn:Hv;
    try (exfalso; apply Hn; exists l; split; [done|];
         intros ids'; congruence).
  right. by exists l, ids.
Qed.

(** *** [addToInnerCollection] and [removeFromInnerCollection] *)

Lemma addToInnerCollection_ok e w x f :
  live e w ->
  ~ notACollection e w f ->
  ~ In x (collection e w f) ->
  exists e',
    addToInnerCollection w x f e = Ok tt e'
    /\ frameStack e' = frameStack e
    /\ collection e' w f = (collection e w f ++ [x])%list
    /\ ~ notACollection e' w f
    /\ (forall o, live e o -> live e' o)
    /\ (forall o k, live e o -> k <> f -> getField e' o k = getField e o k).
Proof.
  intros Hw Hn Hx.
  destruct (collection_cases e w f Hn) as [[Hl Hc]|(l & ids & Hl & Hv & Hc)].
  - rewrite addToInnerCollection_absent by assumption.
    destruct (withNewCollection_field e w x f Hw) as (Hf & Hval & Hfr).
    exists (withNewCollection w x f e). split; [done|]. split; [done|].
    split; [|split; [|split]].
    + unfold collection at 1. by rewrite Hf, Hval, Hc.
    + intros (l' & Hl' & Hbad). rewrite Hf in Hl'. injection Hl' as <-.
      by apply (Hbad [x]).
    + intros o Ho. unfold withNewCollection.
      apply live_updateObject, live_updateObject. by apply live_register.
    + intros o k Ho Hk. unfold withNewCollection.
      rewrite getField_withInnerValue.
      rewrite getField_withField_ne by (right; congruence).
      apply getField_register_ne. simpl. by apply live_not_fresh.
  - rewrite (addToInnerCollection_present _ _ _ _ l ids) by assumption.
    rewrite Hc in Hx.
    destruct (includes ids x) eqn:Hin;
      [apply includes_In in Hin; contradiction|].
    pose proof (innerValueOf_live _ _ _ Hv) as Hlive.
    eexists. split; [reflexivity|]. split; [reflexivity|].
    split; [|split; [|split]].
    + unfold collection at 1. rewrite getField_withInnerValue, Hl.
      by rewrite innerValueOf_withInnerValue_eq, Hc.
    + intros (l' & Hl' & Hbad). rewrite getField_withInnerValue, Hl in Hl'.
      injection Hl' as <-.
      apply (Hbad (ids ++ [x])%list).
      by apply innerValueOf_withInnerValue_eq.
    + intros o Ho. by apply live_updateObject.
    + intros o k _ _. apply getField_withInnerValue.
Qed.

Lemma removeFromInnerCollection_ok e w x f :
  ~ notACollection e w f ->
  exists e',
    removeFromInnerCollection w x f e = Ok tt e'
    /\ frameStack e' = frameStack e
    /\ collection e' w f
       = List.filter (fun id => negb (String.eqb id x)) (collection e w f)
    /\ ~ notACollection e' w f
    /\ (forall o k, getField e' o k = getField e o k).
Proof.
  intros Hn. rewrite removeFromInnerCollection_run.
  destruct (collection_cases e w f Hn) as [[Hl Hc]|(l & ids & Hl & Hv & Hc)].
  - rewrite Hl. exists e. rewrite Hc. by repeat split.
  - rewrite Hl, Hv.
    pose proof (innerValueOf_live _ _ _ Hv) as Hlive.
    eexists. split; [reflexivity|]. split; [reflexivity|].
    split; [|split].
    + unfold collection at 1. rewrite getField_withInnerValue, Hl.
      by rewrite innerValueOf_withInnerValue_eq, Hc.
    + intros (l' & Hl' & Hbad). rewrite getField_withInnerValue, Hl in Hl'.
      injection Hl' as <-.
      eapply Hbad. by apply innerValueOf_withInnerValue_eq.
    + intros o k. apply getField_withInnerValue.
Qed.

Lemma filter_not_In (l : list Id) (x : Id) :
  ~ In x (List.filter (fun id => negb (String.eqb id x)) l).
Proof.
  intros H. apply filter_In in H as [_ H].
  by rewrite String.eqb_refl in H.
Qed.

Lemma filter_absent (l : list Id) (x : Id) :
  ~ In x l -> List.filter (fun id => negb (String.eqb id x)) l = l.
Proof.
  induction l as [|y r IH]; simpl; [done|]. intros H.
  destruct (String.eqb_spec y x) as [->|Hne]; simpl.
  - exfalso. apply H. by left.
  - f_equal. apply IH. intros Hin. apply H. by right.
Qed.

(** *** [property], [get] and [set] *)

(** X12. The accessor [property] on a registered object: called with a
    value it stores the value and pushes VOID_ID, and the accessor called
    without a value right after pushes that value and leaves the objects
    as they are; on an attribute that is absent the getter pushes
    NULL_ID. *)
Theorem property_round_trip (evaluation : Evaluation) (self : Id)
  (key : string) (value : Id) :
  frameStack evaluation <> [] ->
  live evaluation self ->
  (exists e1 e2,
      property self key (Some value) evaluation = Ok tt e1
      /\ pushed VOID_ID evaluation e1
      /\ property self key None e1 = Ok tt e2
      /\ pushed value e1 e2
      /\ instances e2 = instances e1)
  /\ (getField evaluation self key = None ->
      exists e1,
        property self key None evaluation = Ok tt e1
        /\ pushed NULL_ID evaluation e1
        /\ instances e1 = instances evaluation).
Proof.
  intros Hframe Hself. split.
  - set (e0 := updateObject self (withField key value) evaluation).
    destruct (returnVoid_pushed e0 Hframe) as (e1 & Hret & Hp1 & Hi1).
    assert (Hframe1 : frameStack e1 <> [])
      by exact (proj1 (pushed_frames _ _ _ Hp1)).
    destruct (returnValue_pushed e1 value Hframe1) as (e2 & Hret2 & Hp2 & Hi2).
    exists e1, e2. split; [exact Hret|]. split; [exact Hp1|].
    split; [|by split].
    unfold property, get, bind, RuntimeObject_get.
    rewrite (getField_instances _ _ _ _ Hi1). unfold e0.
    by rewrite getField_withField_eq.
  - intros Habsent.
    destruct (returnValue_pushed evaluation NULL_ID Hframe)
      as (e1 & Hret & Hp & Hi).
    exists e1. split; [|by split].
    unfold property, get, bind, RuntimeObject_get. by rewrite Habsent.
Qed.

Lemma property_round_trip_witness :
  exists e1 e2,
    property GameExamples.theGame "title" (Some "hello") GameExamples.started
    = Ok tt e1
    /\ pushed VOID_ID GameExamples.started e1
    /\ property GameExamples.theGame "title" None e1 = Ok tt e2
    /\ pushed "hello" e1 e2
    /\ instances e2 = instances e1.
Proof.
  apply (property_round_trip GameExamples.started GameExamples.theGame
           "title" "hello").
  - discriminate.
  - vm_compute. eexists. reflexivity.
Defined.

(** *** The visuals of the game *)

Lemma pushed_same_frames id e1 e e' :
  frameStack e1 = frameStack e -> pushed id e1 e' -> pushed id e e'.
Proof.
  intros Hf (frame & frames & H1 & H2). exists frame, frames.
  by rewrite <- Hf.
Qed.

Section Visuals.

Variable moduleLookupMethod : string -> string -> nat -> bool.

Lemma game_addVisual_ok e self visual :
  frameStack e <> [] ->
  live e self ->
  ~ rejected moduleLookupMethod e self visual ->
  exists e',
    game_addVisual moduleLookupMethod self visual e = Ok tt e'
    /\ pushed VOID_ID e e'
    /\ collection e' self "visuals"
       = (collection e self "visuals" ++ [visual])%list
    /\ ~ notACollection e' self "visuals"
    /\ (forall o, live e o -> live e' o)
    /\ (forall o k, live e o -> k <> "visuals" ->
                    getField e' o k = getField e o k).
Proof.
  intros Hframe Hself Hrej. unfold rejected in Hrej.
  assert (Hv : visual <> NULL_ID) by tauto.
  assert (Hm : moduleLookupMethod (moduleFQNOf e visual) "position" 0 = true).
  { destruct (moduleLookupMethod _ _ _); [done | tauto]. }
  destruct (addToInnerCollection_ok e self visual "visuals" Hself
              ltac:(tauto) ltac:(tauto))
    as (e1 & Hadd & Hf1 & Hc1 & Hn1 & Hl1 & Hg1).
  assert (Hframe1 : frameStack e1 <> []) by (by rewrite Hf1).
  destruct (returnVoid_pushed e1 Hframe1) as (e' & Hret & Hp & Hi).
  exists e'. split.
  { rewrite game_addVisual_accepted by assumption.
    unfold bind. by rewrite Hadd. }
  split; [by apply (pushed_same_frames _ e1)|].
  split; [by rewrite (collection_instances _ _ _ _ Hi)|].
  split.
  { intros (l & Hl & Hbad). apply Hn1. exists l.
    rewrite (getField_instances _ _ _ _ Hi) in Hl. split; [done|].
    intros ids. rewrite <- (innerValueOf_instances _ _ _ Hi). apply Hbad. }
  split.
  - intros o Ho. apply (live_instances _ _ _ Hi). by apply Hl1.
  - intros o k Ho Hk. rewrite (getField_instances _ _ _ _ Hi). by apply Hg1.
Qed.

Lemma game_addVisual_Ok_inv e e' self visual :
  game_addVisual moduleLookupMethod self visual e = Ok tt e' ->
  ~ rejected moduleLookupMethod e self visual.
Proof.
  intros Hok.
  assert (Hv : visual <> NULL_ID).
  { intros ->. rewrite game_addVisual_null in Hok. discriminate. }
  assert (Hm : moduleLookupMethod (moduleFQNOf e visual) "position" 0 = true).
  { destruct (moduleLookupMethod _ _ _) eqn:Hm; [done|].
    rewrite game_addVisual_no_position in Hok by assumption. discriminate. }
  rewrite game_addVisual_accepted in Hok by assumption. unfold bind in Hok.
  intros [H|[H|[(l & Hl & Hbad)|H]]]; [done|congruence| |].
  - rewrite (addToInnerCollection_mistyped _ _ _ _ l) in Hok by assumption.
    discriminate.
  - unfold collection in H.
    destruct (getField e self "visuals") as [l|] eqn:Hl; [|done].
    destruct (innerValueOf e l) as [|n|s|ids] eqn:Hval; try done.
    rewrite (addToInnerCollection_present _ _ _ _ l ids) in Hok by assumption.
    apply includes_In in H. rewrite H in Hok. discriminate.
Qed.

Lemma game_hasVisual_run e self visual :
  frameStack e <> [] ->
  ~ notACollection e self "visuals" ->
  exists e',
    game_hasVisual self visual e = Ok tt e'
    /\ instances e' = instances e
    /\ pushed (toWBoolean (includes (collection e self "visuals") visual))
         e e'.
Proof.
  intros Hframe Hn. unfold game_hasVisual, bind, RuntimeObject_get.
  destruct (collection_cases e self "visuals" Hn)
    as [[Hl Hc]|(l & ids & Hl & Hv & Hc)]; rewrite Hl, Hc.
  - destruct (returnValue_pushed e FALSE_ID Hframe) as (e' & Hret & Hp & Hi).
    exists e'. by repeat split.
  - unfold assertIsCollection. rewrite Hv.
    destruct (returnValue_pushed e (toWBoolean (includes ids visual)) Hframe)
      as (e' & Hret & Hp & Hi).
    exists e'. by repeat split.
Qed.

(** X13. [hasVisual] is membership by Id: with a current frame and a
    visuals attribute that is absent or a list, it changes no object and
    pushes TRUE_ID when the Id of the visual is an element of
    self.visuals, FALSE_ID when it is not (and when there is no list). *)
Theorem hasVisual_membership (evaluation : Evaluation) (self visual : Id) :
  frameStack evaluation <> [] ->
  ~ notACollection evaluation self "visuals" ->
  exists evaluation',
    game_hasVisual self visual evaluation = Ok tt evaluation'
    /\ instances evaluation' = instances evaluation
    /\ (In visual (collection evaluation self "visuals") ->
        pushed TRUE_ID evaluation evaluation')
    /\ (~ In visual (collection evaluation self "visuals") ->
        pushed FALSE_ID evaluation evaluation').
Proof.
  intros Hframe Hn.
  destruct (game_hasVisual_run evaluation self visual Hframe Hn)
    as (e' & Hrun & Hi & Hp).
  exists e'. split; [done|]. split; [done|].
  destruct (includes _ visual) eqn:Hin; simpl in Hp.
  - apply includes_In in Hin. by split.
  - split; [|done]. intros H. apply includes_In in H. congruence.
Qed.

Lemma game_removeVisual_run e self visual :
  frameStack e <> [] ->
  ~ notACollection e self "visuals" ->
  exists e',
    game_removeVisual self visual e = Ok tt e'
    /\ pushed VOID_ID e e'
    /\ collection e' self "visuals"
       = List.filter (fun id => negb (String.eqb id visual))
           (collection e self "visuals")
    /\ ~ notACollection e' self "visuals"
    /\ (forall o k, getField e' o k = getField e o k).
Proof.
  intros Hframe Hn.
  destruct (removeFromInnerCollection_ok e self visual "visuals" Hn)
    as (e1 & Hrm & Hf1 & Hc1 & Hn1 & Hg1).
  assert (Hframe1 : frameStack e1 <> []) by (by rewrite Hf1).
  destruct (returnVoid_pushed e1 Hframe1) as (e' & Hret & Hp & Hi).
  exists e'. split.
  { unfold game_removeVisual, removeVisual, bind. by rewrite Hrm. }
  split; [by apply (pushed_same_frames _ e1)|].
  split; [by rewrite (collection_instances _ _ _ _ Hi)|].
  split.
  - intros (l & Hl & Hbad). apply Hn1. exists l.
    rewrite (getField_instances _ _ _ _ Hi) in Hl. split; [done|].
    intros ids. rewrite <- (innerValueOf_instances _ _ _ Hi). apply Hbad.
  - intros o k. rewrite (getField_instances _ _ _ _ Hi). apply Hg1.
Qed.

(** X14. [removeVisual] never fails on a visuals attribute that is
    absent or a list: it pushes VOID_ID, the Id of the visual is no
    element of self.visuals afterwards, the other elements stay in their
    order, and no attribute of any object is rewritten. Removing a visual
    that is not there, or removing twice, changes no element. *)
Theorem removeVisual_removes (evaluation : Evaluation) (self visual : Id) :
  frameStack evaluation <> [] ->
  ~ notACollection evaluation self "visuals" ->
  exists evaluation',
    game_removeVisual self visual evaluation = Ok tt evaluation'
    /\ pushed VOID_ID evaluation evaluation'
    /\ collection evaluation' self "visuals"
       = List.filter (fun id => negb (String.eqb id visual))
           (collection evaluation self "visuals")
    /\ ~ In visual (collection evaluation' self "visuals")
    /\ (~ In visual (collection evaluation self "visuals") ->
        collection evaluation' self "visuals"
        = collection evaluation self "visuals")
    /\ (forall o k, getField evaluation' o k = getField evaluation o k).
Proof.
  intros Hframe Hn.
  destruct (game_removeVisual_run evaluation self visual Hframe Hn)
    as (e' & Hrun & Hp & Hc & _ & Hg).
  exists e'. split; [done|]. split; [done|]. split; [done|].
  split; [rewrite Hc; apply filter_not_In|].
  split; [|done]. intros Hno. rewrite Hc. by apply filter_absent.
Qed.

Lemma removeVisual_removes_witness :
  exists evaluation',
    game_removeVisual GameExamples.theGame "w" GameExamples.started
    = Ok tt evaluation'
    /\ collection evaluation' GameExamples.theGame "visuals" = ["v"; "u"].
Proof.
  destruct (removeVisual_removes GameExamples.started GameExamples.theGame
              "w") as (e' & Hrun & _ & Hc & _).
  - discriminate.
  - intros (l & Hl & Hbad). vm_compute in Hl. injection Hl as <-.
    apply (Hbad ["v"; "w"; "u"]). vm_compute. reflexivity.
  - exists e'. split; [exact Hrun|]. rewrite Hc. vm_compute. reflexivity.
Defined.

Lemma hasVisual_membership_witness :
  exists evaluation',
    game_hasVisual GameExamples.theGame "w" GameExamples.started
    = Ok tt evaluation'
    /\ pushed TRUE_ID GameExamples.started evaluation'.
Proof.
  destruct (hasVisual_membership GameExamples.started GameExamples.theGame
              "w") as (e' & Hrun & _ & Hyes & _).
  - discriminate.
  - intros (l & Hl & Hbad). vm_compute in Hl. injection Hl as <-.
    apply (Hbad ["v"; "w"; "u"]). vm_compute. reflexivity.
  - exists e'. split; [exact Hrun|]. apply Hyes. vm_compute. tauto.
Defined.

(** X15. Adding, asking and removing compose: after [addVisual] has
    accepted a visual, [hasVisual] pushes TRUE_ID for it; [removeVisual]
    then brings self.visuals back to the elements it had before the
    visual was added, and [hasVisual] pushes FALSE_ID. *)
Theorem addVisual_hasVisual_removeVisual (evaluation : Evaluation)
  (self visual : Id) :
  frameStack evaluation <> [] ->
  live evaluation self ->
  ~ rejected moduleLookupMethod evaluation self visual ->
  exists e1 e2 e3 e4,
    game_addVisual moduleLookupMethod self visual evaluation = Ok tt e1
    /\ game_hasVisual self visual e1 = Ok tt e2
    /\ pushed TRUE_ID e1 e2
    /\ game_removeVisual self visual e2 = Ok tt e3
    /\ collection e3 self "visuals" = collection evaluation self "visuals"
    /\ game_hasVisual self visual e3 = Ok tt e4
    /\ pushed FALSE_ID e3 e4.
Proof.
  intros Hframe Hself Hrej.
  destruct (game_addVisual_ok evaluation self visual Hframe Hself Hrej)
    as (e1 & Hadd & Hp1 & Hc1 & Hn1 & _ & _).
  assert (Hf1 : frameStack e1 <> [])
    by exact (proj1 (pushed_frames _ _ _ Hp1)).
  destruct (game_hasVisual_run e1 self visual Hf1 Hn1)
    as (e2 & Hhas & Hi2 & Hp2).
  assert (Hin : includes (collection e1 self "visuals") visual = true).
  { apply includes_In. rewrite Hc1. apply in_or_app. right. by left. }
  rewrite Hin in Hp2. simpl in Hp2.
  assert (Hf2 : frameStack e2 <> [])
    by exact (proj1 (pushed_frames _ _ _ Hp2)).
  assert (Hn2 : ~ notACollection e2 self "visuals").
  { intros (l & Hl & Hbad). apply Hn1. exists l.
    rewrite (getField_instances _ _ _ _ Hi2) in Hl. split; [done|].
    intros ids. rewrite <- (innerValueOf_instances _ _ _ Hi2). apply Hbad. }
  destruct (game_removeVisual_run e2 self visual Hf2 Hn2)
    as (e3 & Hrm & Hp3 & Hc3 & Hn3 & _).
  assert (Hf3 : frameStack e3 <> [])
    by exact (proj1 (pushed_frames _ _ _ Hp3)).
  destruct (game_hasVisual_run e3 self visual Hf3 Hn3)
    as (e4 & Hhas' & Hi4 & Hp4).
  assert (Hc3' : collection e3 self "visuals"
                 = collection evaluation self "visuals").
  { rewrite Hc3, (collection_instances _ _ _ _ Hi2), Hc1.
    rewrite List.filter_app. simpl. rewrite String.eqb_refl. simpl.
    rewrite app_nil_r. apply filter_absent. unfold rejected in Hrej. tauto. }
  assert (Hout : includes (collection e3 self "visuals") visual = false).
  { apply not_true_is_false. intros H. apply includes_In in H.
    rewrite Hc3' in H. unfold rejected in Hrej. tauto. }
  rewrite Hout in Hp4. simpl in Hp4.
  exists e1, e2, e3, e4. by repeat split.
Qed.

(** X16. [addVisual] keeps self.visuals free of duplicates: when it
    returns, the Id of the visual was no element before, it is the last
    element now, and a list without duplicates stays without
    duplicates. *)
Theorem addVisual_keeps_NoDup (evaluation evaluation' : Evaluation)
  (self visual : Id) :
  live evaluation self ->
  game_addVisual moduleLookupMethod self visual evaluation
  = Ok tt evaluation' ->
  ~ In visual (collection evaluation self "visuals")
  /\ collection evaluation' self "visuals"
     = (collection evaluation self "visuals" ++ [visual])%list
  /\ (NoDup (collection evaluation self "visuals") ->
      NoDup (collection evaluation' self "visuals")).
Proof.
  intros Hself Hok.
  pose proof (game_addVisual_Ok_inv _ _ _ _ Hok) as Hrej.
  assert (Hframe : frameStack evaluation <> []).
  { intros Hnil.
    assert (Hv : visual <> NULL_ID) by (unfold rejected in Hrej; tauto).
    assert (Hm : moduleLookupMethod (moduleFQNOf evaluation visual)
                   "position" 0 = true).
    { destruct (moduleLookupMethod _ _ _) eqn:Hm; [done|].
      unfold rejected in Hrej. tauto. }
    destruct (addToInnerCollection_ok evaluation self visual "visuals" Hself)
      as (e1 & Hadd & Hf1 & _);
      [unfold rejected in Hrej; tauto | unfold rejected in Hrej; tauto|].
    rewrite game_addVisual_accepted in Hok by assumption.
    unfold bind in Hok. rewrite Hadd in Hok.
    unfold returnVoid, returnValue, pushOperand in Hok.
    rewrite Hf1, Hnil in Hok. discriminate. }
  destruct (game_addVisual_ok evaluation self visual Hframe Hself Hrej)
    as (e1 & Hadd & _ & Hc & _).
  rewrite Hadd in Hok. injection Hok as <-.
  split; [unfold rejected in Hrej; tauto|]. split; [done|].
  intros Hnd. rewrite Hc. apply NoDup_app. split; [done|]. split.
  - intros x Hx Hx'. apply list_elem_of_In in Hx, Hx'.
    destruct Hx' as [<-|[]]. unfold rejected in Hrej. tauto.
  - apply NoDup_singleton.
Qed.

End Visuals.

Lemma addVisual_hasVisual_removeVisual_witness :
  exists e1 e2 e3 e4,
    game_addVisual GameExamples.moduleLookupMethod GameExamples.theGame "z"
      GameExamples.started = Ok tt e1
    /\ game_hasVisual GameExamples.theGame "z" e1 = Ok tt e2
    /\ pushed TRUE_ID e1 e2
    /\ game_removeVisual GameExamples.theGame "z" e2 = Ok tt e3
    /\ collection e3 GameExamples.theGame "visuals"
       = collection GameExamples.started GameExamples.theGame "visuals"
    /\ game_hasVisual GameExamples.theGame "z" e3 = Ok tt e4
    /\ pushed FALSE_ID e3 e4.
Proof.
  apply (addVisual_hasVisual_removeVisual GameExamples.moduleLookupMethod
           GameExamples.started GameExamples.theGame "z").
  - discriminate.
  - vm_compute. eexists. reflexivity.
  - intros [H|[H|[(l & Hl & Hbad)|H]]].
    + discriminate.
    + vm_compute in H. discriminate.
    + vm_compute in Hl. injection Hl as <-.
      apply (Hbad ["v"; "w"; "u"]). vm_compute. reflexivity.
    + vm_compute in H. intuition discriminate.
Defined.

Lemma addVisual_keeps_NoDup_witness :
  let e' := GameExamples.after
              (game_addVisual GameExamples.moduleLookupMethod
                 GameExamples.theGame "z" GameExamples.started) in
  ~ In "z" (collection GameExamples.started GameExamples.theGame "visuals")
  /\ collection e' GameExamples.theGame "visuals"
     = (collection GameExamples.started GameExamples.theGame "visuals"
        ++ ["z"])%list
  /\ (NoDup (collection GameExamples.started GameExamples.theGame "visuals")
      -> NoDup (collection e' GameExamples.theGame "visuals")).
Proof.
  intros e'.
  apply (addVisual_keeps_NoDup GameExamples.moduleLookupMethod
           GameExamples.started e' GameExamples.theGame "z").
  - vm_compute. eexists. reflexivity.
  - vm_compute. reflexivity.
Defined.

(** *** Lists handed out by the game *)

Lemma newList_pushed e elements :
  frameStack e <> [] ->
  exists e',
    bind (newList elements) (fun result => returnValue result) e = Ok tt e'
    /\ pushed (freshId e) e e'
    /\ ~ live e (freshId e)
    /\ innerValueOf e' (freshId e) = ListValue elements
    /\ moduleFQNOf e' (freshId e) = "wollok.lang.List"
    /\ (forall o, live e o ->
                  innerValueOf e' o = innerValueOf e o
                  /\ forall k, getField e' o k = getField e o k).
Proof.
  intros Hf. unfold bind, newList, createInstance.
  set (created := {| id := freshId e; moduleFQN := "wollok.lang.List";
                     fields := ∅; innerValue := ListValue elements |}).
  destruct (returnValue_pushed (register created e) (freshId e) Hf)
    as (e' & Hret & Hpushed & Hinst).
  exists e'. split; [exact Hret|]. split; [exact Hpushed|].
  split.
  { intros [x Hx]. rewrite freshId_not_live in Hx. discriminate. }
  split.
  { rewrite (innerValueOf_instances _ _ _ Hinst).
    apply (innerValueOf_register_eq e created). }
  split.
  { unfold moduleFQNOf. rewrite Hinst. unfold register. simpl.
    by rewrite lookup_insert_eq. }
  intros o Ho. pose proof (live_not_fresh _ _ Ho) as Hne. split.
  - rewrite (innerValueOf_instances _ _ _ Hinst).
    by apply innerValueOf_register_ne.
  - intros k. rewrite (getField_instances _ _ _ _ Hinst).
    by apply getField_register_ne.
Qed.

(** X17. [allVisuals] hands out a copy: it registers a new object of
    module wollok.lang.List under an Id that was not in use, with the
    elements of self.visuals in their order, pushes that Id, and leaves
    the list of the game and every other object as they were. *)
Theorem allVisuals_copies (evaluation : Evaluation) (self l : Id)
  (ids : list Id) :
  frameStack evaluation <> [] ->
  getField evaluation self "visuals" = Some l ->
  innerValueOf evaluation l = ListValue ids ->
  exists evaluation' copy,
    game_allVisuals self evaluation = Ok tt evaluation'
    /\ pushed copy evaluation evaluation'
    /\ copy <> l
    /\ ~ live evaluation copy
    /\ innerValueOf evaluation' copy = ListValue ids
    /\ moduleFQNOf evaluation' copy = "wollok.lang.List"
    /\ (forall o, live evaluation o ->
                  innerValueOf evaluation' o = innerValueOf evaluation o
                  /\ forall k, getField evaluation' o k
                               = getField evaluation o k).
Proof.
  intros Hframe Hl Hv.
  destruct (newList_pushed evaluation ids Hframe)
    as (e' & Hrun & Hp & Hfresh & Hval & Hfqn & Hold).
  exists e', (freshId evaluation). split.
  { unfold game_allVisuals, bind at 1, RuntimeObject_get. rewrite Hl.
    unfold bind at 1, assertIsCollection. rewrite Hv. exact Hrun. }
  split; [done|]. split.
  { intros Heq. apply Hfresh. rewrite Heq. by eapply innerValueOf_live. }
  split; [done|]. split; [done|]. split; [done|]. exact Hold.
Qed.

Lemma allVisuals_copies_witness :
  exists evaluation' copy,
    game_allVisuals GameExamples.theGame GameExamples.started
    = Ok tt evaluation'
    /\ pushed copy GameExamples.started evaluation'
    /\ copy <> "visuals"
    /\ innerValueOf evaluation' copy = ListValue ["v"; "w"; "u"].
Proof.
  destruct (allVisuals_copies GameExamples.started GameExamples.theGame
              "visuals" ["v"; "w"; "u"])
    as (e' & copy & Hrun & Hp & Hne & _ & Hv & _).
  - discriminate.
  - vm_compute. reflexivity.
  - vm_compute. reflexivity.
  - by exists e', copy.
Defined.

(** X18. A game without a visuals attribute has no visuals: [allVisuals],
    [getObjectsIn] and [colliders] (of a visual that is not null) each
    push a new empty list and send no message, [hasVisual] pushes
    FALSE_ID and [removeVisual] pushes VOID_ID; none of them creates the
    attribute. *)
Theorem natives_without_visuals
  (sendMessage : string -> Id -> list Id -> M unit)
  (evaluation : Evaluation) (self other : Id) :
  frameStack evaluation <> [] ->
  getField evaluation self "visuals" = None ->
  let emptyList (run : M unit) :=
    exists evaluation',
      run evaluation = Ok tt evaluation'
      /\ pushed (freshId evaluation) evaluation evaluation'
      /\ innerValueOf evaluation' (freshId evaluation) = ListValue []
      /\ getField evaluation' self "visuals" = None in
  emptyList (game_allVisuals self)
  /\ emptyList (game_getObjectsIn sendMessage self other)
  /\ (other <> NULL_ID -> emptyList (game_colliders sendMessage self other))
  /\ (exists evaluation',
         game_hasVisual self other evaluation = Ok tt evaluation'
         /\ pushed FALSE_ID evaluation evaluation'
         /\ instances evaluation' = instances evaluation)
  /\ (exists evaluation',
         game_removeVisual self other evaluation = Ok tt evaluation'
         /\ pushed VOID_ID evaluation evaluation'
         /\ instances evaluation' = instances evaluation).
Proof.
  intros Hframe Hnone emptyList.
  assert (Hempty : exists e',
             bind (newList []) (fun r => returnValue r) evaluation = Ok tt e'
             /\ pushed (freshId evaluation) evaluation e'
             /\ innerValueOf e' (freshId evaluation) = ListValue []
             /\ getField e' self "visuals" = None).
  { destruct (newList_pushed evaluation [] Hframe)
      as (e' & Hrun & Hp & Hfresh & Hval & _ & Hold).
    exists e'. split; [done|]. split; [done|]. split; [done|].
    destruct (instances evaluation !! self) as [o|] eqn:Ho.
    - destruct (Hold self) as [_ Hg]; [by exists o|]. by rewrite Hg.
    - unfold bind, newList, createInstance in Hrun.
      destruct (returnValue_pushed
                  (register {| id := freshId evaluation;
                               moduleFQN := "wollok.lang.List"; fields := ∅;
                               innerValue := ListValue [] |} evaluation)
                  (freshId evaluation) Hframe) as (e'' & Hret & _ & Hinst).
      rewrite Hret in Hrun. injection Hrun as <-.
      unfold getField. rewrite Hinst. unfold register. simpl.
      rewrite lookup_insert.
      case_decide as Heq; [|by rewrite Ho]. simpl. apply lookup_empty. }
  split; [|split; [|split; [|split]]].
  - unfold emptyList, game_allVisuals, bind at 1, RuntimeObject_get.
    by rewrite Hnone.
  - unfold emptyList, game_getObjectsIn, bind at 1, RuntimeObject_get.
    by rewrite Hnone.
  - intros Hnull. apply String.eqb_neq in Hnull.
    unfold emptyList, game_colliders, checkNotNull. rewrite Hnull.
    unfold bind at 1, ret. unfold bind at 1, RuntimeObject_get.
    by rewrite Hnone.
  - destruct (returnValue_pushed evaluation FALSE_ID Hframe)
      as (e' & Hret & Hp & Hi).
    exists e'. split; [|by split].
    unfold game_hasVisual, bind, RuntimeObject_get. by rewrite Hnone.
  - destruct (returnVoid_pushed evaluation Hframe) as (e' & Hret & Hp & Hi).
    exists e'. split; [|by split].
    unfold game_removeVisual, removeVisual, removeFromInnerCollection, bind,
      RuntimeObject_get.
    by rewrite Hnone.
Qed.

Lemma natives_without_visuals_witness :
  exists evaluation',
    game_hasVisual GameExamples.theGame "v" GameExamples.fresh
    = Ok tt evaluation'
    /\ pushed FALSE_ID GameExamples.fresh evaluation'
    /\ instances evaluation' = instances GameExamples.fresh.
Proof.
  destruct (natives_without_visuals GameExamples.sendMessage
              GameExamples.fresh GameExamples.theGame "v")
    as (_ & _ & _ & Hhas & _).
  - discriminate.
  - vm_compute. reflexivity.
  - exact Hhas.
Defined.

(** *** The natives of [Sound] *)

Lemma numberOf_0 : Js.numberOf 0 = SpecFloat.S754_zero false.
Proof. reflexivity. Qed.

Lemma numberOf_1 :
  Js.numberOf 1 = SpecFloat.S754_finite false 4503599627370496 (-52).
Proof. vm_compute. reflexivity. Qed.

(** A number from zero to a positive number is neither below zero nor
    above that number. *)
Lemma lessOrEqual_lessThan (q one : Js.number) m1 e1 :
  one = SpecFloat.S754_finite false m1 e1 ->
  lessOrEqual (SpecFloat.S754_zero false) q = true ->
  lessOrEqual q one = true ->
  Js.lessThan q (SpecFloat.S754_zero false) = false
  /\ Js.lessThan one q = false.
Proof.
  intros ->.
  unfold lessOrEqual, Js.lessThan, SpecFloat.SFleb, SpecFloat.SFltb.
  destruct q as [s|s| |s m e]; cbn [SpecFloat.SFcompare].
  - intros _ _. by split.
  - destruct s; [discriminate|]. intros _ H. discriminate H.
  - discriminate.
  - destruct s; [discriminate|]. intros _.
    rewrite (Z.compare_antisym e e1).
    change (Pos.compare_cont Eq) with Pos.compare.
    rewrite (Pos.compare_antisym m m1).
    destruct (e ?= e1)%Z; cbn [CompOpp].
    + destruct (m ?= m1)%positive; cbn [CompOpp];
        intros H; (discriminate H || by split).
    + intros _. by split.
    + intros H. discriminate H.
Qed.

Lemma from_0_to_1 (q : Js.number) :
  lessOrEqual (Js.numberOf 0) q = true ->
  lessOrEqual q (Js.numberOf 1) = true ->
  Js.lessThan q (Js.numberOf 0) = false
  /\ Js.lessThan (Js.numberOf 1) q = false.
Proof.
  rewrite numberOf_0.
  apply (lessOrEqual_lessThan q (Js.numberOf 1) _ _ numberOf_1).
Qed.

(** X19. [volume] with an argument accepts exactly the numbers that are
    neither below 0 nor above 1, the numbers from 0 to 1 among them: a
    number below 0 or above 1 raises RangeError("newVolume"), a value
    that is not a number raises a TypeError, both before anything is
    written; a number that is accepted is stored in the volume attribute
    and VOID_ID is pushed. *)
Theorem volume_range (evaluation : Evaluation) (self volume : Id) :
  frameStack evaluation <> [] ->
  live evaluation self ->
  let stored :=
    exists evaluation',
      Sound_volume self (Some volume) evaluation = Ok tt evaluation'
      /\ getField evaluation' self "volume" = Some volume
      /\ pushed VOID_ID evaluation evaluation' in
  (forall q, innerValueOf evaluation volume = NumberValue q ->
             Js.lessThan q (Js.numberOf 0) = true
             \/ Js.lessThan (Js.numberOf 1) q = true ->
             Sound_volume self (Some volume) evaluation
             = Raise (Js.RangeError "newVolume") evaluation)
  /\ (forall q, innerValueOf evaluation volume = NumberValue q ->
                lessOrEqual (Js.numberOf 0) q = true
                /\ lessOrEqual q (Js.numberOf 1) = true ->
                stored)
  /\ (forall q, innerValueOf evaluation volume = NumberValue q ->
                Js.lessThan q (Js.numberOf 0) = false
                /\ Js.lessThan (Js.numberOf 1) q = false ->
                stored)
  /\ ((forall q, innerValueOf evaluation volume <> NumberValue q) ->
      exists message,
        Sound_volume self (Some volume) evaluation
        = Raise (Js.TypeError message) evaluation).
Proof.
  intros Hframe Hself stored.
  assert (Hstored : forall q,
             innerValueOf evaluation volume = NumberValue q ->
             Js.lessThan q (Js.numberOf 0) = false
             /\ Js.lessThan (Js.numberOf 1) q = false ->
             stored).
  { intros q Hq [H0 H1].
    set (e0 := updateObject self (withField "volume" volume) evaluation).
    destruct (returnVoid_pushed e0 Hframe) as (e' & Hret & Hp & Hi).
    exists e'. split; [|split; [|exact Hp]].
    + unfold Sound_volume, bind, assertIsNumber. rewrite Hq, H0, H1.
      exact Hret.
    + rewrite (getField_instances _ _ _ _ Hi). unfold e0.
      by apply getField_withField_eq. }
  split; [|split; [|split]].
  - intros q Hq Hout. unfold Sound_volume, bind, assertIsNumber.
    rewrite Hq.
    destruct Hout as [->| ->]; [reflexivity|].
    by rewrite orb_true_r.
  - intros q Hq [H0 H1]. apply (Hstored q Hq). by apply from_0_to_1.
  - exact Hstored.
  - intros Hnot. unfold Sound_volume, bind, assertIsNumber.
    destruct (innerValueOf evaluation volume) as [|q|s|ids] eqn:Hv; eauto.
    by destruct (Hnot q).
Qed.

Lemma volume_range_witness :
  Sound_volume "s" (Some "n3") GameExamples.started
  = Raise (Js.RangeError "newVolume") GameExamples.started
  /\ exists evaluation',
       Sound_volume "s" (Some "n1") GameExamples.started = Ok tt evaluation'
       /\ getField evaluation' "s" "volume" = Some "n1"
       /\ pushed VOID_ID GameExamples.started evaluation'.
Proof.
  assert (Hf : frameStack GameExamples.started <> []) by discriminate.
  assert (Hl : live GameExamples.started "s")
    by (vm_compute; eexists; reflexivity).
  destruct (volume_range GameExamples.started "s" "n3" Hf Hl)
    as (H3 & _ & _ & _).
  destruct (volume_range GameExamples.started "s" "n1" Hf Hl)
    as (_ & H1 & _ & _).
  split.
  - apply (H3 (Js.numberOf 3)); [vm_compute; reflexivity|].
    right. vm_compute. reflexivity.
  - apply (H1 (Js.numberOf 1)); [vm_compute; reflexivity|].
    split; vm_compute; reflexivity.
Defined.

(** X20. The queries [played] and [paused] read the status and change
    no object: [played] pushes TRUE_ID exactly for a sound whose status
    is "played", [paused] exactly for one whose status is "paused"; for a
    sound without a status and for a stopped one both push FALSE_ID. *)
Theorem played_and_paused (evaluation : Evaluation) (self : Id)
  (state : SoundState) :
  frameStack evaluation <> [] ->
  soundState evaluation self = Some state ->
  (exists evaluation',
      Sound_played self evaluation = Ok tt evaluation'
      /\ instances evaluation' = instances evaluation
      /\ pushed (match state with Played => TRUE_ID | _ => FALSE_ID end)
           evaluation evaluation')
  /\ (exists evaluation',
         Sound_paused self evaluation = Ok tt evaluation'
         /\ instances evaluation' = instances evaluation
         /\ pushed (match state with Paused => TRUE_ID | _ => FALSE_ID end)
              evaluation evaluation').
Proof.
  intros Hframe Hstate. split.
  - destruct (returnValue_pushed evaluation
                (match state with Played => TRUE_ID | _ => FALSE_ID end)
                Hframe) as (e' & Hret & Hp & Hi).
    exists e'. split; [|by split].
    unfold Sound_played, bind at 1, RuntimeObject_get.
    unfold bind. rewrite (innerValueIs_state _ _ _ _ Hstate).
    rewrite <- Hret. by destruct state.
  - destruct (returnValue_pushed evaluation
                (match state with Paused => TRUE_ID | _ => FALSE_ID end)
                Hframe) as (e' & Hret & Hp & Hi).
    exists e'. split; [|by split].
    unfold Sound_paused, bind at 1, RuntimeObject_get.
    unfold bind. rewrite (innerValueIs_state _ _ _ _ Hstate).
    rewrite <- Hret. by destruct state.
Qed.

Lemma played_and_paused_witness :
  exists evaluation',
    Sound_played "s" GameExamples.fresh = Ok tt evaluation'
    /\ instances evaluation' = instances GameExamples.fresh
    /\ pushed FALSE_ID GameExamples.fresh evaluation'.
Proof.
  destruct (played_and_paused GameExamples.fresh "s" Idle) as [H _].
  - discriminate.
  - vm_compute. reflexivity.
  - exact H.
Defined.

Lemma addToInnerCollection_raises e e' w x f exn :
  addToInnerCollection w x f e = Raise exn e' ->
  exists message, exn = Js.TypeError message.
Proof.
  unfold addToInnerCollection, bind, RuntimeObject_get, ret.
  destruct (getField e w f) as [l|]; simpl.
  - destruct (getField e w f) as [l'|]; [|intros [= <- _]; eauto].
    unfold assertIsCollection.
    destruct (innerValueOf e l') as [|n|s|ids];
      try (intros [= <- _]; eauto).
    destruct (includes ids x); [intros [= <- _]; eauto | discriminate].
  - match goal with
    | |- context [getField ?e1 w f] => destruct (getField e1 w f) as [l'|]
    end; [|intros [= <- _]; eauto].
    unfold assertIsCollection.
    match goal with
    | |- context [innerValueOf ?e1 l'] =>
        destruct (innerValueOf e1 l') as [|n|s|ids]
    end; try (intros [= <- _]; eauto).
    destruct (includes ids x); [intros [= <- _]; eauto | discriminate].
Qed.

Section Running.

Variable nodeIdByFQN : string -> Id.

Local Abbreviation theGame := (nodeIdByFQN "wollok.game.game").

Lemma Sound_play_not_running e sound :
  live e theGame ->
  getField e theGame "running" <> Some TRUE_ID ->
  Sound_play nodeIdByFQN sound e = Raise notStarted e.
Proof.
  intros [g Hg] Hrun.
  unfold Sound_play, bind at 1, wGame, instance. rewrite Hg.
  unfold bind at 1, RuntimeObject_get. unfold bind at 1.
  destruct (optionIdEq (getField e theGame "running") (Some TRUE_ID)) eqn:Heq;
    [|reflexivity].
  apply optionIdEq_eq in Heq. contradiction.
Qed.

(** X21. [play] is gated by [game.running]: while the running attribute
    of the game is not TRUE_ID, [play] raises the error "You cannot play
    a sound if game has not started" and leaves the store untouched.
    After [game.stop()] every [play] is turned down this way; after
    [game.doStart()] no [play] is, whatever else it does. *)
Theorem play_is_gated_by_running (evaluation : Evaluation)
  (sound isRepl : Id) :
  frameStack evaluation <> [] ->
  live evaluation theGame ->
  (getField evaluation theGame "running" <> Some TRUE_ID ->
   Sound_play nodeIdByFQN sound evaluation = Raise notStarted evaluation)
  /\ (exists e1,
         game_stop theGame evaluation = Ok tt e1
         /\ pushed VOID_ID evaluation e1
         /\ Sound_play nodeIdByFQN sound e1 = Raise notStarted e1)
  /\ (exists e1,
         game_doStart theGame isRepl evaluation = Ok tt e1
         /\ pushed VOID_ID evaluation e1
         /\ forall e2, Sound_play nodeIdByFQN sound e1
                       <> Raise notStarted e2).
Proof.
  intros Hframe Hgame. split; [|split].
  - by apply Sound_play_not_running.
  - set (e0 := updateObject theGame (withField "running" FALSE_ID)
                 evaluation).
    destruct (returnVoid_pushed e0 Hframe) as (e1 & Hret & Hp & Hi).
    exists e1. split; [exact Hret|]. split; [exact Hp|].
    apply Sound_play_not_running.
    + apply (live_instances _ _ _ Hi). by apply live_updateObject.
    + rewrite (getField_instances _ _ _ _ Hi). unfold e0.
      rewrite getField_withField_eq by assumption. discriminate.
  - set (e0 := updateObject theGame (withField "running" TRUE_ID)
                 evaluation).
    destruct (returnVoid_pushed e0 Hframe) as (e1 & Hret & Hp & Hi).
    exists e1. split; [exact Hret|]. split; [exact Hp|].
    intros e2.
    rewrite Sound_play_running.
    + unfold bind.
      destruct (addToInnerCollection _ _ _ _) as [[] e3|exn e3] eqn:Hadd.
      * unfold returnVoid, returnValue, pushOperand.
        destruct (frameStack e3); discriminate.
      * destruct (addToInnerCollection_raises _ _ _ _ _ _ Hadd) as [m ->].
        discriminate.
    + apply (live_instances _ _ _ Hi). by apply live_updateObject.
    + rewrite (getField_instances _ _ _ _ Hi). unfold e0.
      by rewrite getField_withField_eq.
Qed.

(** X22. What [play] checks in a started game is the list of sounds,
    not the status: with the Id of the sound in [game.sounds] it raises
    a TypeError whose message is the module of the sound, with the Id
    absent it returns, the Id is appended to [game.sounds] and VOID_ID is
    pushed; in both cases the status of the sound is "played"
    afterwards, whatever it was before. *)
Theorem play_checks_the_sounds (evaluation : Evaluation) (self l : Id)
  (ids : list Id) :
  frameStack evaluation <> [] ->
  live evaluation theGame ->
  live evaluation self ->
  getField evaluation theGame "running" = Some TRUE_ID ->
  getField evaluation theGame "sounds" = Some l ->
  innerValueOf evaluation l = ListValue ids ->
  (In self ids ->
   exists evaluation',
     Sound_play nodeIdByFQN self evaluation
     = Raise (Js.TypeError (moduleFQNOf evaluation self)) evaluation'
     /\ soundState evaluation' self = Some Played
     /\ collection evaluation' theGame "sounds" = ids)
  /\ (~ In self ids ->
      exists evaluation',
        Sound_play nodeIdByFQN self evaluation = Ok tt evaluation'
        /\ soundState evaluation' self = Some Played
        /\ collection evaluation' theGame "sounds" = (ids ++ [self])%list
        /\ pushed VOID_ID evaluation evaluation').
Proof.
  intros Hframe Hgame Hself Hrun Hl Hv. split.
  - intros Hin. by apply (Sound_play_in_sounds nodeIdByFQN _ _ l).
  - intros Hout. by apply (Sound_play_not_in_sounds nodeIdByFQN _ _ l).
Qed.

End Running.

Lemma play_is_gated_by_running_witness :
  exists e1,
    game_stop GameExamples.theGame GameExamples.started = Ok tt e1
    /\ pushed VOID_ID GameExamples.started e1
    /\ Sound_play GameExamples.nodeIdByFQN "s" e1
       = Raise (notStarted) e1.
Proof.
  destruct (play_is_gated_by_running GameExamples.nodeIdByFQN
              GameExamples.started "s" "true") as (_ & H & _).
  - discriminate.
  - vm_compute. eexists. reflexivity.
  - exact H.
Defined.

Lemma play_checks_the_sounds_witness :
  let e1 := GameExamples.after
              (Sound_play GameExamples.nodeIdByFQN "s" GameExamples.fresh) in
  exists evaluation',
    Sound_play GameExamples.nodeIdByFQN "s" e1
    = Raise (Js.TypeError (moduleFQNOf e1 "s")) evaluation'
    /\ soundState evaluation' "s" = Some Played
    /\ collection evaluation' GameExamples.theGame "sounds" = ["s"].
Proof.
  intros e1.
  destruct (play_checks_the_sounds GameExamples.nodeIdByFQN e1 "s"
              (freshId (withStatus "s" "played" GameExamples.fresh)) ["s"])
    as [Hin _].
  - vm_compute. discriminate.
  - vm_compute. eexists. reflexivity.
  - vm_compute. eexists. reflexivity.
  - vm_compute. reflexivity.
  - vm_compute. reflexivity.
  - vm_compute. reflexivity.
  - apply Hin. by left.
Defined.

(** *** Natives that send a message first *)

(** X23. [say] asks [io] for the current time and takes the answer from
    the operand stack: when the answer is the number [currentTime], the
    visual gets the message and, as its messageTime, a newly created
    Number whose value is the sum [currentTime + 2 * 1000] of the host
    language, a binary64 float. *)
Theorem say_stores_message_and_time
  (sendMessage : string -> Id -> list Id -> M unit)
  (nodeIdByFQN : string -> Id) (evaluation e1 : Evaluation)
  (self visual message now : Id) (currentTime : Js.number) :
  sendMessage "currentTime" (nodeIdByFQN "wollok.io.io") [] evaluation
  = Ok tt e1 ->
  pushed now evaluation e1 ->
  innerValueOf e1 now = NumberValue currentTime ->
  live e1 visual ->
  exists evaluation',
    game_say sendMessage nodeIdByFQN self visual message evaluation
    = Ok tt evaluation'
    /\ getField evaluation' visual "message" = Some message
    /\ getField evaluation' visual "messageTime" = Some (freshId e1)
    /\ innerValueOf evaluation' (freshId e1)
       = NumberValue
           (Js.plus currentTime
              (Js.times (Js.numberOf 2) (Js.numberOf 1000)))
    /\ moduleFQNOf evaluation' (freshId e1) = "wollok.lang.Number"
    /\ ~ live e1 (freshId e1).
Proof.
  intros Hsend (frame & frames & Hf0 & Hf1) Hnow Hvisual.
  assert (Hlive : live e1 now).
  { unfold live. unfold innerValueOf in Hnow.
    destruct (instances e1 !! now); [eauto|discriminate]. }
  destruct Hlive as [o Ho].
  assert (Hfresh : freshId e1 <> visual) by by apply live_not_fresh.
  destruct e1 as [m fs]. simpl in *. subst fs.
  unfold game_say, io. unfold bind at 1. rewrite Hsend.
  unfold bind at 1, popOperand. simpl.
  unfold bind at 1, instanceOfPopped, instance. simpl. rewrite Ho.
  unfold bind at 1, assertIsNumber.
  change (innerValueOf (withFrames _ {| instances := m; frameStack := _ |})
            now)
    with (innerValueOf {| instances := m; frameStack :=
            {| operandStack := now :: operandStack frame |} :: frames |} now).
  rewrite Hnow.
  unfold bind at 1, createInstance.
  set (created := register _ _).
  assert (Hc : instances created !! freshId created = None)
    by apply freshId_not_live.
  eexists. split.
  { unfold bind at 1, instance.
    replace (instances created !! _) with (Some {| id := freshId
      {| instances := m; frameStack := {| operandStack := now ::
      operandStack frame |} :: frames |};
      moduleFQN := "wollok.lang.Number"; fields := ∅;
      innerValue := NumberValue
           (Js.plus currentTime
              (Js.times (Js.numberOf 2) (Js.numberOf 1000))) |}).
    - unfold set, bind, RuntimeObject_set, returnVoid, returnValue,
        pushOperand. simpl. reflexivity.
    - symmetry. unfold created, register. simpl. apply lookup_insert_eq. }
  clear Hc.
  assert (Hv1 : live created visual).
  { unfold created. by apply live_register. }
  split; [|split; [|split; [|split]]].
  - change (getField (withFrames ?fs ?e) ?a ?k) with (getField e a k).
    rewrite getField_withField_ne by (right; discriminate).
    change (getField (withFrames ?fs ?e) ?a ?k) with (getField e a k).
    by apply getField_withField_eq.
  - change (getField (withFrames ?fs ?e) ?a ?k) with (getField e a k).
    apply getField_withField_eq.
    change (live (withFrames ?fs ?e) ?a) with (live e a).
    by apply live_updateObject.
  - change (innerValueOf (withFrames ?fs ?e) ?a) with (innerValueOf e a).
    rewrite innerValueOf_withField.
    change (innerValueOf (withFrames ?fs ?e) ?a) with (innerValueOf e a).
    rewrite innerValueOf_withField.
    unfold created, innerValueOf, register. simpl.
    by rewrite lookup_insert_eq.
  - change (moduleFQNOf (withFrames ?fs ?e) ?a) with (moduleFQNOf e a).
    rewrite moduleFQNOf_withField.
    change (moduleFQNOf (withFrames ?fs ?e) ?a) with (moduleFQNOf e a).
    rewrite moduleFQNOf_withField.
    unfold created, moduleFQNOf, register. simpl.
    by rewrite lookup_insert_eq.
  - intros [x Hx]. by rewrite freshId_not_live in Hx.
Qed.

Lemma say_stores_message_and_time_witness :
  let late :=
    updateObject "now" (withInnerValue (NumberValue (Js.numberOf 200000000000000000)))
      GameExamples.started in
  exists evaluation' messageTime,
    game_say GameExamples.sendMessage GameExamples.nodeIdByFQN
      GameExamples.theGame "v" "hello" late
    = Ok tt evaluation'
    /\ getField evaluation' "v" "message" = Some "hello"
    /\ getField evaluation' "v" "messageTime" = Some messageTime
    /\ innerValueOf evaluation' messageTime
       = NumberValue (Js.numberOf 200000000000001984).
Proof.
  intros late.
  destruct (say_stores_message_and_time GameExamples.sendMessage
              GameExamples.nodeIdByFQN late
              (GameExamples.after
                 (GameExamples.sendMessage "currentTime" "wollok.io.io" []
                    late))
              GameExamples.theGame "v" "hello" "now"
              (Js.numberOf 200000000000000000))
    as (e' & Hrun & Hm & Ht & Hv & _).
  - vm_compute. reflexivity.
  - eexists _, _. split; vm_compute; reflexivity.
  - vm_compute. reflexivity.
  - vm_compute. eexists. reflexivity.
  - exists e'. eexists. split; [exact Hrun|]. split; [exact Hm|].
    split; [exact Ht|]. rewrite Hv. vm_compute. reflexivity.
Defined.

(** X24. [clear] forwards the message to [io] and then replaces the
    list of visuals: when the message returns, the visuals attribute of
    the game refers to a newly created empty list, so the game has no
    visuals left, and VOID_ID is pushed; the list the attribute referred
    to before is not modified. *)
Theorem clear_empties_visuals
  (sendMessage : string -> Id -> list Id -> M unit)
  (nodeIdByFQN : string -> Id) (evaluation e1 : Evaluation) (self : Id) :
  sendMessage "clear" (nodeIdByFQN "wollok.io.io") [] evaluation
  = Ok tt e1 ->
  frameStack e1 <> [] ->
  live e1 self ->
  exists evaluation',
    game_clear sendMessage nodeIdByFQN self evaluation = Ok tt evaluation'
    /\ pushed VOID_ID e1 evaluation'
    /\ getField evaluation' self "visuals" = Some (freshId e1)
    /\ ~ live e1 (freshId e1)
    /\ collection evaluation' self "visuals" = []
    /\ (forall o, live e1 o ->
                  innerValueOf evaluation' o = innerValueOf e1 o).
Proof.
  intros Hsend Hframe Hself.
  set (created := register {| id := freshId e1;
                              moduleFQN := "wollok.lang.List"; fields := ∅;
                              innerValue := ListValue [] |} e1).
  set (e2 := updateObject self (withField "visuals" (freshId e1)) created).
  destruct (returnVoid_pushed e2 Hframe) as (e' & Hret & Hp & Hi).
  assert (Hfield : getField e' self "visuals" = Some (freshId e1)).
  { rewrite (getField_instances _ _ _ _ Hi). unfold e2.
    apply getField_withField_eq. unfold created. by apply live_register. }
  assert (Hvalue : innerValueOf e' (freshId e1) = ListValue []).
  { rewrite (innerValueOf_instances _ _ _ Hi). unfold e2.
    rewrite innerValueOf_withField. unfold created.
    apply (innerValueOf_register_eq e1
             {| id := freshId e1; moduleFQN := "wollok.lang.List";
                fields := ∅; innerValue := ListValue [] |}). }
  exists e'. split; [|split; [|split; [|split; [|split]]]].
  - unfold game_clear, io. unfold bind at 1. rewrite Hsend.
    unfold bind at 1, newList, createInstance.
    unfold bind at 1, RuntimeObject_set. exact Hret.
  - exact Hp.
  - exact Hfield.
  - intros [x Hx]. by rewrite freshId_not_live in Hx.
  - unfold collection. by rewrite Hfield, Hvalue.
  - intros o Ho. rewrite (innerValueOf_instances _ _ _ Hi). unfold e2.
    rewrite innerValueOf_withField. unfold created.
    apply innerValueOf_register_ne. simpl. by apply live_not_fresh.
Qed.

Lemma clear_empties_visuals_witness :
  exists evaluation',
    game_clear GameExamples.sendMessage GameExamples.nodeIdByFQN
      GameExamples.theGame GameExamples.started
    = Ok tt evaluation'
    /\ collection evaluation' GameExamples.theGame "visuals" = []
    /\ innerValueOf evaluation' "visuals" = ListValue ["v"; "w"; "u"].
Proof.
  destruct (clear_empties_visuals GameExamples.sendMessage
              GameExamples.nodeIdByFQN GameExamples.started
              (GameExamples.after
                 (GameExamples.sendMessage "clear" "wollok.io.io" []
                    GameExamples.started))
              GameExamples.theGame)
    as (e' & Hrun & _ & _ & _ & Hc & Hold).
  - vm_compute. reflexivity.
  - vm_compute. discriminate.
  - vm_compute. eexists. reflexivity.
  - exists e'. split; [exact Hrun|]. split; [exact Hc|].
    rewrite Hold; [vm_compute; reflexivity|].
    vm_compute. eexists. reflexivity.
Defined.

(** X25. [addVisualIn] on a visual and a position that are not null,
    with a well-formed list of visuals that lacks the visual: the
    position is stored in the visual, the visual is appended to the
    visuals, VOID_ID is pushed, and from then on [getPosition] answers
    the stored position without sending a message.  A null visual, and a
    null position with a visual that is not null, raise the TypeError
    named after the parameter before anything is written. *)
Theorem addVisualIn_places_the_visual
  (sendMessage : string -> Id -> list Id -> M unit)
  (evaluation : Evaluation) (self visual position : Id) :
  frameStack evaluation <> [] ->
  live evaluation self ->
  live evaluation visual ->
  ~ notACollection evaluation self "visuals" ->
  ~ In visual (collection evaluation self "visuals") ->
  (visual <> NULL_ID -> position <> NULL_ID ->
   exists evaluation',
     game_addVisualIn self visual position evaluation = Ok tt evaluation'
     /\ pushed VOID_ID evaluation evaluation'
     /\ collection evaluation' self "visuals"
        = (collection evaluation self "visuals" ++ [visual])%list
     /\ getField evaluation' visual "position" = Some position
     /\ getPosition sendMessage visual evaluation'
        = Ok position evaluation')
  /\ (visual <> NULL_ID ->
      game_addVisualIn self visual NULL_ID evaluation
      = Raise (Js.TypeError "position") evaluation)
  /\ game_addVisualIn self NULL_ID position evaluation
     = Raise (Js.TypeError "visual") evaluation.
Proof.
  intros Hframe Hself Hvisual Hcoll Hnew. split; [|split].
  - intros Hv Hp.
    set (e0 := updateObject visual (withField "position" position)
                 evaluation).
    assert (Hg : forall k, k <> "position" ->
                           getField e0 self k = getField evaluation self k).
    { intros k Hk. unfold e0. apply getField_withField_ne. right. congruence. }
    assert (Hc0 : collection e0 self "visuals"
                  = collection evaluation self "visuals").
    { unfold collection. rewrite Hg by discriminate.
      destruct (getField evaluation self "visuals"); [|done].
      unfold e0. by rewrite innerValueOf_withField. }
    destruct (addToInnerCollection_ok e0 self visual "visuals")
      as (e1 & Hadd & Hfr & Hc1 & _ & Hl1 & Hf1).
    { by apply live_updateObject. }
    { intros (l & Hl & Hbad). apply Hcoll. exists l.
      rewrite Hg in Hl by discriminate. split; [done|].
      intros ids Hids. apply (Hbad ids). unfold e0.
      by rewrite innerValueOf_withField. }
    { by rewrite Hc0. }
    assert (Hframe1 : frameStack e1 <> []) by by rewrite Hfr.
    destruct (returnVoid_pushed e1 Hframe1) as (e' & Hret & Hpush & Hi).
    assert (Hpos : getField e' visual "position" = Some position).
    { rewrite (getField_instances _ _ _ _ Hi).
      rewrite Hf1; [|by apply live_updateObject|discriminate].
      by apply getField_withField_eq. }
    exists e'. split; [|split; [|split; [|split]]].
    + unfold game_addVisualIn, checkNotNull.
      destruct (String.eqb_spec visual NULL_ID) as [|_]; [done|].
      destruct (String.eqb_spec position NULL_ID) as [|_]; [done|].
      unfold bind at 1, ret. unfold bind at 1.
      unfold bind at 1, RuntimeObject_set. fold e0.
      unfold bind at 1, addVisual. by rewrite Hadd.
    + apply (pushed_same_frames _ e1); [|done]. by rewrite Hfr.
    + rewrite (collection_instances _ _ _ _ Hi). by rewrite Hc1, Hc0.
    + exact Hpos.
    + apply getPosition_field; [|done].
      apply (live_instances _ _ _ Hi). apply Hl1.
      by apply live_updateObject.
  - intros Hv. unfold game_addVisualIn, checkNotNull.
    destruct (String.eqb_spec visual NULL_ID) as [|_]; [done|].
    reflexivity.
  - reflexivity.
Qed.

Lemma addVisualIn_places_the_visual_witness :
  exists evaluation',
    game_addVisualIn GameExamples.theGame "z" "p2" GameExamples.started
    = Ok tt evaluation'
    /\ collection evaluation' GameExamples.theGame "visuals"
       = ["v"; "w"; "u"; "z"]
    /\ getPosition GameExamples.sendMessage "z" evaluation'
       = Ok "p2" evaluation'.
Proof.
  destruct (addVisualIn_places_the_visual GameExamples.sendMessage
              GameExamples.started GameExamples.theGame "z" "p2")
    as [H _].
  - discriminate.
  - vm_compute. eexists. reflexivity.
  - vm_compute. eexists. reflexivity.
  - intros (l & Hl & Hbad). vm_compute in Hl. injection Hl as <-.
    by apply (Hbad ["v"; "w"; "u"]).
  - vm_compute. intros [H|[H|[H|[]]]]; discriminate.
  - destruct H as (e' & Hrun & _ & Hc & _ & Hp); [discriminate..|].
    exists e'. split; [exact Hrun|]. split; [exact Hc|exact Hp].
Defined.

(** X26. The operand stack after a native: when every message sent
    leaves exactly one result on the stack, a native of the table that
    returns leaves the stack of the current frame one entry deeper,
    except the ten natives of [game] that forward a message without
    taking its result off, or that set two attributes in a row; those
    leave it two entries deeper. *)
Theorem natives_stack_depth
  (sendMessage : string -> Id -> list Id -> M unit)
  (nodeIdByFQN : string -> Id)
  (moduleLookupMethod : string -> string -> nat -> bool)
  (module method : string) (self : Id) (args : list Id) (step : M unit)
  (evaluation evaluation' : Evaluation) :
  leavesResult sendMessage ->
  native sendMessage nodeIdByFQN moduleLookupMethod module method self args
  = Some step ->
  step evaluation = Ok tt evaluation' ->
  operandDepth evaluation'
  = operandDepth evaluation + (if pushesTwice module method then 2 else 1).
Proof.
  intros Hsend Hnative Hrun.
  exact (native_depth sendMessage nodeIdByFQN moduleLookupMethod Hsend
           module method self args step evaluation evaluation'
           Hnative Hrun).
Qed.

Lemma answering_leavesResult answer : leavesResult (GameExamples.answering answer).
Proof.
  intros message receiver args e e'.
  unfold GameExamples.answering, pushOperand, operandDepth.
  destruct (frameStack e) as [|frame frames]; [discriminate|].
  by intros [= <-].
Qed.

Lemma natives_stack_depth_witness :
  operandDepth
    (GameExamples.after
       (game_clear GameExamples.sendMessage GameExamples.nodeIdByFQN
          GameExamples.theGame GameExamples.started))
  = operandDepth GameExamples.started + 2.
Proof.
  apply (natives_stack_depth GameExamples.sendMessage
           GameExamples.nodeIdByFQN GameExamples.moduleLookupMethod
           "game" "clear" GameExamples.theGame []
           (game_clear GameExamples.sendMessage GameExamples.nodeIdByFQN
              GameExamples.theGame)).
  - apply answering_leavesResult.
  - reflexivity.
  - vm_compute. reflexivity.
Defined.

(** X27. [stop], [pause] and [resume] are guarded by the status of the
    sound.  [pause] and [stop] turn down every sound that is not played,
    [resume] every sound that is not paused, each with its own Error and
    with the store left as it was.  On a played sound [pause] makes the
    status paused and [stop] makes it stopped and takes the sound out of
    [game.sounds]; on a paused sound [resume] makes the status played;
    each of them then pushes VOID_ID. *)
Theorem guarded_sound_natives (nodeIdByFQN : string -> Id)
  (evaluation : Evaluation) (self : Id) (state : SoundState) :
  frameStack evaluation <> [] ->
  live evaluation (nodeIdByFQN "wollok.game.game") ->
  live evaluation self ->
  (forall l, getField evaluation (nodeIdByFQN "wollok.game.game") "sounds"
             = Some l ->
             exists ids, innerValueOf evaluation l = ListValue ids) ->
  soundState evaluation self = Some state ->
  (state <> Played ->
   Sound_pause self evaluation
   = Raise (Js.Error "You cannot pause a sound that is not played")
       evaluation
   /\ Sound_stop nodeIdByFQN self evaluation
      = Raise (Js.Error "You cannot stop a sound that is not played")
          evaluation)
  /\ (state <> Paused ->
      Sound_resume self evaluation
      = Raise (Js.Error "You cannot resume a sound that is not paused")
          evaluation)
  /\ (state = Played ->
      (exists evaluation',
          Sound_pause self evaluation = Ok tt evaluation'
          /\ soundState evaluation' self = Some Paused
          /\ pushed VOID_ID evaluation evaluation')
      /\ (exists evaluation',
             Sound_stop nodeIdByFQN self evaluation = Ok tt evaluation'
             /\ soundState evaluation' self = Some Stopped
             /\ pushed VOID_ID evaluation evaluation'
             /\ collection evaluation' (nodeIdByFQN "wollok.game.game")
                  "sounds"
                = List.filter (fun id => negb (String.eqb id self))
                    (collection evaluation
                       (nodeIdByFQN "wollok.game.game") "sounds")))
  /\ (state = Paused ->
      exists evaluation',
        Sound_resume self evaluation = Ok tt evaluation'
        /\ soundState evaluation' self = Some Played
        /\ pushed VOID_ID evaluation evaluation').
Proof.
  intros Hframe Hgame Hself Hsounds Hstate.
  split; [|split; [|split]].
  - intros Hne. split.
    + rewrite (Sound_pause_run _ _ _ Hstate). by destruct state.
    + rewrite (Sound_stop_run nodeIdByFQN _ _ _ Hgame Hstate).
      by destruct state.
  - intros Hne. rewrite (Sound_resume_run _ _ _ Hstate). by destruct state.
  - intros ->. split.
    + destruct (guarded_events_follow_the_table nodeIdByFQN evaluation self
                  Played PauseEvent) as (e' & Hrun & Hs & Hp & _);
        try done.
      by exists e'.
    + destruct (guarded_events_follow_the_table nodeIdByFQN evaluation self
                  Played StopEvent) as (e' & Hrun & Hs & Hp & Hc);
        try done.
      exists e'. split; [done|]. split; [done|]. split; [done|].
      by apply Hc.
  - intros ->.
    destruct (guarded_events_follow_the_table nodeIdByFQN evaluation self
                Paused ResumeEvent) as (e' & Hrun & Hs & Hp & _);
      try done.
    by exists e'.
Qed.

Lemma guarded_sound_natives_witness :
  let e1 := GameExamples.after
              (Sound_play GameExamples.nodeIdByFQN "s" GameExamples.fresh) in
  exists evaluation',
    Sound_pause "s" e1 = Ok tt evaluation'
    /\ soundState evaluation' "s" = Some Paused
    /\ pushed VOID_ID e1 evaluation'.
Proof.
  intros e1.
  destruct (guarded_sound_natives GameExamples.nodeIdByFQN e1 "s" Played)
    as (_ & _ & H & _).
  - vm_compute. discriminate.
  - vm_compute. eexists. reflexivity.
  - vm_compute. eexists. reflexivity.
  - intros l Hl. vm_compute in Hl. injection Hl as <-.
    eexists. vm_compute. reflexivity.
  - vm_compute. reflexivity.
  - destruct H as [H _]; [reflexivity|]. exact H.
Defined.

End GameExtras.
